(** * nanocall: model shortlists, scaling rounds, basecall write-out

    A shallow embedding of the read pipeline of [nanocall.cpp]
    ([init_models], [init_files], [init_reads], [rescale_reads],
    [write_fasta], [basecall_reads], [real_main]) together with the
    properties of the pipeline that the specification states.

    Conventions.
    - [std::map] is an association list kept sorted by the key order, so
      that iteration visits the entries in the order the C++ container does.
    - [std::string] is [string]; its [operator<] is [String.ltb] (bytewise).
    - [unsigned] counters that provably stay small are [nat]; the column
      counter of [write_fasta], which can wrap, is an [N] reduced modulo
      [2^32].
    - [float] is an abstract type with the operations the pipeline uses
      ([<], [+]); no property of floating-point arithmetic is assumed unless
      a theorem lists it as a hypothesis.
    - Headers that are not part of the translated sources (the trainer, the
      Viterbi engine, the container reader, the parallel-for harness) are
      fields of the records [Kernel] and [Reader] or, where the
      specification fixes their behaviour, definitions marked as modelled
      from it.

    The first part of the file holds the definitions, the second part the
    lemmas and theorems: first the properties that the specification
    states (C1 to C10), then further properties of the same code and of
    its first revision (X1 to X22). *)

From Stdlib Require Import List String Ascii Bool Arith NArith ZArith Lia.
From Stdlib Require Import Sorted Permutation OrderedTypeEx DecimalString.
From Stdlib Require Import Relations.
Import ListNotations.

Set Implicit Arguments.

(** ** Failures

    [std::map::at] throws [std::out_of_range] on a missing key;
    dereferencing an end iterator, calling [back()] on an empty deque or
    indexing a deque past its end is undefined; [exit] ends the process with a code and, here, the
    diagnostic written just before it.  Each stops the translated function
    with a [Raise].  [fuel_exhausted] marks a loop that did not finish
    within the iterations it was given. *)

Inductive Failure : Type :=
| out_of_range (key : string)
| end_iterator_dereferenced
| back_of_empty_deque
| index_past_the_end
| exit_called (code : nat) (diagnostic : string)
| fuel_exhausted.

Inductive result (A : Type) : Type :=
| Ok (a : A)
| Raise (f : Failure).

Arguments Ok {A} a.
Arguments Raise {A} f.

Definition bind {A B : Type} (r : result A) (k : A -> result B) : result B :=
  match r with
  | Ok a => k a
  | Raise f => Raise f
  end.

Notation "x <- e ;; k" := (bind e (fun x => k))
  (at level 61, e at next level, right associativity).
Notation "' p <- e ;; k" := (bind e (fun p => k))
  (at level 61, p pattern, e at next level, right associativity).

Definition is_ok {A : Type} (r : result A) : bool :=
  match r with Ok _ => true | Raise _ => false end.

(** A range-based [for] whose body may fail. *)
Fixpoint for_each {A S : Type} (body : S -> A -> result S) (l : list A) (s : S)
  : result S :=
  match l with
  | [] => Ok s
  | x :: l' => s' <- body s x ;; for_each body l' s'
  end.

Definition EXIT_SUCCESS : nat := 0.
Definition EXIT_FAILURE : nat := 1.

(** ** [std::map] as a sorted association list *)

Module StdMap.
Section Ordered.
Variables K V : Type.
Variable lt : K -> K -> bool.

Definition t : Type := list (K * V).

(** [find]: lower bound, then the equivalence test. *)
Fixpoint find (k : K) (m : t) : option V :=
  match m with
  | [] => None
  | (k', v) :: m' =>
      if lt k' k then find k m'
      else if lt k k' then None
      else Some v
  end.

Definition count (k : K) (m : t) : nat :=
  match find k m with Some _ => 1 | None => 0 end.

(** [m.at(k)] as an rvalue. *)
Definition at_ (describe : K -> string) (k : K) (m : t) : result V :=
  match find k m with
  | Some v => Ok v
  | None => Raise (out_of_range (describe k))
  end.

(** [m[k] = v]: insert or overwrite; an equivalent stored key is kept. *)
Fixpoint subscript_assign (k : K) (v : V) (m : t) : t :=
  match m with
  | [] => [(k, v)]
  | (k', v') :: m' =>
      if lt k' k then (k', v') :: subscript_assign k v m'
      else if lt k k' then (k, v) :: (k', v') :: m'
      else (k', v) :: m'
  end.

(** [m.at(k) = v]. *)
Definition at_assign (describe : K -> string) (k : K) (v : V) (m : t)
  : result t :=
  match find k m with
  | Some _ => Ok (subscript_assign k v m)
  | None => Raise (out_of_range (describe k))
  end.

(** [m[k]] as an rvalue; a missing key reads as the value-initialised
    [dflt]. *)
Definition subscript (dflt : V) (k : K) (m : t) : V :=
  match find k m with Some v => v | None => dflt end.

Definition keys (m : t) : list K := map fst m.

(** The invariant of the container: keys strictly ascending. *)
Definition well_formed (m : t) : Prop :=
  StronglySorted (fun a b => lt a b = true) (keys m).

End Ordered.
End StdMap.

(** ** Strings, pairs, small arrays *)

Definition string_lt : string -> string -> bool := String.ltb.

Definition name_map (V : Type) : Type := StdMap.t string V.

Definition name_at {V : Type} (k : string) (m : name_map V) : result V :=
  StdMap.at_ string_lt (fun s => s) k m.

Definition name_at_assign {V : Type} (k : string) (v : V) (m : name_map V)
  : result (name_map V) :=
  StdMap.at_assign string_lt (fun s => s) k v m.

Definition name_assign {V : Type} (k : string) (v : V) (m : name_map V)
  : name_map V :=
  StdMap.subscript_assign string_lt k v m.

Definition name_count {V : Type} (k : string) (m : name_map V) : nat :=
  StdMap.count string_lt k m.

(** The lexicographic combination that [operator<] of pairs and tuples
    computes. *)
Definition lex_lt {A B : Type} (lta : A -> A -> bool) (ltb : B -> B -> bool)
  (x y : A * B) : bool :=
  lta (fst x) (fst y) || (negb (lta (fst y) (fst x)) && ltb (snd x) (snd y)).

(** [operator<] of [std::pair<string, string>]. *)
Definition pair_lt (a b : string * string) : bool :=
  string_lt (fst a) (fst b)
  || (negb (string_lt (fst b) (fst a)) && string_lt (snd a) (snd b)).

(** [m_name_0 + '+' + m_name_1]. *)
Definition joint_name (m0 m1 : string) : string :=
  (m0 ++ "+" ++ m1)%string.

(** [os << st] for an [unsigned]. *)
Definition decimal (n : nat) : string :=
  NilZero.string_of_uint (Nat.to_uint n).

(** [std::array<A, 2>] and [std::array<A, 3>], indexed by a strand. *)
Definition array2 (A : Type) : Type := (A * A)%type.
Definition array3 (A : Type) : Type := (A * A * A)%type.

Definition get2 {A : Type} (a : array2 A) (i : nat) : A :=
  match i with 0 => fst a | _ => snd a end.

Definition set2 {A : Type} (a : array2 A) (i : nat) (x : A) : array2 A :=
  match i with 0 => (x, snd a) | _ => (fst a, x) end.

Definition get3 {A : Type} (a : array3 A) (i : nat) : A :=
  match i with
  | 0 => fst (fst a)
  | 1 => snd (fst a)
  | _ => snd a
  end.

Definition set3 {A : Type} (a : array3 A) (i : nat) (x : A) : array3 A :=
  match i with
  | 0 => (x, snd (fst a), snd a)
  | 1 => (fst (fst a), x, snd a)
  | _ => (fst a, x)
  end.

(** The laws of [<] on a type whose values are all comparable (floats
    that are not NaN, strings): irreflexive, transitive, and with a
    transitive "neither is smaller". *)
Record strict_weak_order {A : Type} (lt : A -> A -> bool) : Prop := {
  lt_irreflexive : forall a, lt a a = false;
  lt_transitive :
    forall a b c, lt a b = true -> lt b c = true -> lt a c = true;
  lt_negatively_transitive :
    forall a b c, lt a b = false -> lt b c = false -> lt a c = false
}.

(** ** Data model *)

(** The types declared in headers that are not translated. *)
Record Types : Type := {
  Float_Type : Type;
  Kmer_Table : Type;                  (* the emission table of a pore model *)
  Pore_Model_Parameters_Type : Type;
  Event_Type : Type;
  State_Transitions_Type : Type
}.

(** [Pore_Model_Type]: the table read from a file or a built-in list, and
    the strand tag ([pm.strand()]). *)
Record Pore_Model_Type (T : Types) : Type := {
  table : Kmer_Table T;
  strand : nat
}.

Definition Pore_Model_Dict_Type (T : Types) : Type :=
  name_map (Pore_Model_Type T).

Definition Event_Sequence_Type (T : Types) : Type := list (Event_Type T).

(** What the pipeline calls in the numeric headers. *)
Record Kernel (T : Types) : Type := {
  float_lt : Float_Type T -> Float_Type T -> bool;              (* a < b *)
  float_add : Float_Type T -> Float_Type T -> Float_Type T;     (* a + b *)
  float_zero : Float_Type T;                                    (* float() *)
  drift : Pore_Model_Parameters_Type T -> Float_Type T;         (* params.drift *)
  (* Model_Parameter_Trainer_Type::train_one_round(event_seq_ptrs, model_ptrs,
     transitions, old_pm_params, crt_pm_params, fit, done) *)
  train_one_round :
    list (Event_Sequence_Type T) -> list (Pore_Model_Type T) ->
    State_Transitions_Type T -> Pore_Model_Parameters_Type T ->
    Pore_Model_Parameters_Type T * Float_Type T * bool;
  (* pm.scale(params) *)
  scale : Pore_Model_Type T -> Pore_Model_Parameters_Type T -> Pore_Model_Type T;
  (* events.apply_drift_correction(drift) *)
  apply_drift_correction :
    Event_Sequence_Type T -> Float_Type T -> Event_Sequence_Type T;
  (* vit.fill(pm, transitions, events); vit.path_probability(); vit.base_seq() *)
  viterbi :
    Pore_Model_Type T -> State_Transitions_Type T -> Event_Sequence_Type T ->
    Float_Type T * string;
  (* transitions.compute_transitions(pr_skip, pr_stay, pr_cutoff) *)
  compute_transitions :
    Float_Type T -> Float_Type T -> Float_Type T -> State_Transitions_Type T
}.

(** The [opts] namespace after [cmd_parser.parse]. *)
Record Options (T : Types) : Type := {
  stats_fn : string;
  min_read_len : nat;
  fasta_line_width : N;
  scale_select_model_single_round : bool;
  scale_strands_together : bool;
  scale_min_fit_progress : Float_Type T;
  scale_max_rounds : nat;
  scale_num_events : nat;
  scale_only : bool;
  accurate_scaling : bool;
  pr_cutoff : Float_Type T;
  pr_skip : Float_Type T;
  pr_stay : Float_Type T;
  trans_fn : string;
  model_fofn : string;
  model_fn : list string;
  output_fn : string;
  num_threads : nat;
  input_fn : list string
}.

(** The fields of [Fast5_Summary_Type] the pipeline touches. *)
Record Fast5_Summary_Type (T : Types) : Type := {
  read_id : string;
  base_file_name : string;
  have_ed_events : bool;
  strand_bounds : nat * nat * nat * nat;
  events : array2 (Event_Sequence_Type T);
  preferred_model : array2 string;
  params : array3 (name_map (Pore_Model_Parameters_Type T))
}.

(** The container reader, the file system and the model files. *)
Record Reader (T : Types) : Type := {
  is_directory : string -> bool;
  list_directory : string -> list string;
  is_valid_file : string -> bool;              (* fast5::File::is_valid_file *)
  getlines : string -> list string;            (* getline over a file, "-" is cin *)
  read_pore_model : string -> Kmer_Table T;    (* zstr::ifstream(e) >> pm *)
  read_transitions : string -> State_Transitions_Type T;
  (* Builtin_Model::names, init_lists, strands, for i < Builtin_Model::num *)
  builtin_models : list (string * Kmer_Table T * nat);
  (* Fast5_Summary_Type(f, models, scale_strands_together) *)
  summarize : string -> Pore_Model_Dict_Type T -> bool -> Fast5_Summary_Type T;
  load_events : bool -> Fast5_Summary_Type T -> Fast5_Summary_Type T;
  drop_events : Fast5_Summary_Type T -> Fast5_Summary_Type T;
  write_tsv : Fast5_Summary_Type T -> string
}.

(** The log lines of the scaling pass. *)
Inductive Log_Line (T : Types) : Type :=
| scaling_round (read : string) (strand_label : nat) (model : string)
    (old_params : Pore_Model_Parameters_Type T)
    (old_fit : option (Float_Type T))             (* [None] is -INFINITY *)
    (crt_params : Pore_Model_Parameters_Type T) (crt_fit : Float_Type T)
    (round : nat)
| scaling_regression (read : string) (strand_label : nat) (model : string)
    (old_params : Pore_Model_Parameters_Type T) (old_fit : Float_Type T)
    (crt_params : Pore_Model_Parameters_Type T) (crt_fit : Float_Type T)
    (round : nat)
| scaling_result (read : string) (strand_label : nat) (model : string)
    (parameters : Pore_Model_Parameters_Type T) (fit : Float_Type T)
    (rounds : nat)
| selected_model (read : string) (strand_label : nat) (model : string).

Arguments scaling_round {T}.
Arguments scaling_regression {T}.
Arguments scaling_result {T}.
Arguments selected_model {T}.

Definition with_preferred_model {T : Types} (rs : Fast5_Summary_Type T)
  (st : nat) (m : string) : Fast5_Summary_Type T :=
  {| read_id := read_id rs;
     base_file_name := base_file_name rs;
     have_ed_events := have_ed_events rs;
     strand_bounds := strand_bounds rs;
     events := events rs;
     preferred_model := set2 (preferred_model rs) st m;
     params := params rs |}.

Definition with_params {T : Types} (rs : Fast5_Summary_Type T)
  (st : nat) (p : name_map (Pore_Model_Parameters_Type T))
  : Fast5_Summary_Type T :=
  {| read_id := read_id rs;
     base_file_name := base_file_name rs;
     have_ed_events := have_ed_events rs;
     strand_bounds := strand_bounds rs;
     events := events rs;
     preferred_model := preferred_model rs;
     params := set3 (params rs) st p |}.

(** ** The pipeline *)

Section Pipeline.
Context {T : Types}.
Variable E : Kernel T.
Variable R : Reader T.
Variable opts : Options T.

Local Abbreviation Params := (Pore_Model_Parameters_Type T).
Local Abbreviation Float := (Float_Type T).
Local Abbreviation Summary := (Fast5_Summary_Type T).
Local Abbreviation Models := (Pore_Model_Dict_Type T).
Local Abbreviation Log := (list (Log_Line T)).

(** *** Candidate models of a strand

    The loop over [models] that both [rescale_reads] and [basecall_reads]
    run when the read has no known preferred model. *)
Fixpoint models_for_strand (st : nat) (entries : Models) : list string :=
  match entries with
  | [] => []
  | (name, pm) :: rest =>
      if (strand pm =? st) || (strand pm =? 2)
      then name :: models_for_strand st rest
      else models_for_strand st rest
  end.

(** "create list of models to try": the same statements in both passes. *)
Definition model_shortlist (models : Models) (rs : Summary) (st : nat)
  : list string :=
  if 0 <? name_count (get2 (preferred_model rs) st) models
  then [get2 (preferred_model rs) st]
  else models_for_strand st models.

(** [read_summary.events[st].size() < opts::min_read_len] *)
Definition too_short (rs : Summary) (st : nat) : bool :=
  List.length (get2 (events rs) st) <? min_read_len opts.

(** [rescale_reads]: "create per-strand list of models to try". *)
Definition rescale_model_list (models : Models) (rs : Summary)
  : array2 (list string) :=
  fold_left
    (fun model_list st =>
       if too_short rs st then model_list
       else set2 model_list st (model_shortlist models rs st))
    [0; 1] ([], []).

(** [rescale_reads]: "create per-strand list of event sequences on which to
    train": a prefix and a suffix of [n_events / 2] events. *)
Definition train_event_seqs (rs : Summary)
  : array2 (list (Event_Sequence_Type T)) :=
  fold_left
    (fun seqs st =>
       if too_short rs st then seqs
       else
         let ev := get2 (events rs) st in
         let n_events := Nat.min (scale_num_events opts) (List.length ev) in
         set2 seqs st
           [firstn (n_events / 2) ev; skipn (List.length ev - n_events / 2) ev])
    [0; 1] ([], []).

(** *** Selecting the best first-round fit *)

(** Modelled from the spec: [alg::max_of] ([alg.hpp] is not among the
    translated sources).  "pick argmax fit across the candidate model(s)":
    the entry of a map whose fit no other entry exceeds; [None] is the end
    iterator of an empty map.  Among entries of equal fit the first in
    iteration order is returned. *)
Fixpoint max_of_from {K : Type} (best : K * Float) (rest : list (K * Float))
  : K * Float :=
  match rest with
  | [] => best
  | e :: rest' =>
      if float_lt E (snd best) (snd e) then max_of_from e rest'
      else max_of_from best rest'
  end.

Definition max_of {K : Type} (model_fit : list (K * Float))
  : option (K * Float) :=
  match model_fit with
  | [] => None
  | e :: rest => Some (max_of_from e rest)
  end.

(** *** The rounds after round 0

    The [while (true)] loop, which [rescale_reads] contains twice with the
    same statements: once for a pair of models trained together (strand
    label 2), once for the model of a single strand.  [train] is the call
    of [train_one_round] on the training sequences and models of the
    caller. *)
Record Scaling_State : Type := {
  crt_pm_params : Params;
  crt_fit : Float;
  round : nat;
  log : Log
}.

Fixpoint scaling_rounds (fuel : nat)
  (train : Params -> Params * Float * bool)
  (rid : string) (label : nat) (m_name : string)
  (s : Scaling_State) : result Scaling_State :=
  match fuel with
  | 0 => Raise fuel_exhausted
  | S fuel' =>
      let old_pm_params := crt_pm_params s in
      let old_fit := crt_fit s in
      let '(new_pm_params, new_fit, done) := train old_pm_params in
      let log1 :=
        log s ++ [scaling_round rid label m_name old_pm_params (Some old_fit)
                    new_pm_params new_fit (round s)] in
      if done then
        (* singularity detected; stop *)
        Ok {| crt_pm_params := new_pm_params; crt_fit := new_fit;
              round := round s; log := log1 |}
      else if float_lt E new_fit old_fit then
        Ok {| crt_pm_params := old_pm_params; crt_fit := old_fit;
              round := round s;
              log := log1 ++ [scaling_regression rid label m_name old_pm_params
                                old_fit new_pm_params new_fit (round s)] |}
      else
        let round' := S (round s) in
        let s' := {| crt_pm_params := new_pm_params; crt_fit := new_fit;
                     round := round'; log := log1 |} in
        (* stop condition *)
        if (scale_max_rounds opts <=? round')
           || ((1 <? round')
               && float_lt E new_fit
                    (float_add E old_fit (scale_min_fit_progress opts)))
        then Ok s'
        else scaling_rounds fuel' train rid label m_name s'
  end.

(** [unsigned round = 1; ... while (true) {...}] with the fuel that the
    loop cannot use up (see [scaling_loop_total]). *)
Definition scaling_loop (train : Params -> Params * Float * bool)
  (rid : string) (label : nat) (m_name : string)
  (params0 : Params) (fit0 : Float) (log0 : Log) : result Scaling_State :=
  scaling_rounds (S (scale_max_rounds opts)) train rid label m_name
    {| crt_pm_params := params0; crt_fit := fit0; round := 1; log := log0 |}.


(** The state at the head of the loop when [rescale_reads] enters it. *)
Definition first_state (params0 : Params) (fit0 : Float) (log0 : Log)
  : Scaling_State :=
  {| crt_pm_params := params0; crt_fit := fit0; round := 1; log := log0 |}.

(** The state after a round that ends with [++round] and the state in
    which a regressing round leaves the loop. *)
Definition advanced (rid : string) (label : nat) (m_name : string)
  (s : Scaling_State) (new_pm_params : Params) (new_fit : Float)
  : Scaling_State :=
  {| crt_pm_params := new_pm_params;
     crt_fit := new_fit;
     round := S (round s);
     log := log s
            ++ [scaling_round rid label m_name (crt_pm_params s)
                  (Some (crt_fit s)) new_pm_params new_fit (round s)] |}.

Definition reverted (rid : string) (label : nat) (m_name : string)
  (s : Scaling_State) (new_pm_params : Params) (new_fit : Float)
  : Scaling_State :=
  {| crt_pm_params := crt_pm_params s;
     crt_fit := crt_fit s;
     round := round s;
     log := log s
            ++ [scaling_round rid label m_name (crt_pm_params s)
                  (Some (crt_fit s)) new_pm_params new_fit (round s)]
            ++ [scaling_regression rid label m_name (crt_pm_params s)
                  (crt_fit s) new_pm_params new_fit (round s)] |}.

(** The test under the comment "stop condition", made after [++round]. *)
Definition stop_condition (s : Scaling_State) (new_fit : Float) : bool :=
  (scale_max_rounds opts <=? S (round s))
  || ((1 <? S (round s))
      && float_lt E new_fit
           (float_add E (crt_fit s) (scale_min_fit_progress opts))).

(** [next_round train rid label m s s']: one pass through the loop body
    from the state [s] reaches the end of the body without a [break] and
    comes back to the head of the loop in the state [s']. *)
Definition next_round (train : Params -> Params * Float * bool)
  (rid : string) (label : nat) (m_name : string)
  (s s' : Scaling_State) : Prop :=
  exists new_pm_params new_fit,
    train (crt_pm_params s) = (new_pm_params, new_fit, false)
    /\ float_lt E new_fit (crt_fit s) = false
    /\ stop_condition s new_fit = false
    /\ s' = advanced rid label m_name s new_pm_params new_fit.

(** The states in which the loop stands at the head of some round. *)
Definition reaches (train : Params -> Params * Float * bool)
  (rid : string) (label : nat) (m_name : string)
  : Scaling_State -> Scaling_State -> Prop :=
  clos_refl_trans_1n Scaling_State (next_round train rid label m_name).

(** The calls of [train_one_round] that a log records: each call is
    followed by one "scaling_round" line. *)
Definition is_scaling_round (l : Log_Line T) : bool :=
  match l with scaling_round _ _ _ _ _ _ _ _ => true | _ => false end.

Definition rounds_trained (lg : Log) : nat :=
  List.length (filter is_scaling_round lg).

(** The same count for one strand label and one model name. *)
Definition is_round_of (label : nat) (m_name : string) (l : Log_Line T)
  : bool :=
  match l with
  | scaling_round _ label' m _ _ _ _ _ =>
      (label' =? label) && (m =? m_name)%string
  | _ => false
  end.

Definition rounds_of (label : nat) (m_name : string) (lg : Log) : nat :=
  List.length (filter (is_round_of label m_name) lg).

(** *** [rescale_reads], one strand at a time *)

(** "run fwbw for 1 round and update params", for one model of the list. *)
Definition first_round_single (models : Models)
  (transitions : State_Transitions_Type T)
  (seqs : list (Event_Sequence_Type T)) (st : nat)
  (acc : Summary * name_map Float * Log) (m_name : string)
  : result (Summary * name_map Float * Log) :=
  let '(rs, model_fit, lg) := acc in
  old_pm_params <- name_at m_name (get3 (params rs) st) ;;
  pm <- name_at m_name models ;;
  let '(new_pm_params, fit, _) :=
    train_one_round E seqs [pm] transitions old_pm_params in
  let model_fit := name_assign m_name fit model_fit in
  let lg :=
    lg ++ [scaling_round (read_id rs) st m_name old_pm_params None
             new_pm_params fit 0] in
  pst <- name_at_assign m_name new_pm_params (get3 (params rs) st) ;;
  Ok (with_params rs st pst, model_fit, lg).

(** [if (opts::scale_select_model_single_round) {...}] *)
Definition select_single (st : nat) (model_fit : name_map Float)
  (acc : Summary * list string * Log) : result (Summary * list string * Log) :=
  let '(rs, model_list_st, lg) := acc in
  if scale_select_model_single_round opts then
    match max_of model_fit with
    | None => Raise end_iterator_dereferenced
    | Some (m, _) =>
        Ok (with_preferred_model rs st m, [m],
            lg ++ [selected_model (read_id rs) st m])
    end
  else Ok acc.

(** "continue remaining training rounds", for one model of the list. *)
Definition more_rounds_single (models : Models)
  (transitions : State_Transitions_Type T)
  (seqs : list (Event_Sequence_Type T)) (st : nat)
  (model_fit : name_map Float)
  (acc : Summary * Log) (m_name : string) : result (Summary * Log) :=
  let '(rs, lg) := acc in
  params0 <- name_at m_name (get3 (params rs) st) ;;
  let fit0 := StdMap.subscript string_lt (float_zero E) m_name model_fit in
  pm <- name_at m_name models ;;
  s <- scaling_loop (train_one_round E seqs [pm] transitions)
         (read_id rs) st m_name params0 fit0 lg ;;
  let lg :=
    log s ++ [scaling_result (read_id rs) st m_name (crt_pm_params s)
                (crt_fit s) (round s)] in
  pst <- name_at_assign m_name (crt_pm_params s) (get3 (params rs) st) ;;
  Ok (with_params rs st pst, lg).

(** The body of [for (unsigned st = 0; st < 2; ++st)] in the branch
    "not opts::scale_strands_together". *)
Definition rescale_strand (models : Models)
  (transitions : State_Transitions_Type T)
  (model_list : array2 (list string))
  (train_seqs : array2 (list (Event_Sequence_Type T)))
  (acc : Summary * Log) (st : nat) : result (Summary * Log) :=
  let '(rs, lg) := acc in
  if too_short rs st then Ok acc
  else
    let seqs := get2 train_seqs st in
    '(rs, model_fit, lg) <-
      for_each (first_round_single models transitions seqs st)
        (get2 model_list st) (rs, [], lg) ;;
    '(rs, model_list_st, lg) <-
      select_single st model_fit (rs, get2 model_list st, lg) ;;
    for_each (more_rounds_single models transitions seqs st model_fit)
      model_list_st (rs, lg).

(** *** [rescale_reads], both strands together *)

Definition pair_fit_map : Type := StdMap.t (string * string) Float.

(** The Cartesian product that the two nested range-based [for]s visit. *)
Definition model_pairs (model_list : array2 (list string))
  : list (string * string) :=
  flat_map (fun m0 => map (fun m1 => (m0, m1)) (get2 model_list 1))
    (get2 model_list 0).

(** "prepare vector of model pointers" *)
Definition model_ptrs (models : Models)
  (train_seqs : array2 (list (Event_Sequence_Type T)))
  (m_name : string * string) : result (list (Pore_Model_Type T)) :=
  pm0 <- name_at (fst m_name) models ;;
  pm1 <- name_at (snd m_name) models ;;
  Ok (repeat pm0 (List.length (get2 train_seqs 0))
      ++ repeat pm1 (List.length (get2 train_seqs 1))).

(** What round 0 leaves alone in the read summary. *)
Definition same_frame (rs rs' : Summary) : Prop :=
  read_id rs' = read_id rs
  /\ events rs' = events rs
  /\ StdMap.keys (get3 (params rs') 2) = StdMap.keys (get3 (params rs) 2).

(** A pair of models that round 0 can train: both models are loaded and
    the read has parameters for the joint name. *)
Definition pair_ready (models : Models)
  (train_seqs : array2 (list (Event_Sequence_Type T)))
  (rs : Summary) (p : string * string) : Prop :=
  (exists ptrs, model_ptrs models train_seqs p = Ok ptrs)
  /\ StdMap.find string_lt (joint_name (fst p) (snd p)) (get3 (params rs) 2)
     <> None.

(** "run fwbw for 1 round, update params", for one pair of models. *)
Definition first_round_pair (models : Models)
  (transitions : State_Transitions_Type T)
  (train_seqs : array2 (list (Event_Sequence_Type T)))
  (acc : Summary * pair_fit_map * Log) (m_name : string * string)
  : result (Summary * pair_fit_map * Log) :=
  let '(rs, model_fit, lg) := acc in
  let m_name_str := joint_name (fst m_name) (snd m_name) in
  ptrs <- model_ptrs models train_seqs m_name ;;
  old_pm_params <- name_at m_name_str (get3 (params rs) 2) ;;
  let '(new_pm_params, fit, _) :=
    train_one_round E (get2 train_seqs 0 ++ get2 train_seqs 1) ptrs
      transitions old_pm_params in
  let model_fit := StdMap.subscript_assign pair_lt m_name fit model_fit in
  let lg :=
    lg ++ [scaling_round (read_id rs) 2 m_name_str old_pm_params None
             new_pm_params fit 0] in
  p2 <- name_at_assign m_name_str new_pm_params (get3 (params rs) 2) ;;
  Ok (with_params rs 2 p2, model_fit, lg).

(** [if (true or opts::scale_select_model_single_round) {...}]: the
    condition is the constant [true]. *)
Definition select_pair (model_fit : pair_fit_map)
  (acc : Summary * array2 (list string) * Log)
  : result (Summary * array2 (list string) * Log) :=
  let '(rs, model_list, lg) := acc in
  if true || scale_select_model_single_round opts then
    match max_of model_fit with
    | None => Raise end_iterator_dereferenced
    | Some (m, _) =>
        let rs := with_preferred_model rs 0 (fst m) in
        let rs := with_preferred_model rs 1 (snd m) in
        Ok (rs, ([fst m], [snd m]),
            lg ++ [selected_model (read_id rs) 2 (joint_name (fst m) (snd m))])
    end
  else Ok acc.

(** The rounds after round 0 and the three final assignments, for one
    pair of models. *)
Definition more_rounds_pair (models : Models)
  (transitions : State_Transitions_Type T)
  (train_seqs : array2 (list (Event_Sequence_Type T)))
  (model_fit : pair_fit_map)
  (acc : Summary * Log) (m_name : string * string) : result (Summary * Log) :=
  let '(rs, lg) := acc in
  let m_name_str := joint_name (fst m_name) (snd m_name) in
  ptrs <- model_ptrs models train_seqs m_name ;;
  params0 <- name_at m_name_str (get3 (params rs) 2) ;;
  let fit0 := StdMap.subscript pair_lt (float_zero E) m_name model_fit in
  s <- scaling_loop
         (train_one_round E (get2 train_seqs 0 ++ get2 train_seqs 1) ptrs
            transitions)
         (read_id rs) 2 m_name_str params0 fit0 lg ;;
  let lg :=
    log s ++ [scaling_result (read_id rs) 2 m_name_str (crt_pm_params s)
                (crt_fit s) (round s)] in
  p2 <- name_at_assign m_name_str (crt_pm_params s) (get3 (params rs) 2) ;;
  let rs := with_params rs 2 p2 in
  let rs :=
    with_params rs 0 (name_assign (fst m_name) (crt_pm_params s)
                        (get3 (params rs) 0)) in
  let rs :=
    with_params rs 1 (name_assign (snd m_name) (crt_pm_params s)
                        (get3 (params rs) 1)) in
  Ok (rs, lg).

(** The branch taken when [opts::scale_strands_together] and both strands
    have enough events. *)
Definition rescale_together (models : Models)
  (transitions : State_Transitions_Type T)
  (model_list : array2 (list string))
  (train_seqs : array2 (list (Event_Sequence_Type T)))
  (rs : Summary) : result (Summary * Log) :=
  '(rs, model_fit, lg) <-
    for_each (first_round_pair models transitions train_seqs)
      (model_pairs model_list) (rs, [], []) ;;
  '(rs, model_list, lg) <- select_pair model_fit (rs, model_list, lg) ;;
  for_each (more_rounds_pair models transitions train_seqs model_fit)
    (model_pairs model_list) (rs, lg).

(** *** [rescale_reads]: the item processor *)

Definition scales_together (rs : Summary) : bool :=
  scale_strands_together opts
  && (min_read_len opts <=? List.length (get2 (events rs) 0))
  && (min_read_len opts <=? List.length (get2 (events rs) 1)).

(** The statements between [load_events] and [drop_events]. *)
Definition rescale_loaded (models : Models)
  (transitions : State_Transitions_Type T) (rs : Summary)
  : result (Summary * Log) :=
  let model_list := rescale_model_list models rs in
  let train_seqs := train_event_seqs rs in
  if scales_together rs
  then rescale_together models transitions model_list train_seqs rs
  else
    for_each (rescale_strand models transitions model_list train_seqs)
      [0; 1] (rs, []).

Definition rescale_item (models : Models)
  (transitions : State_Transitions_Type T) (read_summary : Summary)
  : result (Summary * Log) :=
  let rs := load_events R (scale_strands_together opts) read_summary in
  '(rs, lg) <- rescale_loaded models transitions rs ;;
  Ok (drop_events R rs, lg).

(** *** [write_fasta] *)

(** [std::endl] *)
Definition endl : string := String "010"%char EmptyString.

(** Arithmetic of the [unsigned] column counter. *)
Definition wrap32 (n : N) : N := (n mod 2 ^ 32)%N.

(** A loop run for at most [p] iterations: [body] answers [inl] to go on
    and [inr] to leave.  The fuel is binary, so that [2^32] iterations can
    be granted; the cost is that of the iterations really made. *)
Fixpoint iterate {S A : Type} (p : positive) (body : S -> S + A) (s : S)
  : S + A :=
  match p with
  | xH => body s
  | xO p' =>
      match iterate p' body s with
      | inl s' => iterate p' body s'
      | inr a => inr a
      end
  | xI p' =>
      match body s with
      | inl s' =>
          match iterate p' body s' with
          | inl s'' => iterate p' body s''
          | inr a => inr a
          end
      | inr a => inr a
      end
  end.

(** The same loop with unary fuel. *)
Fixpoint iterate_nat {S A : Type} (n : nat) (body : S -> S + A) (s : S)
  : S + A :=
  match n with
  | 0 => inl s
  | Datatypes.S n' =>
      match body s with
      | inl s' => iterate_nat n' body s'
      | inr a => inr a
      end
  end.

(** One pass through
    [for (unsigned pos = 0; pos < seq.size(); pos += opts::fasta_line_width)];
    the state is the stream and [pos]. *)
Definition write_fasta_line (seq : string) (s : string * N)
  : string * N + string :=
  let '(os, pos) := s in
  if (pos <? N.of_nat (String.length seq))%N then
    inl ((os ++ substring (N.to_nat pos) (N.to_nat (fasta_line_width opts)) seq
             ++ endl)%string,
         wrap32 (pos + fasta_line_width opts))
  else inr os.

(** The state or the result of the loop of [write_fasta] with [o] put in
    front of the stream. *)
Definition with_prefix (o : string) (x : string * N + string)
  : string * N + string :=
  match x with
  | inl (os, pos) => inl ((o ++ os)%string, pos)
  | inr os => inr (o ++ os)%string
  end.

(** [write_fasta(os, name, seq)].  The loop has no state but the 32-bit
    [pos], so it either leaves within [2^32] passes or never does;
    [fuel_exhausted] stands for the latter. *)
Definition write_fasta (os : string) (name : string) (seq : string)
  : result string :=
  match iterate (2 ^ 32)%positive (write_fasta_line seq)
          ((os ++ ">" ++ name ++ endl)%string, 0%N) with
  | inr os' => Ok os'
  | inl _ => Raise fuel_exhausted
  end.

(** The text of a list of lines, each ended by [endl], and the lines put
    end to end. *)
Fixpoint lines_text (lines : list string) : string :=
  match lines with
  | [] => ""
  | l :: rest => (l ++ endl ++ lines_text rest)%string
  end.

Fixpoint glue (lines : list string) : string :=
  match lines with
  | [] => ""
  | l :: rest => (l ++ glue rest)%string
  end.

(** The part of a string from position [n] on. *)
Definition suffix (n : nat) (s : string) : string :=
  substring n (String.length s - n) s.

(** *** [basecall_reads]: the item processor *)

(** [tuple<float, string, string>] and its [operator<]. *)
Definition Result_Tuple : Type := (Float * string * string)%type.

Definition path_probability (r : Result_Tuple) : Float := fst (fst r).
Definition model_name (r : Result_Tuple) : string := snd (fst r).
Definition base_seq (r : Result_Tuple) : string := snd r.

Definition tuple_lt (a b : Result_Tuple) : bool :=
  float_lt E (path_probability a) (path_probability b)
  || (negb (float_lt E (path_probability b) (path_probability a))
      && (string_lt (model_name a) (model_name b)
          || (negb (string_lt (model_name b) (model_name a))
              && string_lt (base_seq a) (base_seq b)))).

(** [a] does not come after [b] in ascending order: [b < a] is false. *)
Definition not_after (a b : Result_Tuple) : Prop := tuple_lt b a = false.

(** [std::sort(results.begin(), results.end())]: the elements put in
    non-descending order of [operator<], here by insertion. *)
Fixpoint sort_insert (x : Result_Tuple) (l : list Result_Tuple)
  : list Result_Tuple :=
  match l with
  | [] => [x]
  | y :: l' => if tuple_lt x y then x :: y :: l' else y :: sort_insert x l'
  end.

Definition std_sort (l : list Result_Tuple) : list Result_Tuple :=
  fold_right sort_insert [] l.

(** [results.back()] *)
Definition back (results : list Result_Tuple) : result Result_Tuple :=
  match rev results with
  | [] => Raise back_of_empty_deque
  | r :: _ => Ok r
  end.

(** The body of [for (const auto& m_name : model_sublist)]: a copy of the
    model is scaled, a copy of the events is drift-corrected, Viterbi runs
    on the two copies. *)
Definition call_with_model (models : Models)
  (transitions : State_Transitions_Type T) (st : nat)
  (acc : Summary * list Result_Tuple) (m_name : string)
  : result (Summary * list Result_Tuple) :=
  let '(rs, results) := acc in
  pm0 <- name_at m_name models ;;
  pm_params <- name_at m_name (get3 (params rs) st) ;;
  let pm := scale E pm0 pm_params in
  let corrected_events :=
    apply_drift_correction E (get2 (events rs) st) (drift E pm_params) in
  let '(prob, seq) := viterbi E pm transitions corrected_events in
  Ok (rs, results ++ [(prob, m_name, seq)]).

(** What it is to evaluate the model [m_name] against the events and
    the parameters that the read summary [rs] holds for the strand [st]:
    the dictionary's model scaled by the stored parameters, the stored
    events corrected by the stored drift, and Viterbi on the two. *)
Definition evaluate_model (models : Models)
  (transitions : State_Transitions_Type T) (rs : Summary) (st : nat)
  (m_name : string) : result Result_Tuple :=
  pm0 <- name_at m_name models ;;
  pm_params <- name_at m_name (get3 (params rs) st) ;;
  let '(prob, seq) :=
    viterbi E (scale E pm0 pm_params) transitions
      (apply_drift_correction E (get2 (events rs) st) (drift E pm_params)) in
  Ok (prob, m_name, seq).

(** [basecall_reads]: the model list of a strand. *)
Definition model_sublist (models : Models) (rs : Summary) (st : nat)
  : list string :=
  model_shortlist models rs st.

(** [tmp << read_id << ":" << base_file_name << ":" << st] *)
Definition record_name (rs : Summary) (st : nat) : string :=
  (read_id rs ++ ":" ++ base_file_name rs ++ ":" ++ decimal st)%string.

(** The body of [for (unsigned st = 0; st < 2; ++st)]; [oss] is the output
    buffer of the worker. *)
Definition basecall_strand (models : Models)
  (transitions : State_Transitions_Type T)
  (acc : Summary * string) (st : nat) : result (Summary * string) :=
  let '(rs, oss) := acc in
  if too_short rs st then Ok acc
  else
    '(rs, results) <-
      for_each (call_with_model models transitions st)
        (model_sublist models rs st) (rs, []) ;;
    best <- back (std_sort results) ;;
    let rs := with_preferred_model rs st (model_name best) in
    oss <- write_fasta oss (record_name rs st) (base_seq best) ;;
    Ok (rs, oss).

(** The statements between [load_events] and [drop_events]. *)
Definition basecall_loaded (models : Models)
  (transitions : State_Transitions_Type T) (rs : Summary) (oss : string)
  : result (Summary * string) :=
  for_each (basecall_strand models transitions) [0; 1] (rs, oss).

Definition basecall_item (models : Models)
  (transitions : State_Transitions_Type T) (read_summary : Summary)
  (oss : string) : result (Summary * string) :=
  let rs := load_events R (scale_strands_together opts) read_summary in
  '(rs, oss) <- basecall_loaded models transitions rs oss ;;
  Ok (drop_events R rs, oss).

(** *** Initialisation *)

Definition dquote : string := String "034"%char EmptyString.

Definition is_empty {A : Type} (l : list A) : bool :=
  match l with [] => true | _ => false end.

(** The lambda [parse_model_name]. *)
Definition parse_model_name (s : string) : result (nat * string) :=
  let failure :=
    Raise (exit_called EXIT_FAILURE
             ("could not parse model name: " ++ dquote ++ s ++ dquote
              ++ "; format should be " ++ dquote ++ "[0|1|2]:<file>" ++ dquote)) in
  match s with
  | String c0 (String c1 (String c2 rest)) =>
      if negb ((c0 =? "0") || (c0 =? "1") || (c0 =? "2"))%char
         || negb (c1 =? ":")%char
      then failure
      else Ok (nat_of_ascii c0 - nat_of_ascii "0", String c2 rest)
  | _ => failure                                   (* s.size() < 3 *)
  end.

(** [map<unsigned, list<string>> model_list] *)
Definition Strand_Lists : Type := StdMap.t nat (list string).

Definition strand_list (model_list : Strand_Lists) (st : nat) : list string :=
  StdMap.subscript Nat.ltb [] st model_list.

(** [auto p = parse_model_name(s); model_list[p.first].push_back(p.second);] *)
Definition add_model_name (model_list : Strand_Lists) (s : string)
  : result Strand_Lists :=
  p <- parse_model_name s ;;
  Ok (StdMap.subscript_assign Nat.ltb (fst p)
        (strand_list model_list (fst p) ++ [snd p]) model_list).

Definition read_model_names : result Strand_Lists :=
  model_list <- for_each add_model_name (model_fn opts) [] ;;
  if (model_fofn opts =? "")%string then Ok model_list
  else for_each add_model_name (getlines R (model_fofn opts)) model_list.

Definition load_custom_models (model_list : Strand_Lists) : Models :=
  fold_left
    (fun models st =>
       fold_left
         (fun models e =>
            name_assign e {| table := read_pore_model R e; strand := st |}
              models)
         (strand_list model_list st) models)
    [0; 1; 2] [].

Definition load_builtin_models : Models :=
  fold_left
    (fun models b =>
       let '(name, init_list, st) := b in
       name_assign name {| table := init_list; strand := st |} models)
    (builtin_models R) [].

Definition init_models : result Models :=
  model_list <- read_model_names ;;
  let empty st := is_empty (strand_list model_list st) in
  if empty 2 && negb (Bool.eqb (empty 0) (empty 1)) then
    Raise (exit_called EXIT_FAILURE
             ("models were specified only for strand "
              ++ decimal (if empty 0 then 1 else 0)
              ++ "! give models for both strands, or for neither."))
  else if negb (empty 0 && empty 1 && empty 2) then
    Ok (load_custom_models model_list)
  else
    (* use built-in models *)
    Ok load_builtin_models.

Definition init_transitions : State_Transitions_Type T :=
  if (trans_fn opts =? "")%string
  then compute_transitions E (pr_skip opts) (pr_stay opts) (pr_cutoff opts)
  else read_transitions R (trans_fn opts).

(** [f[f.size() - 1] != '/'] *)
Fixpoint ends_with_slash (f : string) : bool :=
  match f with
  | EmptyString => false
  | String c EmptyString => (c =? "/")%char
  | String _ f' => ends_with_slash f'
  end.

Definition add_directory_entry (f : string) (files : list string) (g : string)
  : list string :=
  let f2 := (f ++ (if ends_with_slash f then "" else "/") ++ g)%string in
  if is_directory R f2 then files
  else if is_valid_file R f2 then files ++ [f2]
  else files.

Definition add_input (files : list string) (f : string) : list string :=
  if is_directory R f then
    fold_left (add_directory_entry f) (list_directory R f) files
  else if negb (f =? "-")%string && is_valid_file R f then files ++ [f]
  else
    (* not fast5, interpret as fofn *)
    fold_left (fun files g => if is_valid_file R g then files ++ [g] else files)
      (getlines R f) files.

Definition init_files : result (list string) :=
  let files := fold_left add_input (input_fn opts) [] in
  if is_empty files then
    Raise (exit_called EXIT_FAILURE "no fast5 files to process")
  else Ok files.

Definition init_reads (models : Models) (files : list string) : list Summary :=
  fold_left
    (fun reads f =>
       let s := summarize R f models (scale_strands_together opts) in
       let '(b0, b1, b2, b3) := strand_bounds s in
       if have_ed_events s
          && ((b0 + min_read_len opts <=? b1) || (b2 + min_read_len opts <=? b3))
       then reads ++ [s]
       else reads)
    files [].

(** *** The two passes over the reads *)

(** The [get_item] lambda of both passes; [crt_idx] is the captured
    counter, returned with the item. *)
Definition get_item (size : nat) (crt_idx : nat) : option (nat * nat) :=
  if size <=? crt_idx then None else Some (crt_idx, S crt_idx).

(** [reads[i]] and the write through that reference. *)
Definition deque_at {A : Type} (reads : list A) (i : nat) : result A :=
  match nth_error reads i with
  | Some r => Ok r
  | None => Raise index_past_the_end
  end.

Fixpoint deque_set {A : Type} (reads : list A) (i : nat) (x : A) : list A :=
  match reads, i with
  | [], _ => []
  | _ :: rest, 0 => x :: rest
  | r :: rest, S i' => r :: deque_set rest i' x
  end.

(** Modelled from the spec: a worker of [pfor::pfor] takes a batch of at
    most [chunk_size] items from the producer closure ([pfor.hpp] is not
    among the translated sources). *)
Fixpoint fetch_chunk (chunk_size size crt_idx : nat) : list nat * nat :=
  match chunk_size with
  | 0 => ([], crt_idx)
  | S n =>
      match get_item size crt_idx with
      | None => ([], crt_idx)
      | Some (i, crt_idx') =>
          let '(items, crt_idx'') := fetch_chunk n size crt_idx' in
          (i :: items, crt_idx'')
      end
  end.

(** Modelled from the spec: [pfor::pfor] run by one worker.  The worker
    takes a batch, processes its items in order into a fresh output buffer,
    hands the buffer to the output callback ([*os_p << oss.str()]) and
    starts over, until the producer has no item left. *)
Fixpoint pfor_serial {St : Type} (fuel chunk_size size : nat)
  (process_item : nat -> St * string -> result (St * string))
  (crt_idx : nat) (s : St) (os : string) : result (St * string) :=
  match fetch_chunk chunk_size size crt_idx with
  | ([], _) => Ok (s, os)
  | (items, crt_idx') =>
      match fuel with
      | 0 => Raise fuel_exhausted
      | S fuel' =>
          '(s', oss) <-
            for_each (fun acc i => process_item i acc) items (s, ""%string) ;;
          pfor_serial fuel' chunk_size size process_item crt_idx' s'
            (os ++ oss)%string
      end
  end.

Definition rescale_process_item (models : Models)
  (transitions : State_Transitions_Type T) (i : nat)
  (acc : list Summary * Log * string) : result (list Summary * Log * string) :=
  let '(reads, lg, oss) := acc in
  read_summary <- deque_at reads i ;;
  '(rs, lg') <- rescale_item models transitions read_summary ;;
  Ok (deque_set reads i rs, lg ++ lg', oss).

Definition rescale_reads (models : Models)
  (transitions : State_Transitions_Type T) (reads : list Summary)
  : result (list Summary * Log) :=
  '(s, _) <-
    pfor_serial (S (List.length reads)) 10 (List.length reads)
      (rescale_process_item models transitions) 0 (reads, []) ""%string ;;
  Ok s.

Definition basecall_process_item (models : Models)
  (transitions : State_Transitions_Type T) (i : nat)
  (acc : list Summary * string) : result (list Summary * string) :=
  let '(reads, oss) := acc in
  read_summary <- deque_at reads i ;;
  '(rs, oss) <- basecall_item models transitions read_summary oss ;;
  Ok (deque_set reads i rs, oss).

(** The result is the deque of reads and what was written to [*os_p]. *)
Definition basecall_reads (models : Models)
  (transitions : State_Transitions_Type T) (reads : list Summary)
  : result (list Summary * string) :=
  pfor_serial (S (List.length reads)) 10 (List.length reads)
    (basecall_process_item models transitions) 0 reads ""%string.

(** The text that processing the read of index [i] appends to a buffer:
    what [basecall_item] writes for it into an empty buffer. *)
Definition record_text (models : Models)
  (transitions : State_Transitions_Type T) (reads : list Summary) (i : nat)
  : string :=
  match nth_error reads i with
  | Some read_summary =>
      match basecall_item models transitions read_summary "" with
      | Ok (_, text) => text
      | Raise _ => ""
      end
  | None => ""
  end.

(** *** [real_main] *)

Record Program_Output : Type := {
  scaling_log : Log;
  sequence_output : option string;   (* [None]: the sink was never opened *)
  stats_output : option string       (* [None]: no stats file *)
}.

Definition real_main : result (nat * Program_Output) :=
  models <- init_models ;;
  let transitions := init_transitions in
  files <- init_files ;;
  let reads := init_reads models files in
  '(reads, lg) <-
    (if accurate_scaling opts || scale_strands_together opts
        || scale_select_model_single_round opts
     then rescale_reads models transitions reads
     else Ok (reads, [])) ;;
  '(reads, out) <-
    (if negb (scale_only opts)
     then '(reads, os) <- basecall_reads models transitions reads ;;
          Ok (reads, Some os)
     else Ok (reads, None)) ;;
  let stats :=
    if negb (stats_fn opts =? "")%string
    then Some (String.concat ""
                 (map (fun s => (write_tsv R s ++ endl)%string) reads))
    else None in
  Ok (EXIT_SUCCESS,
      {| scaling_log := lg; sequence_output := out; stats_output := stats |}).

(** The exit code of the process and the diagnostic that accompanies a
    call of [exit]; [None] when the run ends in an exception or in
    undefined behaviour. *)
Definition exit_code (r : result (nat * Program_Output)) : option nat :=
  match r with
  | Ok (code, _) => Some code
  | Raise (exit_called code _) => Some code
  | Raise _ => None
  end.

Definition diagnostic (r : result (nat * Program_Output)) : option string :=
  match r with
  | Raise (exit_called _ d) => Some d
  | _ => None
  end.

End Pipeline.

(** ** The parallel-for harness with several workers *)

(** Modelled from the spec: [pfor::pfor] with any number of workers
    ([pfor.hpp] is not among the translated sources).  "A bounded pool of N
    workers consuming items produced by a single-threaded producer closure.
    Each worker owns a per-thread output accumulator; on completion of a
    batch of chunk_size items, its buffer is handed to a single-threaded
    output-writer callback in the order the items were requested."  "Worker
    threads block only on the producer-dispensed work item queue and the
    output ordering barrier when their chunk is ready but an earlier chunk
    has not yet drained."

    A worker is idle, or holds the batch numbered [chunk] with the items
    [todo] still to process and the buffer [oss], or has left because the
    producer had nothing more. *)
Inductive Worker : Type :=
| Idle
| Working (chunk : nat) (todo : list nat) (oss : string)
| Finished.

Record Harness (St : Type) : Type := {
  h_crt_idx : nat;          (* the counter captured by [get_item] *)
  h_next_chunk : nat;       (* batches requested so far *)
  h_written : nat;          (* batches handed to the output callback *)
  h_state : St;             (* what [process_item] works on *)
  h_os : string;            (* the output stream *)
  h_workers : list Worker
}.

Section ParallelFor.
Variable St : Type.
Variable chunk_size : nat.
Variable size : nat.
Variable process_item : nat -> St * string -> result (St * string).

(** The steps of the harness; any worker may take the next step that is
    open to it, in any order.
    - [step_take]: an idle worker asks the producer for a batch and gets
      items.
    - [step_retire]: an idle worker asks and gets none.
    - [step_work]: a worker processes the next item of its batch into its
      buffer.
    - [step_drain]: a worker whose batch is complete, and whose batch is
      the next to be written, hands its buffer to the output callback. *)
Inductive pfor_step : Harness St -> Harness St -> Prop :=
| step_take (h : Harness St) (w : nat) (items : list nat) (crt_idx' : nat) :
    nth_error (h_workers h) w = Some Idle ->
    fetch_chunk chunk_size size (h_crt_idx h) = (items, crt_idx') ->
    items <> [] ->
    pfor_step h
      {| h_crt_idx := crt_idx';
         h_next_chunk := S (h_next_chunk h);
         h_written := h_written h;
         h_state := h_state h;
         h_os := h_os h;
         h_workers :=
           deque_set (h_workers h) w (Working (h_next_chunk h) items "") |}
| step_retire (h : Harness St) (w : nat) (crt_idx' : nat) :
    nth_error (h_workers h) w = Some Idle ->
    fetch_chunk chunk_size size (h_crt_idx h) = ([], crt_idx') ->
    pfor_step h
      {| h_crt_idx := h_crt_idx h;
         h_next_chunk := h_next_chunk h;
         h_written := h_written h;
         h_state := h_state h;
         h_os := h_os h;
         h_workers := deque_set (h_workers h) w Finished |}
| step_work (h : Harness St) (w : nat) (c i : nat) (todo : list nat)
    (oss oss' : string) (s' : St) :
    nth_error (h_workers h) w = Some (Working c (i :: todo) oss) ->
    process_item i (h_state h, oss) = Ok (s', oss') ->
    pfor_step h
      {| h_crt_idx := h_crt_idx h;
         h_next_chunk := h_next_chunk h;
         h_written := h_written h;
         h_state := s';
         h_os := h_os h;
         h_workers := deque_set (h_workers h) w (Working c todo oss') |}
| step_drain (h : Harness St) (w : nat) (oss : string) :
    nth_error (h_workers h) w = Some (Working (h_written h) [] oss) ->
    pfor_step h
      {| h_crt_idx := h_crt_idx h;
         h_next_chunk := h_next_chunk h;
         h_written := S (h_written h);
         h_state := h_state h;
         h_os := (h_os h ++ oss)%string;
         h_workers := deque_set (h_workers h) w Idle |}.

(** The harness at the call of [pfor] with [num_threads] workers. *)
Definition pfor_start (num_threads : nat) (s : St) (os : string)
  : Harness St :=
  {| h_crt_idx := 0;
     h_next_chunk := 0;
     h_written := 0;
     h_state := s;
     h_os := os;
     h_workers := repeat Idle num_threads |}.

(** The states that some schedule of the workers leads to. *)
Definition pfor_reaches : Harness St -> Harness St -> Prop :=
  clos_refl_trans_n1 (Harness St) pfor_step.

(** All workers have left. *)
Definition pfor_done (h : Harness St) : Prop :=
  Forall (fun w => w = Finished) (h_workers h).

End ParallelFor.

(** What holds of the harness in every state that it reaches, in terms
    of [fresh s i] (in the state [s], item [i] is as it was at the start)
    and of [text i] (what processing item [i] appends to a buffer); [os0]
    is the output stream at the start. *)
Section HarnessInvariant.
Variable St : Type.
Variable chunk_size : nat.
Variable size : nat.
Variable os0 : string.
Variable fresh : St -> nat -> Prop.
Variable text : nat -> string.

(** The items of the batch numbered [c] and the text of a list of items. *)
Definition chunk_items (c : nat) : list nat :=
  seq (c * chunk_size) (Nat.min chunk_size (size - c * chunk_size)).

Definition texts (items : list nat) : string := glue (map text items).

Record Inv (h : Harness St) : Prop := {
  inv_crt : h_crt_idx h = Nat.min (h_next_chunk h * chunk_size) size;
  inv_nonempty :
    forall c, c < h_next_chunk h -> 0 < chunk_size /\ c * chunk_size < size;
  inv_written : h_written h <= h_next_chunk h;
  inv_os :
    h_os h
    = (os0 ++ texts (seq 0 (Nat.min (h_written h * chunk_size) size)))%string;
  inv_worker :
    forall w c todo oss,
      nth_error (h_workers h) w = Some (Working c todo oss) ->
      h_written h <= c < h_next_chunk h
      /\ exists done,
          chunk_items c = done ++ todo
          /\ oss = texts done
          /\ forall i, In i todo -> fresh (h_state h) i;
  inv_unique :
    forall w w' c todo oss todo' oss',
      nth_error (h_workers h) w = Some (Working c todo oss) ->
      nth_error (h_workers h) w' = Some (Working c todo' oss') ->
      w = w';
  inv_held :
    forall c, h_written h <= c < h_next_chunk h ->
      exists w todo oss,
        nth_error (h_workers h) w = Some (Working c todo oss);
  inv_fresh : forall i, h_crt_idx h <= i -> fresh (h_state h) i;
  inv_finished :
    0 < chunk_size -> In Finished (h_workers h) -> h_crt_idx h = size
}.

End HarnessInvariant.

(** ** Names used by the further properties *)

(** The failure in which the lambda [parse_model_name] ends on [s]. *)
Definition could_not_parse (s : string) : Failure :=
  exit_called EXIT_FAILURE
    ("could not parse model name: " ++ dquote ++ s ++ dquote
     ++ "; format should be " ++ dquote ++ "[0|1|2]:<file>" ++ dquote).

(** The model names that [init_models] parses, in the order it parses
    them: the [--model] arguments, then the lines of the [--model-fofn]
    file. *)
Definition model_args {T : Types} (R : Reader T) (opts : Options T)
  : list string :=
  model_fn opts
  ++ (if (model_fofn opts =? "")%string then []
      else getlines R (model_fofn opts)).

(** What the scaling of the strand [st] leaves alone in a read summary:
    all but the preferred models and the values stored in [params[st]],
    whose keys stay as they are. *)
Definition scaled_in {T : Types} (st : nat) (rs rs' : Fast5_Summary_Type T)
  : Prop :=
  read_id rs' = read_id rs
  /\ base_file_name rs' = base_file_name rs
  /\ events rs' = events rs
  /\ StdMap.keys (get3 (params rs') st) = StdMap.keys (get3 (params rs) st)
  /\ forall j, j <= 2 -> j <> st -> get3 (params rs') j = get3 (params rs) j.

(** A result that is not a call of [exit]: a value, an exception or
    undefined behaviour. *)
Definition no_exit {A : Type} (r : result A) : Prop :=
  match r with
  | Raise (exit_called _ _) => False
  | _ => True
  end.

(** ** The first revision of the program

    [nanocall.cpp] as it was before the scaling pass: how it collects the
    input files and the reads, and how it basecalls a strand.  It has the
    same [init_models], model lists and sort; what differs is translated
    here, under the names of the source. *)

Module Legacy.
Section Pipeline.
Context {T : Types}.
Variable E : Kernel T.
Variable R : Reader T.
Variable opts : Options T.
(* Fast5_Summary_Type(f, models) *)
Variable summarize_file :
  string -> Pore_Model_Dict_Type T -> Fast5_Summary_Type T.
(* Pore_Model_Parameters_Type() *)
Variable default_params : Pore_Model_Parameters_Type T.

Local Abbreviation Summary := (Fast5_Summary_Type T).
Local Abbreviation Models := (Pore_Model_Dict_Type T).

(** The body of the loop over a directory: no test for subdirectories. *)
Definition add_directory_entry (f : string) (files : list string) (g : string)
  : list string :=
  let f2 := (f ++ (if ends_with_slash f then "" else "/") ++ g)%string in
  if is_valid_file R f2 then files ++ [f2] else files.

(** The body of the loop over [opts::input_fn]: an input that is neither a
    directory nor a valid file ends the process. *)
Definition add_input (files : list string) (f : string)
  : result (list string) :=
  if is_directory R f then
    Ok (fold_left (add_directory_entry f) (list_directory R f) files)
  else if is_valid_file R f then Ok (files ++ [f])
  else
    Raise (exit_called EXIT_FAILURE
             ("error opening fast5 file [" ++ f ++ "]")).

Definition init_files : result (list string) :=
  for_each add_input (input_fn opts) [].

Definition init_reads (models : Models) (files : list string) : list Summary :=
  fold_left
    (fun reads f =>
       let s := summarize_file f models in
       if have_ed_events s then reads ++ [s] else reads)
    files [].

(** [read_summary.events[st].size() < 100] *)
Definition too_short (rs : Summary) (st : nat) : bool :=
  List.length (get2 (events rs) st) <? 100.

(** "initialize parameters if not existing", for one model of the list. *)
Definition init_params (st : nat) (rs : Summary) (m_name : string) : Summary :=
  if 0 <? name_count m_name (get3 (params rs) st) then rs
  else
    with_params rs st
      (name_assign m_name default_params (get3 (params rs) st)).

(** The body of the loop that fills [results]: the model is a scaled
    copy, the events are those of the read. *)
Definition call_with_model (models : Models)
  (transitions : State_Transitions_Type T) (st : nat)
  (acc : Summary * list (@Result_Tuple T)) (m_name : string)
  : result (Summary * list (@Result_Tuple T)) :=
  let '(rs, results) := acc in
  pm0 <- name_at m_name models ;;
  pm_params <- name_at m_name (get3 (params rs) st) ;;
  let pm := scale E pm0 pm_params in
  let '(prob, seq) := viterbi E pm transitions (get2 (events rs) st) in
  Ok (rs, results ++ [(prob, m_name, seq)]).

(** The body of [for (unsigned st = 0; st < 2; ++st)].  [None] is the
    process aborted by [assert(not model_sublist.empty())]. *)
Definition basecall_strand (models : Models)
  (transitions : State_Transitions_Type T)
  (acc : Summary * string) (st : nat) : option (result (Summary * string)) :=
  let '(rs, oss) := acc in
  if too_short rs st then Some (Ok acc)
  else
    let model_sublist := model_shortlist models rs st in
    if is_empty model_sublist then None
    else
      Some
        (let rs := fold_left (init_params st) model_sublist rs in
         '(rs, results) <-
           for_each (call_with_model models transitions st) model_sublist
             (rs, []) ;;
         best <- back (std_sort E results) ;;
         (* the log line reads [params[st].at(best_m_name)] *)
         _ <- name_at (model_name best) (get3 (params rs) st) ;;
         Ok (rs,
             (oss ++ ">" ++ read_id rs ++ ":" ++ decimal st ++ endl
                  ++ base_seq best ++ endl)%string)).

End Pipeline.
End Legacy.

(** ** Sample inputs

    Concrete instances of the abstract parts, on which the theorems below
    are exercised: fits and parameters are integers, a pore model has no
    table, an event is a number. *)

Module Sample.
Local Open Scope string_scope.

Definition types : Types :=
  {| Float_Type := Z;
     Kmer_Table := unit;
     Pore_Model_Parameters_Type := Z;
     Event_Type := nat;
     State_Transitions_Type := unit |}.

Definition model (st : nat) : Pore_Model_Type types :=
  @Build_Pore_Model_Type types tt st.

(** A kernel around a given trainer and a given decoder. *)
Definition kernel
  (train : list (Pore_Model_Type types) -> Z -> Z * Z * bool)
  (decode : Pore_Model_Type types -> Z * string) : Kernel types :=
  @Build_Kernel types
    Z.ltb                                     (* float_lt *)
    Z.add                                     (* float_add *)
    0%Z                                       (* float_zero *)
    (fun p => p)                              (* drift *)
    (fun _ models _ old => train models old)  (* train_one_round *)
    (fun pm _ => pm)                          (* scale *)
    (fun ev _ => ev)                          (* apply_drift_correction *)
    (fun pm _ _ => decode pm)                 (* viterbi *)
    (fun _ _ _ => tt)                         (* compute_transitions *).

Definition options (together select : bool) (max_rounds : nat) (width : N)
  : Options types :=
  @Build_Options types
    ""            (* stats_fn *)
    2             (* min_read_len *)
    width         (* fasta_line_width *)
    select        (* scale_select_model_single_round *)
    together      (* scale_strands_together *)
    1%Z           (* scale_min_fit_progress *)
    max_rounds    (* scale_max_rounds *)
    200           (* scale_num_events *)
    false         (* scale_only *)
    true          (* accurate_scaling *)
    0%Z 0%Z 0%Z   (* pr_cutoff, pr_skip, pr_stay *)
    ""            (* trans_fn *)
    ""            (* model_fofn *)
    []            (* model_fn *)
    ""            (* output_fn *)
    1             (* num_threads *)
    ["reads"]     (* input_fn *).

(** Trainers.  [train_rising] improves the fit by 10 in every round;
    [train_flat] never changes it; [train_regressing] improves once and then
    regresses; [train_singular] signals a singularity the way the
    specification describes it ([done], the old parameters returned) with
    a fit of -5. *)
Definition train_rising (_ : list (Pore_Model_Type types)) (old : Z)
  : Z * Z * bool :=
  ((old + 1)%Z, (10 * (old + 1))%Z, false).

Definition train_flat (_ : list (Pore_Model_Type types)) (old : Z)
  : Z * Z * bool :=
  ((old + 1)%Z, 0%Z, false).

Definition train_regressing (_ : list (Pore_Model_Type types)) (old : Z)
  : Z * Z * bool :=
  ((old + 1)%Z, if (old =? 0)%Z then 20%Z else 5%Z, false).

Definition train_singular (_ : list (Pore_Model_Type types)) (old : Z)
  : Z * Z * bool :=
  (old, (-5)%Z, true).

(** A trainer whose fit is the sum of the strand tags of the models it
    is given, so that different models fit differently. *)
Definition train_by_strand (ms : list (Pore_Model_Type types)) (old : Z)
  : Z * Z * bool :=
  ((old + 1)%Z, Z.of_nat (list_sum (map (fun pm => strand pm) ms)), false).

(** A decoder whose path probability is the strand tag of the model. *)
Definition decode (pm : Pore_Model_Type types) : Z * string :=
  (Z.of_nat (strand pm), "ACGTACGTAC").

(** Three models: one per strand and one for either. *)
Definition models : Pore_Model_Dict_Type types :=
  [("a", model 0); ("b", model 1); ("c", model 2)].

(** A read with three events on each strand, no preferred model and
    identity-like parameters (0) for every model and pair of models. *)
Definition read : Fast5_Summary_Type types :=
  @Build_Fast5_Summary_Type types
    "r1"                                   (* read_id *)
    "f1.fast5"                             (* base_file_name *)
    true                                   (* have_ed_events *)
    (0, 3, 3, 6)                           (* strand_bounds *)
    ([1; 2; 3], [4; 5; 6])                 (* events *)
    (""%string, ""%string)                 (* preferred_model *)
    ([("a", 0%Z); ("c", 0%Z)],
     [("b", 0%Z); ("c", 0%Z)],
     [("a+b", 0%Z); ("a+c", 0%Z); ("c+b", 0%Z); ("c+c", 0%Z)])
                                           (* params *).

(** The same read as the container builds it when the dictionary holds
    the single model "foo.model". *)
Definition read_foo : Fast5_Summary_Type types :=
  @Build_Fast5_Summary_Type types
    "r1" "f1.fast5" true (0, 3, 3, 6)
    ([1; 2; 3], [4; 5; 6])
    (""%string, ""%string)
    ([("foo.model", 0%Z)],
     [("foo.model", 0%Z)],
     [("foo.model+foo.model", 0%Z)]).

(** The same read as the container reports it when event detection found
    nothing. *)
Definition read_without_events : Fast5_Summary_Type types :=
  @Build_Fast5_Summary_Type types
    "r1" "f1.fast5"
    false                                  (* have_ed_events *)
    (0, 0, 0, 0)
    ([], [])
    (""%string, ""%string)
    ([], [], []).

(** A reader for which "reads" is the one valid fast5 file, nothing is a
    directory, every model file parses, and every file holds the read
    [summary]. *)
Definition reader (summary : Fast5_Summary_Type types) : Reader types :=
  @Build_Reader types
    (fun _ => false)                       (* is_directory *)
    (fun _ => [])                          (* list_directory *)
    (fun f => (f =? "reads")%string)       (* is_valid_file *)
    (fun _ => [])                          (* getlines *)
    (fun _ => tt)                          (* read_pore_model *)
    (fun _ => tt)                          (* read_transitions *)
    [("t", tt, 0); ("c", tt, 1)]           (* builtin_models *)
    (fun _ _ _ => summary)                 (* summarize *)
    (fun _ rs => rs)                       (* load_events *)
    (fun rs => rs)                         (* drop_events *)
    (fun rs => read_id rs)                 (* write_tsv *).

(** Options with [--model] arguments and the given inputs. *)
Definition options_with (model_fns inputs : list string) : Options types :=
  @Build_Options types
    ""            (* stats_fn *)
    2             (* min_read_len *)
    80%N          (* fasta_line_width *)
    false         (* scale_select_model_single_round *)
    false         (* scale_strands_together *)
    1%Z           (* scale_min_fit_progress *)
    10            (* scale_max_rounds *)
    200           (* scale_num_events *)
    false         (* scale_only *)
    true          (* accurate_scaling *)
    0%Z 0%Z 0%Z   (* pr_cutoff, pr_skip, pr_stay *)
    ""            (* trans_fn *)
    ""            (* model_fofn *)
    model_fns     (* model_fn *)
    ""            (* output_fn *)
    1             (* num_threads *)
    inputs        (* input_fn *).

End Sample.

(** * Lemmas and theorems *)

(** ** The order of strings *)

Lemma string_lt_iff (a b : string) :
  string_lt a b = true <-> String_as_OT.lt a b.
Proof.
  unfold string_lt, String.ltb. rewrite <- String_as_OT.cmp_lt.
  unfold String_as_OT.cmp. destruct (String.compare a b); intuition congruence.
Qed.

Lemma string_lt_irrefl (a : string) : string_lt a a = false.
Proof.
  unfold string_lt, String.ltb.
  assert (H : String.compare a a = Eq) by now apply String_as_OT.cmp_eq.
  now rewrite H.
Qed.

Lemma string_lt_trans (a b c : string) :
  string_lt a b = true -> string_lt b c = true -> string_lt a c = true.
Proof.
  rewrite !string_lt_iff. apply String_as_OT.lt_trans.
Qed.

Lemma string_lt_total (a b : string) :
  string_lt a b = false -> string_lt b a = false -> a = b.
Proof.
  unfold string_lt, String.ltb. intros H1 H2.
  apply String_as_OT.cmp_eq. unfold String_as_OT.cmp.
  pose proof (String.compare_antisym a b) as A.
  destruct (String.compare a b), (String.compare b a); simpl in *;
    congruence.
Qed.

(** ** Facts about [StdMap] *)

Module StdMapFacts.
Section Ordered.
Variables K V : Type.
Variable lt : K -> K -> bool.

Lemma find_keys (k : K) (m m' : StdMap.t K V) :
  StdMap.keys m = StdMap.keys m' ->
  StdMap.find lt k m = None -> StdMap.find lt k m' = None.
Proof.
  revert m'; induction m as [|[k1 v1] m IH]; intros [|[k2 v2] m'];
    simpl; try discriminate; auto.
  intros E0; injection E0 as -> E0.
  destruct (lt k2 k); [now apply IH|].
  destruct (lt k k2); [auto|discriminate].
Qed.

Lemma keys_subscript_assign (k : K) (v : V) (m : StdMap.t K V) :
  StdMap.find lt k m <> None ->
  StdMap.keys (StdMap.subscript_assign lt k v m) = StdMap.keys m.
Proof.
  induction m as [|[k1 v1] m IH]; simpl; [congruence|].
  destruct (lt k1 k).
  - intros H. unfold StdMap.keys in *. simpl. now rewrite IH.
  - destruct (lt k k1); [congruence|reflexivity].
Qed.

Hypothesis lt_irrefl : forall k, lt k k = false.

Lemma find_subscript_assign (k : K) (v : V) (m : StdMap.t K V) :
  StdMap.find lt k (StdMap.subscript_assign lt k v m) = Some v.
Proof.
  induction m as [|[k1 v1] m IH]; simpl.
  - now rewrite lt_irrefl.
  - destruct (lt k1 k) eqn:E1; simpl.
    + now rewrite E1.
    + destruct (lt k k1) eqn:E2; simpl.
      * now rewrite lt_irrefl.
      * now rewrite E1, E2.
Qed.

Hypothesis lt_total : forall a b, lt a b = false -> lt b a = false -> a = b.

Lemma find_some_in (k : K) (v : V) (m : StdMap.t K V) :
  StdMap.find lt k m = Some v -> In (k, v) m.
Proof.
  induction m as [|[k1 v1] m IH]; simpl; [discriminate|].
  destruct (lt k1 k) eqn:E1; [auto|].
  destruct (lt k k1) eqn:E2; [discriminate|].
  intros [= <-]. left. f_equal. now apply lt_total.
Qed.

Lemma in_keys_find (k : K) (m : StdMap.t K V) :
  StdMap.well_formed lt m -> In k (StdMap.keys m) ->
  StdMap.find lt k m <> None.
Proof.
  unfold StdMap.well_formed.
  induction m as [|[k1 v1] m IH]; simpl; [tauto|].
  intros S [<-|H].
  - now rewrite lt_irrefl.
  - inversion S as [|? ? S' F]; subst.
    rewrite Forall_forall in F. rewrite (F _ H). now apply IH.
Qed.

Lemma find_iff_key (k : K) (m : StdMap.t K V) :
  StdMap.well_formed lt m ->
  (StdMap.find lt k m <> None <-> In k (StdMap.keys m)).
Proof.
  intros W; split; [|now apply in_keys_find].
  destruct (StdMap.find lt k m) as [v|] eqn:F; [|congruence].
  intros _. apply find_some_in in F.
  unfold StdMap.keys. change k with (fst (k, v)). now apply in_map.
Qed.

End Ordered.
End StdMapFacts.

(** ** The candidate models of a strand *)

Section Shortlist.
Context {T : Types}.
Variable opts : Options T.

Lemma models_for_strand_spec (st : nat) (models : Pore_Model_Dict_Type T)
  (m : string) :
  In m (models_for_strand st models) <->
  exists pm, In (m, pm) models /\ (strand pm = st \/ strand pm = 2).
Proof.
  induction models as [|[name pm] rest IH]; simpl.
  - split; [tauto|]. intros (pm & [] & _).
  - destruct ((strand pm =? st) || (strand pm =? 2)) eqn:C.
    + simpl. rewrite IH. split.
      * intros [<-|(pm' & H & S)].
        -- exists pm. split; [now left|].
           apply orb_true_iff in C. rewrite !Nat.eqb_eq in C. exact C.
        -- exists pm'. auto.
      * intros (pm' & [[= -> ->]|H] & S); [now left|].
        right. now exists pm'.
    + rewrite IH. split.
      * intros (pm' & H & S). exists pm'. auto.
      * intros (pm' & [[= -> ->]|H] & S); [|now exists pm'].
        apply orb_false_iff in C. rewrite !Nat.eqb_neq in C. tauto.
Qed.

Lemma models_for_strand_keys (st : nat) (models : Pore_Model_Dict_Type T)
  (m : string) :
  In m (models_for_strand st models) -> In m (StdMap.keys models).
Proof.
  rewrite models_for_strand_spec. intros (pm & H & _).
  unfold StdMap.keys. change m with (fst (m, pm)). now apply in_map.
Qed.

Lemma models_for_strand_NoDup (st : nat) (models : Pore_Model_Dict_Type T) :
  StdMap.well_formed string_lt models -> NoDup (models_for_strand st models).
Proof.
  unfold StdMap.well_formed.
  induction models as [|[name pm] rest IH]; simpl; intros S.
  - constructor.
  - inversion S as [|? ? S' F]; subst.
    destruct ((strand pm =? st) || (strand pm =? 2)); [|now apply IH].
    constructor; [|now apply IH].
    intros H. apply models_for_strand_keys in H.
    rewrite Forall_forall in F. specialize (F _ H).
    now rewrite string_lt_irrefl in F.
Qed.

Lemma rescale_model_list_get (models : Pore_Model_Dict_Type T)
  (rs : Fast5_Summary_Type T) (st : nat) :
  st < 2 -> too_short opts rs st = false ->
  get2 (rescale_model_list opts models rs) st = model_shortlist models rs st.
Proof.
  intros L H. unfold rescale_model_list. simpl.
  assert (C : st = 0 \/ st = 1) by lia.
  destruct C as [-> | ->]; rewrite H.
  - now destruct (too_short opts rs 1).
  - now destruct (too_short opts rs 0).
Qed.

(** C4.  For a strand [st] of a read with at least [min_read_len] events,
    the model list that [rescale_reads] builds for the strand and the one
    that [basecall_reads] builds are the same list; it is the one-element
    list of [preferred_model[st]] when that name is a key of the model
    dictionary, and otherwise it lists, without repetition, exactly the
    models of the dictionary whose strand tag is [st] or 2. *)
Theorem shortlist_in_both_passes (models : Pore_Model_Dict_Type T)
  (rs : Fast5_Summary_Type T) (st : nat) :
  StdMap.well_formed string_lt models ->
  st < 2 ->
  too_short opts rs st = false ->
  let preferred := get2 (preferred_model rs) st in
  get2 (rescale_model_list opts models rs) st = model_sublist models rs st
  /\ (In preferred (StdMap.keys models) ->
      model_sublist models rs st = [preferred])
  /\ (~ In preferred (StdMap.keys models) ->
      NoDup (model_sublist models rs st)
      /\ forall m,
          In m (model_sublist models rs st) <->
          exists pm, In (m, pm) models /\ (strand pm = st \/ strand pm = 2)).
Proof.
  intros W L H preferred.
  split; [now apply rescale_model_list_get|].
  unfold model_sublist, model_shortlist, name_count, StdMap.count.
  fold preferred.
  pose proof (StdMapFacts.find_iff_key string_lt_irrefl string_lt_total
                preferred W) as K.
  destruct (StdMap.find string_lt preferred models) as [pm|]; simpl.
  - split; [reflexivity|].
    intros N. exfalso. apply N, K. discriminate.
  - split.
    + intros I. apply K in I. congruence.
    + intros _. split.
      * now apply models_for_strand_NoDup.
      * intros m. apply models_for_strand_spec.
Qed.

End Shortlist.

Lemma sample_models_well_formed :
  StdMap.well_formed string_lt Sample.models.
Proof.
  unfold StdMap.well_formed. simpl.
  repeat (constructor; try reflexivity).
Qed.

Lemma shortlist_in_both_passes_witness :
  get2 (rescale_model_list (Sample.options false false 10 80) Sample.models
          Sample.read) 0
  = model_sublist Sample.models Sample.read 0
  /\ (In ""%string (StdMap.keys Sample.models) ->
      model_sublist Sample.models Sample.read 0 = [""%string])
  /\ (~ In ""%string (StdMap.keys Sample.models) ->
      NoDup (model_sublist Sample.models Sample.read 0)
      /\ forall m,
          In m (model_sublist Sample.models Sample.read 0) <->
          exists pm,
            In (m, pm) Sample.models /\ (strand pm = 0 \/ strand pm = 2)).
Proof.
  apply (@shortlist_in_both_passes Sample.types
           (Sample.options false false 10 80) Sample.models Sample.read 0).
  - exact sample_models_well_formed.
  - lia.
  - reflexivity.
Defined.

(** ** The rounds after round 0 *)

Section ScalingLoop.
Context {T : Types}.
Variable E : Kernel T.
Variable opts : Options T.
Variable train :
  Pore_Model_Parameters_Type T ->
  Pore_Model_Parameters_Type T * Float_Type T * bool.
Variable rid : string.
Variable label : nat.
Variable m_name : string.

Local Abbreviation rounds := (scaling_rounds E opts).
Local Abbreviation State := (@Scaling_State T).

Lemma rounds_done (fuel : nat) (s : State) new_pm_params new_fit :
  train (crt_pm_params s) = (new_pm_params, new_fit, true) ->
  rounds (S fuel) train rid label m_name s
  = Ok {| crt_pm_params := new_pm_params; crt_fit := new_fit;
          round := round s;
          log := log s
                 ++ [scaling_round rid label m_name (crt_pm_params s)
                       (Some (crt_fit s)) new_pm_params new_fit (round s)] |}.
Proof.
  intros Ht. simpl. now rewrite Ht.
Qed.

Lemma rounds_regress (fuel : nat) (s : State) new_pm_params new_fit :
  train (crt_pm_params s) = (new_pm_params, new_fit, false) ->
  float_lt E new_fit (crt_fit s) = true ->
  rounds (S fuel) train rid label m_name s
  = Ok (reverted rid label m_name s new_pm_params new_fit).
Proof.
  intros Ht Hr. simpl. rewrite Ht, Hr. unfold reverted.
  now rewrite <- app_assoc.
Qed.

Lemma rounds_stop (fuel : nat) (s : State) new_pm_params new_fit :
  train (crt_pm_params s) = (new_pm_params, new_fit, false) ->
  float_lt E new_fit (crt_fit s) = false ->
  stop_condition E opts s new_fit = true ->
  rounds (S fuel) train rid label m_name s
  = Ok (advanced rid label m_name s new_pm_params new_fit).
Proof.
  unfold stop_condition. intros Ht Hr Hc. cbn [scaling_rounds].
  rewrite Ht, Hr. cbv zeta. now rewrite Hc.
Qed.

Lemma rounds_next (fuel : nat) (s s' : State) :
  next_round E opts train rid label m_name s s' ->
  rounds (S fuel) train rid label m_name s
  = rounds fuel train rid label m_name s'.
Proof.
  unfold stop_condition. intros (p & f & Ht & Hr & Hc & ->).
  cbn [scaling_rounds]. rewrite Ht, Hr.
  cbv zeta. unfold stop_condition in Hc. now rewrite Hc.
Qed.

Lemma next_round_round (s s' : State) :
  next_round E opts train rid label m_name s s' ->
  round s' = S (round s) /\ S (round s) < scale_max_rounds opts.
Proof.
  intros (p & f & _ & _ & Hc & ->). simpl. split; [reflexivity|].
  unfold stop_condition in Hc. apply orb_false_iff in Hc.
  destruct Hc as [Hc _]. now apply Nat.leb_gt in Hc.
Qed.

Lemma reaches_round (s0 s : State) :
  reaches E opts train rid label m_name s0 s ->
  round s0 <= round s
  /\ (s = s0 \/ round s < scale_max_rounds opts).
Proof.
  unfold reaches. induction 1 as [s|s0 s1 s Hn _ IH].
  - auto.
  - destruct (next_round_round Hn) as [R1 R2]. split; [lia|].
    right. destruct IH as [_ [->|IH]]; lia.
Qed.

Lemma reaches_step (s0 s s' : State) :
  reaches E opts train rid label m_name s0 s ->
  next_round E opts train rid label m_name s s' ->
  reaches E opts train rid label m_name s0 s'.
Proof.
  unfold reaches. intros H N.
  apply clos_rt_rt1n. apply rt_trans with s.
  - now apply clos_rt1n_rt.
  - now apply rt_step.
Qed.

(** Running the loop from [s0] with enough fuel is running it from any
    state that it reaches. *)
Lemma rounds_reaches (s0 s : State) :
  reaches E opts train rid label m_name s0 s ->
  forall fuel, scale_max_rounds opts - round s0 <= S fuel ->
  exists fuel',
    scale_max_rounds opts - round s <= S fuel'
    /\ rounds (S fuel) train rid label m_name s0
       = rounds (S fuel') train rid label m_name s.
Proof.
  intros Hp. unfold reaches in Hp.
  induction Hp as [s|s0 s1 s Hn _ IH]; intros fuel Hf.
  - exists fuel. auto.
  - rewrite (rounds_next fuel Hn).
    destruct (next_round_round Hn) as [R1 R2].
    destruct fuel as [|fuel]; [lia|].
    apply IH. lia.
Qed.

(** A round that regresses without signalling [done], at whatever point of
    the loop it comes, ends the loop in the state before that round. *)
Lemma regression_ends_loop (s0 s : State) new_pm_params new_fit :
  reaches E opts train rid label m_name s0 s ->
  train (crt_pm_params s) = (new_pm_params, new_fit, false) ->
  float_lt E new_fit (crt_fit s) = true ->
  forall fuel, scale_max_rounds opts - round s0 <= S fuel ->
  rounds (S fuel) train rid label m_name s0
  = Ok (reverted rid label m_name s new_pm_params new_fit).
Proof.
  intros Hp Ht Hr fuel Hf.
  destruct (rounds_reaches Hp Hf) as (fuel' & _ & ->).
  now apply rounds_regress.
Qed.

Lemma rounds_trained_app (lg : list (Log_Line T)) (l : Log_Line T) :
  rounds_trained (lg ++ [l])
  = rounds_trained lg + (if is_scaling_round l then 1 else 0).
Proof.
  unfold rounds_trained. rewrite filter_app, length_app. simpl.
  now destruct (is_scaling_round l).
Qed.

(** The loop always leaves; it trains at least once, and at most
    [scale_max_rounds - 1] times when that is more. *)
Lemma rounds_total (fuel : nat) :
  forall s : State,
  scale_max_rounds opts - round s <= S fuel ->
  exists s',
    rounds (S fuel) train rid label m_name s = Ok s'
    /\ rounds_trained (log s) < rounds_trained (log s')
    /\ rounds_trained (log s') + round s
       <= rounds_trained (log s) + Nat.max (S (round s)) (scale_max_rounds opts).
Proof.
  induction fuel as [|fuel IH]; intros s Hf;
    destruct (train (crt_pm_params s)) as [[p f] done] eqn:Ht;
    (destruct done;
     [rewrite (rounds_done _ _ Ht); eexists; split; [reflexivity|];
      cbn [log round]; rewrite rounds_trained_app; cbn [is_scaling_round]; lia
     |]);
    (destruct (float_lt E f (crt_fit s)) eqn:Hr;
     [rewrite (rounds_regress _ _ Ht Hr); eexists; split; [reflexivity|];
      unfold reverted; cbn [log round]; rewrite app_assoc;
      rewrite !rounds_trained_app; cbn [is_scaling_round]; lia
     |]);
    (destruct (stop_condition E opts s f) eqn:C;
     [rewrite (rounds_stop _ _ Ht Hr C); eexists; split; [reflexivity|];
      unfold advanced; cbn [log round]; rewrite rounds_trained_app;
      cbn [is_scaling_round]; lia
     |]);
    assert (N : next_round E opts train rid label m_name s
                  (advanced rid label m_name s p f))
      by (exists p, f; repeat split; assumption);
    destruct (next_round_round N) as [R1 R2].
  - lia.
  - rewrite (rounds_next (S fuel) N).
    destruct (IH (advanced rid label m_name s p f)) as (s' & R & B1 & B2);
      [lia|].
    exists s'. split; [exact R|].
    unfold advanced in B1, B2. cbn [log round] in B1, B2.
    rewrite rounds_trained_app in B1, B2. cbn [is_scaling_round] in B1, B2.
    lia.
Qed.

Lemma scaling_loop_total (params0 : Pore_Model_Parameters_Type T)
  (fit0 : Float_Type T) (log0 : list (Log_Line T)) :
  exists s,
    scaling_loop E opts train rid label m_name params0 fit0 log0 = Ok s
    /\ rounds_trained log0 < rounds_trained (log s)
    /\ rounds_trained (log s)
       <= rounds_trained log0 + Nat.max 1 (scale_max_rounds opts - 1).
Proof.
  unfold scaling_loop.
  destruct (rounds_total (fuel := scale_max_rounds opts)
              {| crt_pm_params := params0; crt_fit := fit0; round := 1;
                 log := log0 |}) as (s & R & B1 & B2); [cbn [round]; lia|].
  exists s. split; [exact R|]. cbn [log round] in B1, B2. lia.
Qed.

End ScalingLoop.

(** ** What the rounds leave in the read summary *)

Lemma name_at_ok {V : Type} (k : string) (m : name_map V) (v : V) :
  name_at k m = Ok v -> StdMap.find string_lt k m = Some v.
Proof.
  unfold name_at, StdMap.at_.
  destruct (StdMap.find string_lt k m); [intros [= ->]|]; easy.
Qed.

Lemma name_at_assign_ok {V : Type} (k : string) (m : name_map V) (v0 v : V) :
  name_at k m = Ok v0 ->
  name_at_assign k v m = Ok (name_assign k v m).
Proof.
  intros H. apply name_at_ok in H.
  unfold name_at_assign, StdMap.at_assign. now rewrite H.
Qed.

Lemma name_at_name_assign {V : Type} (k : string) (m : name_map V) (v : V) :
  name_at k (name_assign k v m) = Ok v.
Proof.
  unfold name_at, name_assign, StdMap.at_.
  now rewrite (StdMapFacts.find_subscript_assign string_lt string_lt_irrefl).
Qed.

Lemma get3_set3 {A : Type} (a : array3 A) (i : nat) (x : A) :
  get3 (set3 a i x) i = x.
Proof.
  destruct i as [|[|i]]; reflexivity.
Qed.

Lemma get3_set3_other {A : Type} (a : array3 A) (i j : nat) (x : A) :
  i <= 2 -> j <= 2 -> i <> j -> get3 (set3 a i x) j = get3 a j.
Proof.
  intros Hi Hj N.
  destruct i as [|[|[|i]]], j as [|[|[|j]]]; try lia; reflexivity.
Qed.

Section Persist.
Context {T : Types}.
Variable E : Kernel T.
Variable opts : Options T.
Variable models : Pore_Model_Dict_Type T.
Variable transitions : State_Transitions_Type T.

(** After its rounds, [more_rounds_single] stores the parameters of the
    final loop state under the model's name. *)
Lemma more_rounds_single_persists
  (seqs : list (Event_Sequence_Type T)) (st : nat)
  (model_fit : name_map (Float_Type T))
  (rs : Fast5_Summary_Type T) (lg : list (Log_Line T)) (m_name : string)
  (pm : Pore_Model_Type T) (params0 : Pore_Model_Parameters_Type T)
  (s : Scaling_State) :
  name_at m_name (get3 (params rs) st) = Ok params0 ->
  name_at m_name models = Ok pm ->
  scaling_loop E opts (train_one_round E seqs [pm] transitions)
    (read_id rs) st m_name params0
    (StdMap.subscript string_lt (float_zero E) m_name model_fit) lg = Ok s ->
  exists rs',
    more_rounds_single E opts models transitions seqs st model_fit (rs, lg)
      m_name
    = Ok (rs', log s ++ [scaling_result (read_id rs) st m_name
                           (crt_pm_params s) (crt_fit s) (round s)])
    /\ name_at m_name (get3 (params rs') st) = Ok (crt_pm_params s).
Proof.
  intros Hp Hm Hl. unfold more_rounds_single.
  rewrite Hp. cbn [bind]. rewrite Hm. cbn [bind]. rewrite Hl. cbn [bind].
  erewrite name_at_assign_ok by exact Hp. cbn [bind].
  eexists. split; [reflexivity|].
  cbn [with_params params]. rewrite get3_set3.
  apply name_at_name_assign.
Qed.

(** After its rounds, [more_rounds_pair] stores the parameters of the
    final loop state under the joint name in [params[2]] and under the
    two model names in [params[0]] and [params[1]]. *)
Lemma more_rounds_pair_persists
  (train_seqs : array2 (list (Event_Sequence_Type T)))
  (model_fit : pair_fit_map)
  (rs : Fast5_Summary_Type T) (lg : list (Log_Line T))
  (m_name : string * string)
  (ptrs : list (Pore_Model_Type T))
  (params0 : Pore_Model_Parameters_Type T) (s : Scaling_State) :
  model_ptrs models train_seqs m_name = Ok ptrs ->
  name_at (joint_name (fst m_name) (snd m_name)) (get3 (params rs) 2)
  = Ok params0 ->
  scaling_loop E opts
    (train_one_round E (get2 train_seqs 0 ++ get2 train_seqs 1) ptrs
       transitions)
    (read_id rs) 2 (joint_name (fst m_name) (snd m_name)) params0
    (StdMap.subscript pair_lt (float_zero E) m_name model_fit) lg = Ok s ->
  exists rs',
    more_rounds_pair E opts models transitions train_seqs model_fit (rs, lg)
      m_name
    = Ok (rs', log s ++ [scaling_result (read_id rs) 2
                           (joint_name (fst m_name) (snd m_name))
                           (crt_pm_params s) (crt_fit s) (round s)])
    /\ name_at (joint_name (fst m_name) (snd m_name)) (get3 (params rs') 2)
       = Ok (crt_pm_params s)
    /\ name_at (fst m_name) (get3 (params rs') 0) = Ok (crt_pm_params s)
    /\ name_at (snd m_name) (get3 (params rs') 1) = Ok (crt_pm_params s)
    /\ preferred_model rs' = preferred_model rs
    /\ events rs' = events rs.
Proof.
  intros Hm Hp Hl. unfold more_rounds_pair.
  rewrite Hm. cbn [bind]. rewrite Hp. cbn [bind]. rewrite Hl. cbn [bind].
  erewrite name_at_assign_ok by exact Hp. cbn [bind].
  eexists. split; [reflexivity|].
  cbn [with_params params preferred_model events].
  repeat split.
  - cbn [get3 set3 fst snd]. apply name_at_name_assign.
  - cbn [get3 set3 fst snd]. apply name_at_name_assign.
  - cbn [get3 set3 fst snd]. apply name_at_name_assign.
Qed.

End Persist.

(** ** C2: a regressing round *)

Section Regression.
Context {T : Types}.
Variable E : Kernel T.
Variable opts : Options T.
Variable models : Pore_Model_Dict_Type T.
Variable transitions : State_Transitions_Type T.

(** C2 (amended).  In either mode of [rescale_reads], for every read,
    strand and candidate model (or pair of models): when the loop stands at
    the head of a round in the state [s], and that round does not signal
    [done] and produces a fit smaller than the fit of [s], the loop is left
    at once, without failure; the log receives a "scaling_regression" line;
    the parameters and the fit reported and stored are those of [s], that
    is, of the round before. *)
Theorem regression_restores_previous_round :
  (forall (seqs : list (Event_Sequence_Type T)) (st : nat)
          (model_fit : name_map (Float_Type T))
          (rs : Fast5_Summary_Type T) (lg : list (Log_Line T))
          (m_name : string) (pm : Pore_Model_Type T)
          (params0 : Pore_Model_Parameters_Type T) (s : Scaling_State)
          (new_pm_params : Pore_Model_Parameters_Type T)
          (new_fit : Float_Type T),
      name_at m_name (get3 (params rs) st) = Ok params0 ->
      name_at m_name models = Ok pm ->
      reaches E opts (train_one_round E seqs [pm] transitions)
        (read_id rs) st m_name
        (first_state params0
           (StdMap.subscript string_lt (float_zero E) m_name model_fit) lg)
        s ->
      train_one_round E seqs [pm] transitions (crt_pm_params s)
      = (new_pm_params, new_fit, false) ->
      float_lt E new_fit (crt_fit s) = true ->
      exists rs',
        more_rounds_single E opts models transitions seqs st model_fit
          (rs, lg) m_name
        = Ok (rs',
              log s
              ++ [scaling_round (read_id rs) st m_name (crt_pm_params s)
                    (Some (crt_fit s)) new_pm_params new_fit (round s);
                  scaling_regression (read_id rs) st m_name (crt_pm_params s)
                    (crt_fit s) new_pm_params new_fit (round s);
                  scaling_result (read_id rs) st m_name (crt_pm_params s)
                    (crt_fit s) (round s)])
        /\ name_at m_name (get3 (params rs') st) = Ok (crt_pm_params s))
  /\
  (forall (train_seqs : array2 (list (Event_Sequence_Type T)))
          (model_fit : pair_fit_map)
          (rs : Fast5_Summary_Type T) (lg : list (Log_Line T))
          (m_name : string * string) (ptrs : list (Pore_Model_Type T))
          (params0 : Pore_Model_Parameters_Type T) (s : Scaling_State)
          (new_pm_params : Pore_Model_Parameters_Type T)
          (new_fit : Float_Type T),
      let m_name_str := joint_name (fst m_name) (snd m_name) in
      let train :=
        train_one_round E (get2 train_seqs 0 ++ get2 train_seqs 1) ptrs
          transitions in
      model_ptrs models train_seqs m_name = Ok ptrs ->
      name_at m_name_str (get3 (params rs) 2) = Ok params0 ->
      reaches E opts train (read_id rs) 2 m_name_str
        (first_state params0
           (StdMap.subscript pair_lt (float_zero E) m_name model_fit) lg)
        s ->
      train (crt_pm_params s) = (new_pm_params, new_fit, false) ->
      float_lt E new_fit (crt_fit s) = true ->
      exists rs',
        more_rounds_pair E opts models transitions train_seqs model_fit
          (rs, lg) m_name
        = Ok (rs',
              log s
              ++ [scaling_round (read_id rs) 2 m_name_str (crt_pm_params s)
                    (Some (crt_fit s)) new_pm_params new_fit (round s);
                  scaling_regression (read_id rs) 2 m_name_str
                    (crt_pm_params s) (crt_fit s) new_pm_params new_fit
                    (round s);
                  scaling_result (read_id rs) 2 m_name_str (crt_pm_params s)
                    (crt_fit s) (round s)])
        /\ name_at m_name_str (get3 (params rs') 2) = Ok (crt_pm_params s)
        /\ name_at (fst m_name) (get3 (params rs') 0) = Ok (crt_pm_params s)
        /\ name_at (snd m_name) (get3 (params rs') 1) = Ok (crt_pm_params s)).
Proof.
  split.
  - intros seqs st model_fit rs lg m_name pm params0 s p f Hp Hm Hr Ht Hl.
    assert (L : scaling_loop E opts (train_one_round E seqs [pm] transitions)
                  (read_id rs) st m_name params0
                  (StdMap.subscript string_lt (float_zero E) m_name model_fit)
                  lg
                = Ok (reverted (read_id rs) st m_name s p f)).
    { unfold scaling_loop.
      apply (regression_ends_loop Hr Ht Hl). cbn [first_state round]. lia. }
    destruct (@more_rounds_single_persists T E opts models transitions seqs
                st model_fit rs lg m_name pm params0 _ Hp Hm L)
      as (rs' & R & P).
    exists rs'. split; [|exact P].
    rewrite R. unfold reverted. cbn [log crt_pm_params crt_fit round].
    now rewrite <- !app_assoc.
  - intros train_seqs model_fit rs lg m_name ptrs params0 s p f m_name_str
      train Hm Hp Hr Ht Hl.
    assert (L : scaling_loop E opts train (read_id rs) 2 m_name_str params0
                  (StdMap.subscript pair_lt (float_zero E) m_name model_fit) lg
                = Ok (reverted (read_id rs) 2 m_name_str s p f)).
    { unfold scaling_loop.
      apply (regression_ends_loop Hr Ht Hl). cbn [first_state round]. lia. }
    destruct (@more_rounds_pair_persists T E opts models transitions
                train_seqs model_fit rs lg m_name ptrs params0 _ Hm Hp L)
      as (rs' & R & P2 & P0 & P1 & _).
    exists rs'. split; [|auto].
    rewrite R. unfold reverted. cbn [log crt_pm_params crt_fit round].
    now rewrite <- !app_assoc.
Qed.

End Regression.

Lemma regression_restores_previous_round_witness :
  let E := Sample.kernel Sample.train_regressing Sample.decode in
  let opts := Sample.options false false 10 80 in
  let s := advanced "r1" 0 "a" (first_state (T := Sample.types) 0%Z 10%Z [])
             1%Z 20%Z in
  exists rs' : Fast5_Summary_Type Sample.types,
    more_rounds_single E opts Sample.models tt [[1]; [3]] 0
      [("a"%string, 10%Z)] (Sample.read, []) "a"
    = Ok (rs',
          log s
          ++ [@scaling_round Sample.types "r1" 0 "a" 1%Z (Some 20%Z) 2%Z 5%Z 2;
              @scaling_regression Sample.types "r1" 0 "a" 1%Z 20%Z 2%Z 5%Z 2;
              @scaling_result Sample.types "r1" 0 "a" 1%Z 20%Z 2])
    /\ name_at "a" (get3 (params rs') 0) = Ok 1%Z.
Proof.
  intros E opts s.
  refine (proj1 (@regression_restores_previous_round Sample.types E opts
                   Sample.models tt)
            [[1]; [3]] 0 [("a"%string, 10%Z)] Sample.read [] "a"%string
            (Sample.model 0) 0%Z s 2%Z 5%Z _ _ _ _ _).
  - reflexivity.
  - reflexivity.
  - unfold reaches. eapply Relation_Operators.rt1n_trans; [|constructor 1].
    exists 1%Z, 20%Z. repeat split.
  - reflexivity.
  - reflexivity.
Defined.

(** C2 as stated fails when the round that regresses also signals [done]:
    the test of [done] comes first and leaves the loop with what the
    trainer wrote.  Here the trainer returns the old parameters, the fit -5
    (below the old fit 10) and [done]: the loop ends with the fit -5, not
    the previous fit, and logs no "scaling_regression" line. *)
Lemma regression_with_done_is_not_reverted :
  let E := Sample.kernel Sample.train_singular Sample.decode in
  let opts := Sample.options false false 10 80 in
  train_one_round E [[1]; [3]] [Sample.model 0] tt 0%Z = (0%Z, (-5)%Z, true)
  /\ float_lt E (-5)%Z 10%Z = true
  /\ more_rounds_single E opts Sample.models tt [[1]; [3]] 0
       [("a"%string, 10%Z)] (Sample.read, []) "a"
     = Ok (Sample.read,
           [@scaling_round Sample.types "r1" 0 "a" 0%Z (Some 10%Z) 0%Z (-5)%Z 1;
            @scaling_result Sample.types "r1" 0 "a" 0%Z (-5)%Z 1]).
Proof.
  repeat split.
Qed.

(** ** C3: when the loop stops *)

Section StopRule.
Context {T : Types}.
Variable E : Kernel T.
Variable opts : Options T.
Variable train :
  Pore_Model_Parameters_Type T ->
  Pore_Model_Parameters_Type T * Float_Type T * bool.
Variable rid : string.
Variable label : nat.
Variable m_name : string.
Variable params0 : Pore_Model_Parameters_Type T.
Variable fit0 : Float_Type T.
Variable log0 : list (Log_Line T).

(** C3 (amended).  For [scale_max_rounds] of 2 or more.  The loop
    entered after round 0 always ends.  After a round that neither signals
    [done] nor regresses, the round counter (which starts at 1) is
    incremented, and the loop stops exactly when the counter has reached
    [scale_max_rounds] or the new fit is below the old fit plus
    [scale_min_fit_progress]; the guard [round > 1] holds at every such
    test, so the progress threshold already applies after the first round
    of the loop.  Otherwise another [train_one_round] is run.  Round 0
    included, at most [scale_max_rounds] rounds are trained. *)
Theorem scaling_loop_stop_rule :
  2 <= scale_max_rounds opts ->
  (exists s_end,
      scaling_loop E opts train rid label m_name params0 fit0 log0 = Ok s_end
      /\ 1 + (rounds_trained (log s_end) - rounds_trained log0)
         <= scale_max_rounds opts)
  /\
  (forall (s : Scaling_State) (new_pm_params : Pore_Model_Parameters_Type T)
          (new_fit : Float_Type T),
      reaches E opts train rid label m_name
        (first_state params0 fit0 log0) s ->
      train (crt_pm_params s) = (new_pm_params, new_fit, false) ->
      float_lt E new_fit (crt_fit s) = false ->
      let s' := advanced rid label m_name s new_pm_params new_fit in
      let stop :=
        (scale_max_rounds opts <=? round s')
        || float_lt E new_fit
             (float_add E (crt_fit s) (scale_min_fit_progress opts)) in
      (1 <? round s') = true
      /\ (stop = true ->
          scaling_loop E opts train rid label m_name params0 fit0 log0
          = Ok s')
      /\ (stop = false ->
          reaches E opts train rid label m_name
            (first_state params0 fit0 log0) s'
          /\ exists s_end,
              scaling_loop E opts train rid label m_name params0 fit0 log0
              = Ok s_end
              /\ rounds_trained (log s') < rounds_trained (log s_end))).
Proof.
  intros Cap. split.
  - destruct (scaling_loop_total E opts train rid label m_name params0 fit0
                log0) as (s & R & B1 & B2).
    exists s. split; [exact R|]. lia.
  - intros s p f Hr Ht Hl s' stop.
    assert (G : (1 <? round s') = true).
    { apply Nat.ltb_lt. unfold s'. cbn [advanced round].
      apply reaches_round in Hr. cbn [first_state round] in Hr. lia. }
    assert (C : stop_condition E opts s f = stop).
    { unfold stop_condition, stop. unfold s' in G |- *.
      cbn [advanced round] in G |- *. now rewrite G. }
    assert (F : scale_max_rounds opts - round (first_state params0 fit0 log0)
                <= S (scale_max_rounds opts))
      by (cbn [first_state round]; lia).
    split; [exact G|]. split.
    + intros S1. rewrite S1 in C.
      unfold scaling_loop.
      destruct (rounds_reaches Hr F) as (fuel' & _ & R).
      unfold first_state in R. rewrite R.
      now apply rounds_stop.
    + intros S0. rewrite S0 in C.
      assert (N : next_round E opts train rid label m_name s s')
        by (exists p, f; repeat split; assumption).
      pose proof (reaches_step Hr N) as Hr'.
      split; [exact Hr'|].
      destruct (rounds_reaches Hr' F) as (fuel' & Hf & R).
      destruct (@rounds_total T E opts train rid label m_name fuel' s' Hf)
        as (s_end & Q & B & _).
      exists s_end. split; [|exact B].
      unfold scaling_loop. unfold first_state in R. now rewrite R.
Qed.

End StopRule.

Lemma scaling_loop_stop_rule_witness :
  let E := Sample.kernel Sample.train_rising Sample.decode in
  let opts := Sample.options false false 3 80 in
  let train := Sample.train_rising [] in
  let s := first_state (T := Sample.types) 1%Z 10%Z [] in
  let s' := advanced "r1" 0 "a" s 2%Z 20%Z in
  let stop :=
    (scale_max_rounds opts <=? round s')
    || float_lt E 20%Z (float_add E 10%Z (scale_min_fit_progress opts)) in
  2 <= scale_max_rounds opts
  /\ (exists s_end,
         scaling_loop E opts train "r1" 0 "a" 1%Z 10%Z [] = Ok s_end
         /\ 1 + (rounds_trained (log s_end)
                 - rounds_trained (T := Sample.types) []) <= 3)
  /\ (1 <? round s') = true
  /\ (stop = true ->
      scaling_loop E opts train "r1" 0 "a" 1%Z 10%Z [] = Ok s')
  /\ (stop = false ->
      reaches E opts train "r1" 0 "a"
        (first_state (T := Sample.types) 1%Z 10%Z []) s'
      /\ exists s_end,
          scaling_loop E opts train "r1" 0 "a" 1%Z 10%Z [] = Ok s_end
          /\ rounds_trained (log s') < rounds_trained (log s_end)).
Proof.
  intros E opts train s s' stop.
  assert (Cap : 2 <= scale_max_rounds opts) by (cbn; lia).
  split; [exact Cap|].
  split.
  - exact (proj1 (@scaling_loop_stop_rule Sample.types E opts train
                    "r1"%string 0 "a"%string 1%Z 10%Z [] Cap)).
  - refine (proj2 (@scaling_loop_stop_rule Sample.types E opts train
                     "r1"%string 0 "a"%string 1%Z 10%Z [] Cap)
              s 2%Z 20%Z _ _ _).
    + constructor 1.
    + reflexivity.
    + reflexivity.
Defined.

(** C3 as stated fails on the timing of the progress threshold.  With
    [scale_max_rounds = 10] and a fit that does not change, the first round
    of the loop neither signals [done] nor regresses, and its improvement
    (0) is below [scale_min_fit_progress] (1): the loop stops there, at
    [round = 2], after one round and not after two.  With round 0 the log
    of the whole item has two "scaling_round" lines for strand 0 and model
    "a", eight fewer than the cap allows. *)
Lemma scaling_loop_rounds_counterexample :
  let E := Sample.kernel Sample.train_flat Sample.decode in
  let opts := Sample.options false false 10 80 in
  scale_max_rounds opts = 10
  /\ Sample.train_flat [] 1%Z = (2%Z, 0%Z, false)
  /\ float_lt E 0%Z 0%Z = false
  /\ float_lt E 0%Z (float_add E 0%Z (scale_min_fit_progress opts)) = true
  /\ scaling_loop E opts (Sample.train_flat []) "r1" 0 "a" 1%Z 0%Z []
     = Ok (@Build_Scaling_State Sample.types 2%Z 0%Z 2
             [@scaling_round Sample.types "r1" 0 "a" 1%Z (Some 0%Z)
                2%Z 0%Z 1])
  /\ exists rs lg,
      rescale_loaded E opts Sample.models tt Sample.read = Ok (rs, lg)
      /\ rounds_of 0 "a" lg = 2.
Proof.
  cbv zeta. repeat (split; [reflexivity|]).
  eexists. eexists. split; [vm_compute; reflexivity|]. reflexivity.
Qed.

(** ** C1: both strands scaled together *)

Lemma keys_subscript_assign_in {K V : Type} (lt : K -> K -> bool)
  (k k' : K) (v : V) (m : StdMap.t K V) :
  In k (StdMap.keys (StdMap.subscript_assign lt k' v m)) ->
  k = k' \/ In k (StdMap.keys m).
Proof.
  unfold StdMap.keys.
  induction m as [|[k1 v1] m IH]; simpl.
  - intros [<-|[]]. now left.
  - destruct (lt k1 k'); simpl.
    + intros [<-|H]; [right; now left|].
      destruct (IH H) as [->|I]; auto.
    + destruct (lt k' k1); simpl; intros H; intuition auto.
Qed.

Lemma subscript_assign_not_nil {K V : Type} (lt : K -> K -> bool)
  (k : K) (v : V) (m : StdMap.t K V) :
  StdMap.subscript_assign lt k v m <> [].
Proof.
  destruct m as [|[k1 v1] m]; simpl; [discriminate|].
  destruct (lt k1 k); [discriminate|].
  destruct (lt k k1); discriminate.
Qed.

Lemma name_at_found {V : Type} (k : string) (m : name_map V) :
  StdMap.find string_lt k m <> None -> exists v, name_at k m = Ok v.
Proof.
  unfold name_at, StdMap.at_.
  destruct (StdMap.find string_lt k m) as [v|]; [eauto|congruence].
Qed.

Lemma keys_name_at_assign {V : Type} (k : string) (v : V)
  (m m' : name_map V) :
  name_at_assign k v m = Ok m' -> StdMap.keys m' = StdMap.keys m.
Proof.
  unfold name_at_assign, StdMap.at_assign.
  destruct (StdMap.find string_lt k m) eqn:F; [|discriminate].
  intros [= <-]. apply StdMapFacts.keys_subscript_assign. congruence.
Qed.

Lemma find_same_keys {V : Type} (k : string) (m m' : name_map V) :
  StdMap.keys m' = StdMap.keys m ->
  StdMap.find string_lt k m <> None -> StdMap.find string_lt k m' <> None.
Proof.
  intros Hk H C. apply H.
  now apply (StdMapFacts.find_keys string_lt k m' m).
Qed.

Section MaxOf.
Context {T : Types}.
Variable E : Kernel T.
Hypothesis float_order : strict_weak_order (float_lt E).

(** The entry that [max_of] returns is an entry of the map, and no entry
    has a larger fit. *)
Lemma max_of_from_spec {K : Type} (rest : list (K * Float_Type T))
  (best : K * Float_Type T) :
  In (max_of_from E best rest) (best :: rest)
  /\ forall e, In e (best :: rest) ->
               float_lt E (snd (max_of_from E best rest)) (snd e) = false.
Proof.
  destruct float_order as [Irr Tr Neg].
  revert best. induction rest as [|e rest IH]; intros best.
  - simpl. split; [now left|]. intros e [<-|[]]. apply Irr.
  - cbn [max_of_from].
    destruct (float_lt E (snd best) (snd e)) eqn:C.
    + destruct (IH e) as (I & A). split; [now right|].
      intros x [<-|H]; [|now apply A].
      apply Neg with (b := snd e); [apply A; now left|].
      destruct (float_lt E (snd e) (snd best)) eqn:D; [|reflexivity].
      pose proof (Tr _ _ _ C D) as X. rewrite Irr in X. discriminate.
    + destruct (IH best) as (I & A). split.
      * destruct I as [I|I]; [now left|right; now right].
      * intros x [<-|[<-|H]].
        -- apply A. now left.
        -- apply Neg with (b := snd best); [apply A; now left|exact C].
        -- apply A. now right.
Qed.

Lemma max_of_spec {K : Type} (model_fit : list (K * Float_Type T)) :
  model_fit <> [] ->
  exists best,
    max_of E model_fit = Some best
    /\ In best model_fit
    /\ forall e, In e model_fit -> float_lt E (snd best) (snd e) = false.
Proof.
  destruct model_fit as [|e rest]; [congruence|]. intros _.
  exists (max_of_from E e rest). split; [reflexivity|].
  apply max_of_from_spec.
Qed.

End MaxOf.

Section Together.
Context {T : Types}.
Variable E : Kernel T.
Variable opts : Options T.
Variable models : Pore_Model_Dict_Type T.
Variable transitions : State_Transitions_Type T.
Variable train_seqs : array2 (list (Event_Sequence_Type T)).

Local Abbreviation Summary := (Fast5_Summary_Type T).

Lemma pair_ready_frame (rs rs' : Summary) (p : string * string) :
  same_frame rs rs' -> pair_ready models train_seqs rs p -> pair_ready models train_seqs rs' p.
Proof.
  intros (_ & _ & K) (M & F). split; [exact M|].
  eapply find_same_keys; eassumption.
Qed.

Lemma first_round_pair_ok (rs : Summary) (mf : pair_fit_map)
  (lg : list (Log_Line T)) (p : string * string) :
  pair_ready models train_seqs rs p ->
  exists rs' fit lg',
    first_round_pair E models transitions train_seqs (rs, mf, lg) p
    = Ok (rs', StdMap.subscript_assign pair_lt p fit mf, lg')
    /\ same_frame rs rs'
    /\ preferred_model rs' = preferred_model rs.
Proof.
  intros ((ptrs & M) & F). unfold first_round_pair.
  rewrite M. cbn [bind].
  apply name_at_found in F. destruct F as (old & A). rewrite A. cbn [bind].
  destruct (train_one_round E (get2 train_seqs 0 ++ get2 train_seqs 1) ptrs
              transitions old) as [[p' f'] done].
  erewrite name_at_assign_ok by exact A. cbn [bind].
  eexists. exists f'. eexists. split; [reflexivity|].
  unfold same_frame. cbn [with_params read_id events params preferred_model].
  repeat split. cbn [get3 set3 snd].
  apply StdMapFacts.keys_subscript_assign.
  apply name_at_ok in A. cbn [get3] in A. rewrite A. discriminate.
Qed.

Lemma first_rounds_ok (pairs : list (string * string)) :
  forall (rs : Summary) (mf : pair_fit_map) (lg : list (Log_Line T)),
  (forall p, In p pairs -> pair_ready models train_seqs rs p) ->
  exists rs' mf' lg',
    for_each (first_round_pair E models transitions train_seqs) pairs
      (rs, mf, lg)
    = Ok (rs', mf', lg')
    /\ same_frame rs rs'
    /\ preferred_model rs' = preferred_model rs
    /\ (forall k, In k (StdMap.keys mf') ->
                  In k (StdMap.keys mf) \/ In k pairs)
    /\ (pairs <> [] -> mf' <> []).
Proof.
  induction pairs as [|p pairs IH]; intros rs mf lg R.
  - exists rs, mf, lg. cbn [for_each]. unfold same_frame.
    repeat split; auto; congruence.
  - edestruct (@first_round_pair_ok rs mf lg p)
      as (rs1 & fit & lg1 & S1 & F1 & P1); [apply R; now left|].
    destruct (IH rs1 (StdMap.subscript_assign pair_lt p fit mf) lg1)
      as (rs' & mf' & lg' & S2 & F2 & P2 & K2 & N2).
    { intros q Hq. eapply pair_ready_frame; [exact F1|]. apply R. now right. }
    exists rs', mf', lg'. cbn [for_each]. rewrite S1. cbn [bind].
    split; [exact S2|]. split.
    + destruct F1 as (a1 & b1 & c1), F2 as (a2 & b2 & c2).
      unfold same_frame. repeat split; congruence.
    + split; [congruence|]. split.
      * intros k Hk. destruct (K2 k Hk) as [H|H]; [|right; now right].
        apply keys_subscript_assign_in in H. destruct H as [->|H]; auto.
        right; now left.
      * intros _. destruct pairs as [|q pairs].
        -- cbn [for_each] in S2. injection S2 as <- <- <-.
           apply subscript_assign_not_nil.
        -- apply N2. discriminate.
Qed.

End Together.

Section JointMode.
Context {T : Types}.
Variable E : Kernel T.
Variable opts : Options T.
Variable models : Pore_Model_Dict_Type T.
Variable transitions : State_Transitions_Type T.

Lemma shortlist_in_models (rs : Fast5_Summary_Type T) (st : nat) (m : string) :
  StdMap.well_formed string_lt models ->
  In m (model_shortlist models rs st) ->
  StdMap.find string_lt m models <> None.
Proof.
  intros W. unfold model_shortlist, name_count, StdMap.count.
  destruct (StdMap.find string_lt (get2 (preferred_model rs) st) models)
    eqn:F; simpl.
  - intros [<-|[]]. congruence.
  - intros I. apply models_for_strand_keys in I.
    eapply StdMapFacts.in_keys_find; eauto using string_lt_irrefl.
Qed.

Lemma scales_together_long (rs : Fast5_Summary_Type T) :
  scales_together opts rs = true ->
  too_short opts rs 0 = false /\ too_short opts rs 1 = false.
Proof.
  unfold scales_together, too_short. rewrite !andb_true_iff.
  intros ((_ & A) & B). apply Nat.leb_le in A, B.
  split; apply Nat.ltb_ge; assumption.
Qed.

Lemma in_model_pairs (model_list : array2 (list string)) (m0 m1 : string) :
  In (m0, m1) (model_pairs model_list) <->
  In m0 (get2 model_list 0) /\ In m1 (get2 model_list 1).
Proof.
  unfold model_pairs. rewrite in_flat_map. split.
  - intros (x & H0 & H1). apply in_map_iff in H1.
    destruct H1 as (y & [= -> ->] & H1). auto.
  - intros (H0 & H1). exists m0. split; [exact H0|].
    apply in_map_iff. now exists m1.
Qed.

(** C1.  In [rescale_reads], when [scale_strands_together] is set and both
    strands have at least [min_read_len] events (with the fits comparable,
    the two model lists non-empty and the read holding parameters for every
    joint name "m0+m1"): round 0 trains every pair of the Cartesian product
    of the two lists; whatever [scale_select_model_single_round] is, the
    pair [(m0, m1)] of largest round-0 fit is selected, both lists are
    restricted to it and [preferred_model] becomes [(m0, m1)]; the remaining
    rounds run for that pair only, and their final parameters are written to
    [params[2]["m0+m1"]], [params[0][m0]] and [params[1][m1]]. *)
Theorem joint_mode_selects_and_stores (rs : Fast5_Summary_Type T) :
  strict_weak_order (float_lt E) ->
  StdMap.well_formed string_lt models ->
  scales_together opts rs = true ->
  let model_list := rescale_model_list opts models rs in
  let train_seqs := train_event_seqs opts rs in
  get2 model_list 0 <> [] ->
  get2 model_list 1 <> [] ->
  (forall m0 m1,
      In m0 (get2 model_list 0) -> In m1 (get2 model_list 1) ->
      StdMap.find string_lt (joint_name m0 m1) (get3 (params rs) 2) <> None) ->
  exists rs0 model_fit lg0 m0 m1 fit ptrs params0 s rs',
    (* round 0 over the Cartesian product *)
    for_each (first_round_pair E models transitions train_seqs)
      (model_pairs model_list) (rs, [], [])
    = Ok (rs0, model_fit, lg0)
    (* the pair of largest fit *)
    /\ In (m0, m1) (model_pairs model_list)
    /\ In ((m0, m1), fit) model_fit
    /\ (forall p f, In (p, f) model_fit -> float_lt E fit f = false)
    (* is selected, with or without the flag *)
    /\ select_pair E opts model_fit (rs0, model_list, lg0)
       = Ok (with_preferred_model (with_preferred_model rs0 0 m0) 1 m1,
             ([m0], [m1]),
             lg0 ++ [selected_model (read_id rs) 2 (joint_name m0 m1)])
    (* the remaining rounds, for that pair *)
    /\ model_ptrs models train_seqs (m0, m1) = Ok ptrs
    /\ name_at (joint_name m0 m1) (get3 (params rs0) 2) = Ok params0
    /\ scaling_loop E opts
         (train_one_round E (get2 train_seqs 0 ++ get2 train_seqs 1) ptrs
            transitions)
         (read_id rs) 2 (joint_name m0 m1) params0
         (StdMap.subscript pair_lt (float_zero E) (m0, m1) model_fit)
         (lg0 ++ [selected_model (read_id rs) 2 (joint_name m0 m1)])
       = Ok s
    (* what the item processor leaves *)
    /\ rescale_loaded E opts models transitions rs
       = Ok (rs', log s ++ [scaling_result (read_id rs) 2 (joint_name m0 m1)
                              (crt_pm_params s) (crt_fit s) (round s)])
    /\ preferred_model rs' = (m0, m1)
    /\ name_at (joint_name m0 m1) (get3 (params rs') 2) = Ok (crt_pm_params s)
    /\ name_at m0 (get3 (params rs') 0) = Ok (crt_pm_params s)
    /\ name_at m1 (get3 (params rs') 1) = Ok (crt_pm_params s).
Proof.
  intros FO W St model_list train_seqs N0 N1 Keys.
  destruct (scales_together_long rs St) as [L0 L1].
  assert (M0 : get2 model_list 0 = model_shortlist models rs 0)
    by (apply rescale_model_list_get; [lia|exact L0]).
  assert (M1 : get2 model_list 1 = model_shortlist models rs 1)
    by (apply rescale_model_list_get; [lia|exact L1]).
  assert (Ready : forall p, In p (model_pairs model_list) ->
                            pair_ready models train_seqs rs p).
  { intros [a b] Hp. apply in_model_pairs in Hp. destruct Hp as [Ha Hb].
    split; [|cbn [fst snd]; now apply Keys].
    unfold model_ptrs. cbn [fst snd].
    rewrite M0 in Ha. rewrite M1 in Hb.
    apply (shortlist_in_models _ _ _ W), name_at_found in Ha.
    apply (shortlist_in_models _ _ _ W), name_at_found in Hb.
    destruct Ha as (pa & ->), Hb as (pb & ->). cbn [bind]. eauto. }
  assert (NE : model_pairs model_list <> []).
  { destruct (get2 model_list 0) as [|a l0] eqn:E0; [congruence|].
    destruct (get2 model_list 1) as [|b l1] eqn:E1; [congruence|].
    unfold model_pairs. rewrite E0, E1. discriminate. }
  destruct (@first_rounds_ok T E models transitions train_seqs
              (model_pairs model_list) rs [] [] Ready)
    as (rs0 & mf & lg0 & R0 & (Fid & Fev & Fk) & Fp & Kmf & Nmf).
  destruct (@max_of_spec T E FO _ mf (Nmf NE))
    as ([[m0 m1] fit] & Mx & Imx & Amx).
  assert (Ip : In (m0, m1) (model_pairs model_list)).
  { destruct (Kmf (m0, m1)) as [[]|H]; [|exact H].
    unfold StdMap.keys. change (m0, m1) with (fst ((m0, m1), fit)).
    now apply in_map. }
  destruct (Ready _ Ip) as ((ptrs & Pt) & Fnd).
  cbn [fst snd] in Fnd.
  assert (Fnd0 : StdMap.find string_lt (joint_name m0 m1)
                   (get3 (params rs0) 2) <> None)
    by (eapply find_same_keys; eassumption).
  apply name_at_found in Fnd0. destruct Fnd0 as (params0 & A0).
  set (lg1 := lg0 ++ [selected_model (read_id rs) 2 (joint_name m0 m1)]).
  destruct (@scaling_loop_total T E opts
              (train_one_round E (get2 train_seqs 0 ++ get2 train_seqs 1)
                 ptrs transitions)
              (read_id rs) 2 (joint_name m0 m1) params0
              (StdMap.subscript pair_lt (float_zero E) (m0, m1) mf) lg1)
    as (s & Loop & _).
  set (rs1 := with_preferred_model (with_preferred_model rs0 0 m0) 1 m1).
  assert (Sel : select_pair E opts mf (rs0, model_list, lg0)
                = Ok (rs1, ([m0], [m1]), lg1)).
  { unfold select_pair. cbn [orb]. rewrite Mx. cbn [fst snd].
    unfold rs1, lg1. cbn [with_preferred_model read_id]. now rewrite Fid. }
  destruct (@more_rounds_pair_persists T E opts models transitions train_seqs
              mf rs1 lg1 (m0, m1) ptrs params0 s Pt)
    as (rs' & More & P2 & P0 & P1 & Pp & _).
  { exact A0. }
  { cbn [fst snd]. unfold rs1. cbn [with_preferred_model read_id].
    rewrite Fid. exact Loop. }
  cbn [fst snd] in More, P2, P0, P1.
  assert (Rid : read_id rs1 = read_id rs)
    by (unfold rs1; cbn [with_preferred_model read_id]; exact Fid).
  rewrite Rid in More.
  exists rs0, mf, lg0, m0, m1, fit, ptrs, params0, s, rs'.
  split; [exact R0|]. split; [exact Ip|]. split; [exact Imx|].
  split; [intros p f H; apply (Amx _ H)|].
  split; [exact Sel|]. split; [exact Pt|]. split; [exact A0|].
  split; [exact Loop|]. split.
  - subst model_list train_seqs.
    unfold rescale_loaded. cbv zeta. rewrite St. unfold rescale_together.
    match goal with
    | |- bind ?a _ = _ =>
        replace a with (Ok (rs0, mf, lg0)) by (symmetry; exact R0)
    end.
    cbn [bind].
    match goal with
    | |- bind ?a _ = _ =>
        replace a with (Ok (rs1, ([m0], [m1]), lg1)) by (symmetry; exact Sel)
    end.
    cbn [bind].
    unfold model_pairs. cbn [get2 fst snd flat_map map app for_each].
    match goal with
    | |- bind ?a _ = _ => replace a with (Ok (rs', log s ++ [scaling_result (read_id rs) 2 (joint_name m0 m1) (crt_pm_params s) (crt_fit s) (round s)])) by (symmetry; exact More)
    end.
    reflexivity.
  - split; [|auto]. rewrite Pp. unfold rs1.
    cbn [with_preferred_model preferred_model set2 fst snd]. reflexivity.
Qed.

End JointMode.

Lemma Z_ltb_strict_weak_order : strict_weak_order Z.ltb.
Proof.
  split.
  - intros a. apply Z.ltb_irrefl.
  - intros a b c. rewrite !Z.ltb_lt. lia.
  - intros a b c. rewrite !Z.ltb_ge. lia.
Qed.

Lemma joint_mode_selects_and_stores_witness :
  let E := Sample.kernel Sample.train_by_strand Sample.decode in
  let opts := Sample.options true false 10 80 in
  exists rs0 model_fit lg0 m0 m1 fit ptrs params0 s rs',
    for_each
      (first_round_pair E Sample.models tt (train_event_seqs opts Sample.read))
      (model_pairs (rescale_model_list opts Sample.models Sample.read))
      (Sample.read, [], [])
    = Ok (rs0, model_fit, lg0)
    /\ In (m0, m1)
         (model_pairs (rescale_model_list opts Sample.models Sample.read))
    /\ In ((m0, m1), fit) model_fit
    /\ (forall p f, In (p, f) model_fit -> float_lt E fit f = false)
    /\ select_pair E opts model_fit
         (rs0, rescale_model_list opts Sample.models Sample.read, lg0)
       = Ok (with_preferred_model (with_preferred_model rs0 0 m0) 1 m1,
             ([m0], [m1]),
             lg0 ++ [selected_model (read_id Sample.read) 2
                       (joint_name m0 m1)])
    /\ model_ptrs Sample.models (train_event_seqs opts Sample.read) (m0, m1)
       = Ok ptrs
    /\ name_at (joint_name m0 m1) (get3 (params rs0) 2) = Ok params0
    /\ scaling_loop E opts
         (train_one_round E
            (get2 (train_event_seqs opts Sample.read) 0
             ++ get2 (train_event_seqs opts Sample.read) 1) ptrs tt)
         (read_id Sample.read) 2 (joint_name m0 m1) params0
         (StdMap.subscript pair_lt (float_zero E) (m0, m1) model_fit)
         (lg0 ++ [selected_model (read_id Sample.read) 2 (joint_name m0 m1)])
       = Ok s
    /\ rescale_loaded E opts Sample.models tt Sample.read
       = Ok (rs', log s ++ [scaling_result (read_id Sample.read) 2
                              (joint_name m0 m1)
                              (crt_pm_params s) (crt_fit s) (round s)])
    /\ preferred_model rs' = (m0, m1)
    /\ name_at (joint_name m0 m1) (get3 (params rs') 2) = Ok (crt_pm_params s)
    /\ name_at m0 (get3 (params rs') 0) = Ok (crt_pm_params s)
    /\ name_at m1 (get3 (params rs') 1) = Ok (crt_pm_params s).
Proof.
  intros E opts.
  apply (@joint_mode_selects_and_stores Sample.types E opts Sample.models tt
           Sample.read).
  - exact Z_ltb_strict_weak_order.
  - exact sample_models_well_formed.
  - reflexivity.
  - discriminate.
  - discriminate.
  - intros m0 m1 H0 H1.
    destruct H0 as [<-|[<-|[]]]; destruct H1 as [<-|[<-|[]]]; discriminate.
Defined.

(** On the sample read the selected pair is ("c", "c"), of fit 8, although
    [scale_select_model_single_round] is not set. *)
Example joint_mode_on_sample :
  let E := Sample.kernel Sample.train_by_strand Sample.decode in
  let opts := Sample.options true false 10 80 in
  exists rs' lg,
    rescale_loaded E opts Sample.models tt Sample.read = Ok (rs', lg)
    /\ preferred_model rs' = ("c", "c")%string
    /\ get3 (params rs') 2
       = [("a+b", 1%Z); ("a+c", 1%Z); ("c+b", 1%Z); ("c+c", 2%Z)]%string
    /\ get3 (params rs') 0 = [("a", 0%Z); ("c", 2%Z)]%string
    /\ get3 (params rs') 1 = [("b", 0%Z); ("c", 2%Z)]%string.
Proof.
  eexists. eexists. split; [vm_compute; reflexivity|].
  repeat split.
Qed.

(** ** C6: the sequence record *)

Lemma append_assoc (a b c : string) :
  ((a ++ b) ++ c)%string = (a ++ b ++ c)%string.
Proof.
  induction a as [|x a IH]; simpl; [reflexivity|now rewrite IH].
Qed.

Lemma append_nil_r (a : string) : (a ++ "")%string = a.
Proof.
  induction a as [|x a IH]; simpl; [reflexivity|now rewrite IH].
Qed.

Lemma substring_all (s : string) : substring 0 (String.length s) s = s.
Proof.
  induction s as [|c s IH]; simpl; [reflexivity|now rewrite IH].
Qed.

Lemma suffix_0 (s : string) : suffix 0 s = s.
Proof.
  unfold suffix. rewrite Nat.sub_0_r. apply substring_all.
Qed.

Lemma substring_past_end (n m : nat) (s : string) :
  String.length s <= n -> substring n m s = ""%string.
Proof.
  revert n. induction s as [|c s IH]; intros n L.
  - destruct n, m; reflexivity.
  - destruct n as [|n]; simpl in *; [lia|]. apply IH. lia.
Qed.

Lemma substring_length_le (n m : nat) (s : string) :
  String.length (substring n m s) <= m.
Proof.
  revert n m. induction s as [|c s IH]; intros n m.
  - destruct n, m; simpl; lia.
  - destruct n as [|n]; simpl.
    + destruct m as [|m]; simpl; [lia|]. specialize (IH 0 m). lia.
    + apply IH.
Qed.

Lemma take_then_suffix (w : nat) (s : string) :
  (substring 0 w s ++ suffix w s)%string = s.
Proof.
  unfold suffix. revert w. induction s as [|c s IH]; intros w.
  - destruct w; reflexivity.
  - destruct w as [|w]; simpl.
    + now rewrite substring_all.
    + now rewrite IH.
Qed.

Lemma suffix_split (pos w : nat) (s : string) :
  suffix pos s = (substring pos w s ++ suffix (pos + w) s)%string.
Proof.
  revert pos. induction s as [|c s IH]; intros pos.
  - unfold suffix. destruct pos, w; reflexivity.
  - destruct pos as [|pos].
    + rewrite suffix_0. simpl Nat.add. symmetry. apply take_then_suffix.
    + unfold suffix in *. simpl. apply IH.
Qed.

Section Iterate.
Variables St A : Type.
Variable body : St -> St + A.

Lemma iterate_nat_add (n m : nat) (s : St) :
  iterate_nat (n + m) body s
  = match iterate_nat n body s with
    | inl s' => iterate_nat m body s'
    | inr a => inr a
    end.
Proof.
  revert s. induction n as [|n IH]; intros s; simpl; [reflexivity|].
  destruct (body s); [apply IH|reflexivity].
Qed.

Lemma iterate_unary (p : positive) (s : St) :
  iterate p body s = iterate_nat (Pos.to_nat p) body s.
Proof.
  revert s. induction p as [p IH|p IH|]; intros s.
  - rewrite Pos2Nat.inj_xI. cbn [iterate iterate_nat].
    destruct (body s) as [s'|a]; [|reflexivity].
    replace (2 * Pos.to_nat p) with (Pos.to_nat p + Pos.to_nat p) by lia.
    rewrite iterate_nat_add, <- IH.
    destruct (iterate p body s'); [apply IH|reflexivity].
  - rewrite Pos2Nat.inj_xO. cbn [iterate].
    replace (2 * Pos.to_nat p) with (Pos.to_nat p + Pos.to_nat p) by lia.
    rewrite iterate_nat_add, <- IH.
    destruct (iterate p body s); [apply IH|reflexivity].
  - rewrite Pos2Nat.inj_1. cbn [iterate iterate_nat].
    destruct (body s); reflexivity.
Qed.

Lemma iterate_nat_step (n : nat) (s : St) :
  iterate_nat (S n) body s
  = match body s with
    | inl s' => iterate_nat n body s'
    | inr a => inr a
    end.
Proof. reflexivity. Qed.

Lemma iterate_nat_more (n m : nat) (s : St) (a : A) :
  iterate_nat n body s = inr a -> n <= m -> iterate_nat m body s = inr a.
Proof.
  intros H L. replace m with (n + (m - n)) by lia.
  now rewrite iterate_nat_add, H.
Qed.

End Iterate.

Section WriteFasta.
Context {T : Types}.
Variable opts : Options T.
Variable seq : string.
Hypothesis width_positive : (0 < fasta_line_width opts)%N.
Hypothesis no_wrap :
  (N.of_nat (String.length seq) + fasta_line_width opts <= 2 ^ 32)%N.

Local Abbreviation width_ok :=
  (fun l : string => (N.of_nat (String.length l) <= fasta_line_width opts)%N).

Lemma write_fasta_lines (n : nat) :
  forall (os : string) (pos : nat),
  String.length seq - pos <= n ->
  exists lines,
    iterate_nat (S n) (write_fasta_line opts seq) (os, N.of_nat pos)
    = inr (os ++ lines_text lines)%string
    /\ glue lines = suffix pos seq
    /\ Forall width_ok lines.
Proof.
  induction n as [|n IH]; intros os pos L;
    rewrite iterate_nat_step; cbn [write_fasta_line];
    destruct (N.of_nat pos <? N.of_nat (String.length seq))%N eqn:C.
  - apply N.ltb_lt in C. lia.
  - apply N.ltb_ge in C. exists []. cbn [lines_text glue].
    rewrite append_nil_r. split; [reflexivity|]. split; [|constructor].
    unfold suffix. symmetry. apply substring_past_end. lia.
  - apply N.ltb_lt in C.
    assert (W : wrap32 (N.of_nat pos + fasta_line_width opts)
                = N.of_nat (pos + N.to_nat (fasta_line_width opts))).
    { unfold wrap32. rewrite N.mod_small by lia. lia. }
    rewrite W, Nat2N.id.
    destruct (IH (os ++ substring pos (N.to_nat (fasta_line_width opts)) seq
                     ++ endl)%string
                 (pos + N.to_nat (fasta_line_width opts)))
      as (lines & R & G & F); [lia|].
    exists (substring pos (N.to_nat (fasta_line_width opts)) seq :: lines).
    split; [|split].
    + rewrite R. cbn [lines_text]. now rewrite !append_assoc.
    + cbn [glue]. rewrite G. symmetry. apply suffix_split.
    + constructor; [|exact F].
      pose proof (substring_length_le pos (N.to_nat (fasta_line_width opts))
                    seq). lia.
  - apply N.ltb_ge in C. exists []. cbn [lines_text glue].
    rewrite append_nil_r. split; [reflexivity|]. split; [|constructor].
    unfold suffix. symmetry. apply substring_past_end. lia.
Qed.

(** [write_fasta] returns, and what it appends to the stream is the header
    line and the sequence cut into lines of at most [fasta_line_width]
    characters. *)
Lemma write_fasta_format (os name : string) :
  exists lines,
    write_fasta opts os name seq
    = Ok (os ++ ">" ++ name ++ endl ++ lines_text lines)%string
    /\ glue lines = seq
    /\ Forall width_ok lines.
Proof.
  destruct (write_fasta_lines (n := String.length seq)
              (os ++ ">" ++ name ++ endl)%string 0)
    as (lines & R & G & F); [lia|].
  exists lines. unfold write_fasta. rewrite iterate_unary.
  change (N.of_nat 0) with 0%N in R.
  erewrite iterate_nat_more; [|exact R|].
  - rewrite suffix_0 in G. split; [|auto].
    now rewrite !append_assoc.
  - pose proof no_wrap.
    assert (P : N.pos (2 ^ 32) = (2 ^ 32)%N) by reflexivity. lia.
Qed.

End WriteFasta.

(** ** The order of the Viterbi results and [std::sort] *)

Lemma string_lt_strict_weak_order : strict_weak_order string_lt.
Proof.
  split.
  - apply string_lt_irrefl.
  - apply string_lt_trans.
  - intros a b c H1 H2.
    destruct (string_lt a c) eqn:H3; [|reflexivity].
    destruct (string_lt b a) eqn:H4.
    + now rewrite (string_lt_trans _ _ _ H4 H3) in H2.
    + rewrite (string_lt_total _ _ H1 H4) in H3. congruence.
Qed.

Lemma lex_lt_strict_weak_order {A B : Type}
  (lta : A -> A -> bool) (ltb : B -> B -> bool) :
  strict_weak_order lta -> strict_weak_order ltb ->
  strict_weak_order (lex_lt lta ltb).
Proof.
  intros [Ia Ta Na] [Ib Tb Nb]. unfold lex_lt. split.
  - intros [a b]. cbn [fst snd]. now rewrite Ia, Ib.
  - intros [a1 b1] [a2 b2] [a3 b3]. cbn [fst snd].
    pose proof (Ta a1 a2 a3). pose proof (Tb b1 b2 b3).
    pose proof (Ta a3 a1 a2). pose proof (Ta a2 a3 a1).
    pose proof (Na a1 a2 a3). pose proof (Na a3 a2 a1).
    pose proof (Na a2 a1 a3). pose proof (Na a1 a3 a2).
    pose proof (Ia a1). pose proof (Ia a2). pose proof (Ia a3).
    destruct (lta a1 a2), (lta a2 a1), (lta a2 a3), (lta a3 a2),
      (lta a1 a3), (lta a3 a1), (ltb b1 b2), (ltb b2 b3), (ltb b1 b3);
      cbn; intuition congruence.
  - intros [a1 b1] [a2 b2] [a3 b3]. cbn [fst snd].
    pose proof (Nb b1 b2 b3).
    pose proof (Ta a1 a2 a3). pose proof (Ta a3 a1 a2).
    pose proof (Ta a2 a3 a1). pose proof (Ta a1 a3 a2).
    pose proof (Ta a3 a2 a1). pose proof (Ta a2 a1 a3).
    pose proof (Na a1 a2 a3). pose proof (Na a3 a2 a1).
    pose proof (Na a2 a1 a3). pose proof (Na a1 a3 a2).
    pose proof (Na a3 a1 a2). pose proof (Na a2 a3 a1).
    pose proof (Ia a1). pose proof (Ia a2). pose proof (Ia a3).
    destruct (lta a1 a2), (lta a2 a1), (lta a2 a3), (lta a3 a2),
      (lta a1 a3), (lta a3 a1), (ltb b1 b2), (ltb b2 b3), (ltb b1 b3);
      cbn; intuition congruence.
Qed.

Lemma pair_lt_strict_weak_order : strict_weak_order pair_lt.
Proof.
  exact (lex_lt_strict_weak_order string_lt_strict_weak_order
           string_lt_strict_weak_order).
Qed.

Section SortResults.
Context {T : Types}.
Variable E : Kernel T.
Hypothesis float_order : strict_weak_order (float_lt E).

Local Abbreviation Tuple := (@Result_Tuple T).

Lemma tuple_lt_strict_weak_order : strict_weak_order (tuple_lt E).
Proof.
  pose proof (lex_lt_strict_weak_order float_order
                (lex_lt_strict_weak_order string_lt_strict_weak_order
                   string_lt_strict_weak_order)) as [I Tr N].
  assert (Q : forall a b : Tuple,
             tuple_lt E a b
             = lex_lt (float_lt E) (lex_lt string_lt string_lt)
                 (fst (fst a), (snd (fst a), snd a))
                 (fst (fst b), (snd (fst b), snd b)))
    by (intros [[? ?] ?] [[? ?] ?]; reflexivity).
  split.
  - intros a. rewrite Q. apply I.
  - intros a b c. rewrite !Q. apply Tr.
  - intros a b c. rewrite !Q. apply N.
Qed.

Lemma not_after_refl (a : Tuple) : not_after E a a.
Proof. apply tuple_lt_strict_weak_order. Qed.

Lemma not_after_trans (a b c : Tuple) :
  not_after E a b -> not_after E b c -> not_after E a c.
Proof.
  unfold not_after. intros H1 H2.
  now apply (lt_negatively_transitive tuple_lt_strict_weak_order) with b.
Qed.

Lemma lt_not_after (a b : Tuple) : tuple_lt E a b = true -> not_after E a b.
Proof.
  unfold not_after. intros H.
  destruct tuple_lt_strict_weak_order as [I Tr _].
  destruct (tuple_lt E b a) eqn:D; [|reflexivity].
  pose proof (Tr _ _ _ H D) as X. now rewrite I in X.
Qed.

Lemma sort_insert_perm (x : Tuple) (l : list Tuple) :
  Permutation (x :: l) (sort_insert E x l).
Proof.
  induction l as [|y l IH]; cbn [sort_insert]; [reflexivity|].
  destruct (tuple_lt E x y); [reflexivity|].
  rewrite perm_swap. now constructor.
Qed.

Lemma std_sort_perm (l : list Tuple) : Permutation l (std_sort E l).
Proof.
  induction l as [|x l IH]; cbn [std_sort fold_right]; [constructor|].
  rewrite <- sort_insert_perm. now constructor.
Qed.

Lemma sort_insert_sorted (x : Tuple) (l : list Tuple) :
  StronglySorted (not_after E) l -> StronglySorted (not_after E) (sort_insert E x l).
Proof.
  induction l as [|y l IH]; intros S; cbn [sort_insert].
  - repeat constructor.
  - inversion S as [|? ? S' F]; subst.
    destruct (tuple_lt E x y) eqn:C.
    + constructor; [exact S|]. constructor; [now apply lt_not_after|].
      rewrite Forall_forall in F |- *. intros z Hz.
      apply not_after_trans with y; [now apply lt_not_after|now apply F].
    + constructor; [now apply IH|].
      rewrite Forall_forall in F |- *. intros z Hz.
      apply (Permutation_in _ (Permutation_sym (sort_insert_perm x l))) in Hz.
      destruct Hz as [<-|Hz]; [exact C|now apply F].
Qed.

Lemma std_sort_sorted (l : list Tuple) :
  StronglySorted (not_after E) (std_sort E l).
Proof.
  induction l as [|x l IH]; cbn [std_sort fold_right]; [constructor|].
  now apply sort_insert_sorted.
Qed.

Lemma sorted_last_is_max (l : list Tuple) (b : Tuple) :
  StronglySorted (not_after E) (l ++ [b]) ->
  forall r, In r (l ++ [b]) -> not_after E r b.
Proof.
  induction l as [|x l IH]; cbn [app]; intros S r Hr.
  - destruct Hr as [<-|[]]. apply not_after_refl.
  - inversion S as [|? ? S' F]; subst.
    destruct Hr as [<-|Hr]; [|now apply IH].
    rewrite Forall_forall in F. apply F. apply in_or_app. right. now left.
Qed.

Lemma back_app (l : list Tuple) (best : Tuple) :
  back l = Ok best -> exists l', l = l' ++ [best].
Proof.
  unfold back. destruct (rev l) as [|r t] eqn:R; [discriminate|].
  intros [= ->]. exists (rev t).
  rewrite <- (rev_involutive l), R. reflexivity.
Qed.

Lemma back_nonempty (l : list Tuple) :
  l <> [] -> exists best, back l = Ok best.
Proof.
  unfold back. intros N. destruct (rev l) as [|r t] eqn:R; [|eauto].
  apply (f_equal (@rev _)) in R. rewrite rev_involutive in R. now subst.
Qed.

(** The winner of a sorted deque is not below any result. *)
Lemma back_of_sorted_is_max (l : list Tuple) (best : Tuple) :
  back (std_sort E l) = Ok best ->
  In best l /\ forall r, In r l -> tuple_lt E best r = false.
Proof.
  intros B. destruct (back_app _ B) as (l' & Q).
  pose proof (std_sort_sorted l) as S. rewrite Q in S.
  pose proof (std_sort_perm l) as P. split.
  - apply (Permutation_in _ (Permutation_sym P)). rewrite Q.
    apply in_or_app. right. now left.
  - intros r Hr. eapply sorted_last_is_max; [exact S|].
    rewrite <- Q. now apply (Permutation_in _ P).
Qed.

End SortResults.

(** ** The basecalling of one strand *)

Section BasecallStrand.
Context {T : Types}.
Variable E : Kernel T.
Variable opts : Options T.
Variable models : Pore_Model_Dict_Type T.
Variable transitions : State_Transitions_Type T.

Local Abbreviation Summary := (Fast5_Summary_Type T).
Local Abbreviation Tuple := (@Result_Tuple T).

Lemma call_with_model_spec (st : nat) (rs rs1 : Summary)
  (acc res : list Tuple) (m : string) :
  call_with_model E models transitions st (rs, acc) m = Ok (rs1, res) ->
  rs1 = rs
  /\ exists r, res = acc ++ [r]
               /\ evaluate_model E models transitions rs st m = Ok r.
Proof.
  unfold call_with_model, evaluate_model.
  destruct (name_at m models) as [pm0|]; cbn [bind]; [|discriminate].
  destruct (name_at m (get3 (params rs) st)) as [pp|]; cbn [bind];
    [|discriminate].
  destruct (viterbi E (scale E pm0 pp) transitions
              (apply_drift_correction E (get2 (events rs) st) (drift E pp)))
    as [prob seq].
  intros [= <- <-]. split; [reflexivity|]. eauto.
Qed.

(** Every model of the list is evaluated against the events and the
    parameters of the read summary as it was before the loop, and the loop
    leaves the read summary as it was. *)
Lemma call_with_models_spec (st : nat) (l : list string) :
  forall (rs rs1 : Summary) (acc res : list Tuple),
  for_each (call_with_model E models transitions st) l (rs, acc)
  = Ok (rs1, res) ->
  rs1 = rs
  /\ exists news,
      res = acc ++ news
      /\ Forall2 (fun m r => evaluate_model E models transitions rs st m = Ok r)
           l news.
Proof.
  induction l as [|m l IH]; intros rs rs1 acc res; cbn [for_each].
  - intros [= <- <-]. split; [reflexivity|]. exists [].
    rewrite app_nil_r. split; [reflexivity|constructor].
  - destruct (call_with_model E models transitions st (rs, acc) m)
      as [[rs2 acc2]|] eqn:C; cbn [bind]; [|discriminate].
    apply call_with_model_spec in C. destruct C as (-> & r & -> & Ev).
    intros H. apply IH in H. destruct H as (-> & news & -> & F).
    split; [reflexivity|]. exists (r :: news).
    rewrite <- app_assoc. split; [reflexivity|]. now constructor.
Qed.

Lemma call_with_models_length (st : nat) (l : list string)
  (rs rs1 : Summary) (res : list Tuple) :
  for_each (call_with_model E models transitions st) l (rs, []) = Ok (rs1, res)
  -> List.length res = List.length l.
Proof.
  intros H. apply call_with_models_spec in H.
  destruct H as (_ & news & -> & F). cbn [app].
  symmetry. eapply Forall2_length; eassumption.
Qed.

(** What [basecall_strand] does once the results of the strand are known:
    the winner is the last of the sorted results, its name becomes the
    preferred model, its sequence goes to [write_fasta]. *)
Lemma basecall_strand_steps (rs rs1 : Summary) (oss : string) (st : nat)
  (results : list Tuple) (best : Tuple) :
  too_short opts rs st = false ->
  for_each (call_with_model E models transitions st)
    (model_sublist models rs st) (rs, [])
  = Ok (rs1, results) ->
  back (std_sort E results) = Ok best ->
  basecall_strand E opts models transitions (rs, oss) st
  = (oss' <- write_fasta opts oss (record_name rs st) (base_seq best) ;;
     Ok (with_preferred_model rs st (model_name best), oss')).
Proof.
  intros L C B. unfold basecall_strand. rewrite L, C. cbn [bind].
  rewrite B. cbn [bind].
  apply call_with_models_spec in C. destruct C as (-> & _).
  reflexivity.
Qed.

End BasecallStrand.

Lemma get2_set2 {A : Type} (a : array2 A) (i : nat) (x : A) :
  get2 (set2 a i x) i = x.
Proof. destruct i; reflexivity. Qed.

Section Winner.
Context {T : Types}.
Variable E : Kernel T.
Variable opts : Options T.
Variable models : Pore_Model_Dict_Type T.
Variable transitions : State_Transitions_Type T.

(** C5.  In [basecall_reads], for a strand with at least [min_read_len]
    events on which Viterbi has run once per model of the list (giving
    [results], not empty, with comparable probabilities): the results are
    put in ascending order; the last of them is the winner, below which no
    result lies; the winner's base sequence is the one written out, and
    [preferred_model[st]] becomes the winner's model name. *)
Theorem winner_is_last_of_sorted_results
  (rs rs1 : Fast5_Summary_Type T) (oss : string) (st : nat)
  (results : list (@Result_Tuple T)) :
  strict_weak_order (float_lt E) ->
  (0 < fasta_line_width opts)%N ->
  too_short opts rs st = false ->
  for_each (call_with_model E models transitions st)
    (model_sublist models rs st) (rs, [])
  = Ok (rs1, results) ->
  results <> [] ->
  (forall r, In r results ->
     (N.of_nat (String.length (base_seq r)) + fasta_line_width opts
      <= 2 ^ 32)%N) ->
  exists best oss',
    Permutation results (std_sort E results)
    /\ StronglySorted (not_after E) (std_sort E results)
    /\ back (std_sort E results) = Ok best
    /\ In best results
    /\ (forall r, In r results -> tuple_lt E best r = false)
    /\ write_fasta opts oss (record_name rs st) (base_seq best) = Ok oss'
    /\ basecall_strand E opts models transitions (rs, oss) st
       = Ok (with_preferred_model rs st (model_name best), oss')
    /\ get2 (preferred_model (with_preferred_model rs st (model_name best))) st
       = model_name best.
Proof.
  intros FO Wp L C N Len.
  assert (N' : std_sort E results <> []).
  { intros X. pose proof (std_sort_perm E results) as P. rewrite X in P.
    apply Permutation_sym, Permutation_nil in P. contradiction. }
  destruct (back_nonempty N') as (best & B).
  destruct (back_of_sorted_is_max E FO _ B) as (Ib & Mx).
  destruct (write_fasta_format opts (base_seq best) Wp (Len _ Ib) oss
              (record_name rs st)) as (lines & W & _).
  eexists best, _.
  split; [apply std_sort_perm|]. split; [now apply std_sort_sorted|].
  split; [exact B|]. split; [exact Ib|]. split; [exact Mx|].
  split; [exact W|]. split.
  - rewrite (basecall_strand_steps E opts models transitions rs oss st L C B).
    rewrite W. reflexivity.
  - cbn [with_preferred_model preferred_model]. apply get2_set2.
Qed.

(** C6.  The record that [basecall_reads] emits for a strand is appended
    to the worker's buffer as: the header line, which is ">" followed by
    the read id, ":", the name of the source file, ":" and the strand; then
    the base sequence cut into lines of at most [fasta_line_width]
    characters which, put end to end, are the base sequence. *)
Theorem emitted_record_format
  (rs rs1 : Fast5_Summary_Type T) (oss : string) (st : nat)
  (results : list (@Result_Tuple T)) (best : @Result_Tuple T) :
  (0 < fasta_line_width opts)%N ->
  too_short opts rs st = false ->
  for_each (call_with_model E models transitions st)
    (model_sublist models rs st) (rs, [])
  = Ok (rs1, results) ->
  back (std_sort E results) = Ok best ->
  (N.of_nat (String.length (base_seq best)) + fasta_line_width opts
   <= 2 ^ 32)%N ->
  exists rs' lines,
    basecall_strand E opts models transitions (rs, oss) st
    = Ok (rs',
          (oss ++ ">" ++ (read_id rs ++ ":" ++ base_file_name rs ++ ":"
                          ++ decimal st)
               ++ endl ++ lines_text lines)%string)
    /\ glue lines = base_seq best
    /\ Forall (fun l => (N.of_nat (String.length l)
                         <= fasta_line_width opts)%N) lines.
Proof.
  intros Wp L C B Len.
  destruct (write_fasta_format opts (base_seq best) Wp Len oss
              (record_name rs st)) as (lines & W & G & F).
  exists (with_preferred_model rs st (model_name best)), lines.
  split; [|auto].
  rewrite (basecall_strand_steps E opts models transitions rs oss st L C B).
  rewrite W. reflexivity.
Qed.

End Winner.

Lemma winner_is_last_of_sorted_results_witness :
  let E := Sample.kernel Sample.train_rising Sample.decode in
  let opts := Sample.options false false 10 4 in
  let results : list (@Result_Tuple Sample.types) :=
    [(0%Z, "a", "ACGTACGTAC"); (2%Z, "c", "ACGTACGTAC")]%string in
  exists best oss',
    Permutation results (std_sort E results)
    /\ StronglySorted (not_after E) (std_sort E results)
    /\ back (std_sort E results) = Ok best
    /\ In best results
    /\ (forall r, In r results -> tuple_lt E best r = false)
    /\ write_fasta opts "" (record_name Sample.read 0) (base_seq best)
       = Ok oss'
    /\ basecall_strand E opts Sample.models tt (Sample.read, ""%string) 0
       = Ok (with_preferred_model Sample.read 0 (model_name best), oss')
    /\ get2 (preferred_model
               (with_preferred_model Sample.read 0 (model_name best))) 0
       = model_name best.
Proof.
  intros E opts results.
  apply (@winner_is_last_of_sorted_results Sample.types E opts Sample.models
           tt Sample.read Sample.read ""%string 0 results).
  - exact Z_ltb_strict_weak_order.
  - reflexivity.
  - reflexivity.
  - reflexivity.
  - discriminate.
  - intros r [<-|[<-|[]]]; vm_compute; discriminate.
Defined.

Lemma emitted_record_format_witness :
  let E := Sample.kernel Sample.train_rising Sample.decode in
  let opts := Sample.options false false 10 4 in
  exists rs' lines,
    basecall_strand E opts Sample.models tt (Sample.read, ""%string) 0
    = Ok (rs',
          ("" ++ ">" ++ ("r1" ++ ":" ++ "f1.fast5" ++ ":" ++ decimal 0)
              ++ endl ++ lines_text lines)%string)
    /\ glue lines = "ACGTACGTAC"%string
    /\ Forall (fun l => (N.of_nat (String.length l) <= 4)%N) lines.
Proof.
  intros E opts.
  apply (@emitted_record_format Sample.types E opts Sample.models tt
           Sample.read Sample.read ""%string 0
           [(0%Z, "a", "ACGTACGTAC"); (2%Z, "c", "ACGTACGTAC")]%string
           (2%Z, "c", "ACGTACGTAC")%string).
  - reflexivity.
  - reflexivity.
  - reflexivity.
  - reflexivity.
  - vm_compute. discriminate.
Defined.

(** The record of strand 0 of the sample read, at four columns. *)
Example emitted_record_on_sample :
  basecall_strand (Sample.kernel Sample.train_rising Sample.decode)
    (Sample.options false false 10 4) Sample.models tt
    (Sample.read, ""%string) 0
  = Ok (with_preferred_model Sample.read 0 "c",
        (">r1:f1.fast5:0" ++ endl ++ "ACGT" ++ endl ++ "ACGT" ++ endl
         ++ "AC" ++ endl)%string).
Proof. vm_compute. reflexivity. Qed.

(** ** C10: what basecalling a read leaves alone *)

Section Frame.
Context {T : Types}.
Variable E : Kernel T.
Variable opts : Options T.
Variable models : Pore_Model_Dict_Type T.
Variable transitions : State_Transitions_Type T.

Local Abbreviation Summary := (Fast5_Summary_Type T).

Lemma evaluate_model_frame (rs rs' : Summary) (st : nat) (m : string) :
  events rs' = events rs -> params rs' = params rs ->
  evaluate_model E models transitions rs' st m
  = evaluate_model E models transitions rs st m.
Proof.
  intros He Hp. unfold evaluate_model. now rewrite He, Hp.
Qed.

(** One strand: the summary changes in [preferred_model[st]] only, and
    the results are the evaluations of the listed models against the
    summary as it was. *)
Lemma basecall_strand_frame (rs rs' : Summary) (oss oss' : string) (st : nat) :
  basecall_strand E opts models transitions (rs, oss) st = Ok (rs', oss') ->
  events rs' = events rs
  /\ params rs' = params rs
  /\ (too_short opts rs st = true -> rs' = rs /\ oss' = oss)
  /\ (too_short opts rs st = false ->
      exists results best,
        Forall2
          (fun m r => evaluate_model E models transitions rs st m = Ok r)
          (model_sublist models rs st) results
        /\ back (std_sort E results) = Ok best
        /\ preferred_model rs'
           = set2 (preferred_model rs) st (model_name best)).
Proof.
  unfold basecall_strand.
  destruct (too_short opts rs st) eqn:L.
  - intros [= <- <-]. repeat split; auto. discriminate.
  - destruct (for_each (call_with_model E models transitions st)
                (model_sublist models rs st) (rs, []))
      as [[rs1 results]|] eqn:C; cbn [bind]; [|discriminate].
    destruct (back (std_sort E results)) as [best|] eqn:B; cbn [bind];
      [|discriminate].
    destruct (write_fasta opts oss
                (record_name (with_preferred_model rs1 st (model_name best)) st)
                (base_seq best)) as [o|]; cbn [bind]; [|discriminate].
    intros [= <- <-].
    apply call_with_models_spec in C. destruct C as (-> & news & -> & F).
    cbn [app] in B.
    repeat split; try discriminate.
    intros _. exists news, best. auto.
Qed.

(** C10.  Between [load_events] and [drop_events], [basecall_reads]
    leaves the events (and the parameters) of the read summary as they
    were; for each strand with enough events, the results it sorts are the
    evaluations of the models of the list, each on the model of the
    dictionary scaled by the stored parameters and on the stored events
    corrected by the stored drift, all taken from the summary as it was
    before the read was processed; the winner becomes the preferred
    model. *)
Theorem basecall_leaves_events_alone (rs rs' : Summary) (oss oss' : string) :
  basecall_loaded E opts models transitions rs oss = Ok (rs', oss') ->
  events rs' = events rs
  /\ params rs' = params rs
  /\ forall st, st < 2 -> too_short opts rs st = false ->
       exists results best,
         Forall2
           (fun m r => evaluate_model E models transitions rs st m = Ok r)
           (model_sublist models rs st) results
         /\ back (std_sort E results) = Ok best
         /\ get2 (preferred_model rs') st = model_name best.
Proof.
  unfold basecall_loaded. cbn [for_each].
  destruct (basecall_strand E opts models transitions (rs, oss) 0)
    as [[rs0 oss0]|] eqn:S0; cbn [bind]; [|discriminate].
  destruct (basecall_strand E opts models transitions (rs0, oss0) 1)
    as [[rs1 oss1]|] eqn:S1; cbn [bind]; [|discriminate].
  intros [= <- <-].
  apply basecall_strand_frame in S0. destruct S0 as (E0 & P0 & Sh0 & Lg0).
  apply basecall_strand_frame in S1. destruct S1 as (E1 & P1 & Sh1 & Lg1).
  assert (TS : too_short opts rs0 1 = too_short opts rs 1)
    by (unfold too_short; now rewrite E0).
  split; [congruence|]. split; [congruence|].
  intros st Hst L. assert (C : st = 0 \/ st = 1) by lia.
  destruct C as [-> | ->].
  - destruct (Lg0 L) as (results & best & F & B & Pm).
    exists results, best. split; [exact F|]. split; [exact B|].
    destruct (too_short opts rs0 1) eqn:L1.
    + destruct (Sh1 eq_refl) as [-> _]. rewrite Pm. reflexivity.
    + destruct (Lg1 eq_refl) as (r1 & b1 & _ & _ & Pm1).
      rewrite Pm1, Pm. reflexivity.
  - rewrite L in TS. destruct (Lg1 TS) as (results & best & F & B & Pm).
    exists results, best.
    assert (Q : model_sublist models rs0 1 = model_sublist models rs 1).
    { unfold model_sublist, model_shortlist.
      destruct (too_short opts rs 0) eqn:L0.
      - now destruct (Sh0 eq_refl) as [-> _].
      - destruct (Lg0 eq_refl) as (r0 & b0 & _ & _ & Pm0).
        now rewrite Pm0. }
    rewrite Q in F. split.
    + eapply Forall2_impl; [|exact F]. cbv beta. intros m r H.
      now rewrite <- (evaluate_model_frame rs rs0 1 m E0 P0).
    + split; [exact B|]. rewrite Pm. reflexivity.
Qed.

End Frame.

Lemma basecall_leaves_events_alone_witness :
  let E := Sample.kernel Sample.train_rising Sample.decode in
  let opts := Sample.options false false 10 4 in
  let rs' :=
    with_preferred_model (with_preferred_model Sample.read 0 "c") 1 "c" in
  events rs' = events Sample.read
  /\ params rs' = params Sample.read
  /\ forall st, st < 2 -> too_short opts Sample.read st = false ->
       exists results best,
         Forall2
           (fun m r => evaluate_model E Sample.models tt Sample.read st m
                       = Ok r)
           (model_sublist Sample.models Sample.read st) results
         /\ back (std_sort E results) = Ok best
         /\ get2 (preferred_model rs') st = model_name best.
Proof.
  intros E opts rs'.
  apply (@basecall_leaves_events_alone Sample.types E opts Sample.models tt
           Sample.read rs' ""%string
           (">r1:f1.fast5:0" ++ endl ++ "ACGT" ++ endl ++ "ACGT" ++ endl
            ++ "AC" ++ endl
            ++ ">r1:f1.fast5:1" ++ endl ++ "ACGT" ++ endl ++ "ACGT" ++ endl
            ++ "AC" ++ endl)%string).
  vm_compute. reflexivity.
Defined.

(** ** C7: a run that finds no read *)

Section NoReads.
Context {T : Types}.
Variable E : Kernel T.
Variable R : Reader T.
Variable opts : Options T.

Lemma pfor_serial_no_item {St : Type} (fuel chunk_size : nat)
  (process_item : nat -> St * string -> result (St * string))
  (s : St) (os : string) :
  pfor_serial fuel chunk_size 0 process_item 0 s os = Ok (s, os).
Proof.
  destruct fuel, chunk_size; reflexivity.
Qed.

(** C7 (amended).  When the inputs hold no valid fast5 file, the program
    exits with [EXIT_FAILURE] and the diagnostic "no fast5 files to
    process".  When files are found and no read of them passes the filter
    of [init_reads], no read is processed, no sequence record is written,
    and the program ends with [EXIT_SUCCESS] and no diagnostic. *)
Theorem run_without_reads (models : Pore_Model_Dict_Type T) :
  init_models R opts = Ok models ->
  (fold_left (add_input R) (input_fn opts) [] = [] ->
   real_main E R opts
   = Raise (exit_called EXIT_FAILURE "no fast5 files to process"))
  /\
  (forall files,
      init_files R opts = Ok files ->
      init_reads R opts models files = [] ->
      real_main E R opts
      = Ok (EXIT_SUCCESS,
            {| scaling_log := [];
               sequence_output :=
                 if scale_only opts then None else Some ""%string;
               stats_output :=
                 if (stats_fn opts =? "")%string then None
                 else Some ""%string |})).
Proof.
  intros Hm. split.
  - intros Hf. unfold real_main. rewrite Hm. cbn [bind].
    unfold init_files. now rewrite Hf.
  - intros files Hf Hr. unfold real_main. rewrite Hm. cbn [bind].
    rewrite Hf. cbn [bind]. rewrite Hr.
    unfold rescale_reads, basecall_reads. cbn [List.length].
    rewrite !pfor_serial_no_item.
    destruct (accurate_scaling opts || scale_strands_together opts
              || scale_select_model_single_round opts);
      destruct (scale_only opts); destruct (stats_fn opts =? "")%string;
      reflexivity.
Qed.

End NoReads.

Lemma run_without_reads_witness :
  let E := Sample.kernel Sample.train_rising Sample.decode in
  let R := Sample.reader Sample.read_without_events in
  let opts := Sample.options_with [] ["reads"%string] in
  real_main E R opts
  = Ok (EXIT_SUCCESS,
        {| scaling_log := [];
           sequence_output := Some ""%string;
           stats_output := None |}).
Proof.
  intros E R opts.
  refine (proj2 (@run_without_reads Sample.types E R opts
                   [("c"%string, Sample.model 1); ("t"%string, Sample.model 0)]
                   _)
            ["reads"%string] _ _); reflexivity.
Defined.

(** C7 as stated fails: the one input file is a valid fast5 file whose
    read has no detected events, so the deque of reads is empty after
    [init_reads]; the program ends with exit code 0 and no diagnostic. *)
Lemma no_reads_exits_with_success :
  let E := Sample.kernel Sample.train_rising Sample.decode in
  let R := Sample.reader Sample.read_without_events in
  let opts := Sample.options_with [] ["reads"%string] in
  have_ed_events (summarize R "reads" [] false) = false
  /\ (exists models files,
         init_models R opts = Ok models
         /\ init_files R opts = Ok files
         /\ init_reads R opts models files = [])
  /\ exit_code (real_main E R opts) = Some 0
  /\ diagnostic (real_main E R opts) = None.
Proof.
  cbv zeta. split; [reflexivity|]. split.
  - eexists. eexists. repeat split.
  - split; reflexivity.
Qed.

(** ** C9: a strand without candidate models *)

(** The two-element array [model_list], which the assertion of
    [rescale_reads] tests, is not empty whatever the lists in it are. *)
Lemma model_list_array_has_two_lists {T : Types} (opts : Options T)
  (models : Pore_Model_Dict_Type T) (rs : Fast5_Summary_Type T) :
  exists l0 l1, rescale_model_list opts models rs = (l0, l1).
Proof.
  destruct (rescale_model_list opts models rs) as [l0 l1]. eauto.
Qed.

(** C9 fails on the code.  The same file is given as the model of strand 0
    and of strand 1 ("0:foo.model", "1:foo.model"): the consistency check
    of [init_models] passes, the second load overwrites the first under
    the one name, and the dictionary holds a single model, of strand 1.
    For a read without preferred model whose strand 0 has enough events,
    [rescale_reads] builds an empty list for strand 0, and
    [basecall_reads] goes on to take [back()] of an empty deque. *)
Example shortlist_empty_after_name_clash :
  let E := Sample.kernel Sample.train_rising Sample.decode in
  let R := Sample.reader Sample.read_foo in
  let opts :=
    Sample.options_with ["0:foo.model"; "1:foo.model"]%string
      ["reads"%string] in
  let models := [("foo.model"%string, Sample.model 1)] in
  init_models R opts = Ok models
  /\ too_short opts Sample.read_foo 0 = false
  /\ get2 (rescale_model_list opts models Sample.read_foo) 0 = []
  /\ is_ok (rescale_loaded E opts models tt Sample.read_foo) = true
  /\ basecall_strand E opts models tt (Sample.read_foo, ""%string) 0
     = Raise back_of_empty_deque
  /\ real_main E R opts = Raise back_of_empty_deque.
Proof.
  cbv zeta. repeat split; vm_compute; reflexivity.
Qed.

(** ** C8: the order of the output with several workers *)

Lemma glue_app (a b : list string) :
  glue (a ++ b) = (glue a ++ glue b)%string.
Proof.
  induction a as [|x a IH]; cbn [app glue]; [reflexivity|].
  now rewrite IH, append_assoc.
Qed.

Lemma nth_error_deque_set {A : Type} (l : list A) (w w' : nat) (x y : A) :
  nth_error (deque_set l w x) w' = Some y ->
  (w' = w /\ y = x) \/ (w' <> w /\ nth_error l w' = Some y).
Proof.
  revert w w'. induction l as [|a l IH]; intros w w'.
  - destruct w, w'; discriminate.
  - destruct w as [|w], w' as [|w']; cbn [deque_set nth_error].
    + intros [= <-]. now left.
    + intros H. right. split; [discriminate|exact H].
    + intros H. right. split; [discriminate|exact H].
    + intros H. destruct (IH _ _ H) as [[-> ->]|[N H']]; [now left|].
      right. split; [congruence|exact H'].
Qed.

Lemma nth_error_deque_set_same {A : Type} (l : list A) (w : nat) (a x : A) :
  nth_error l w = Some a -> nth_error (deque_set l w x) w = Some x.
Proof.
  revert w. induction l as [|b l IH]; intros [|w]; cbn; try discriminate;
    auto.
Qed.

Lemma nth_error_deque_set_other {A : Type} (l : list A) (w w' : nat) (x : A) :
  w' <> w -> nth_error (deque_set l w x) w' = nth_error l w'.
Proof.
  revert w w'. induction l as [|b l IH]; intros [|w] [|w'] N; cbn;
    try reflexivity; try congruence.
  apply IH. congruence.
Qed.

Lemma in_deque_set {A : Type} (l : list A) (w : nat) (x y : A) :
  In y (deque_set l w x) -> y = x \/ In y l.
Proof.
  revert w. induction l as [|b l IH]; intros [|w]; cbn; try tauto.
  - intros [<-|H]; auto.
  - intros [<-|H]; auto. destruct (IH _ H); auto.
Qed.

(** The producer hands out the indices in increasing order: a request for
    a batch at the counter [crt_idx] yields the next
    [min chunk_size (size - crt_idx)] indices and advances the counter past
    them. *)
Lemma fetch_chunk_spec (chunk_size size crt_idx : nat) :
  fetch_chunk chunk_size size crt_idx
  = (seq crt_idx (Nat.min chunk_size (size - crt_idx)),
     crt_idx + Nat.min chunk_size (size - crt_idx)).
Proof.
  revert crt_idx. induction chunk_size as [|cs IH]; intros crt.
  - cbn [fetch_chunk Nat.min seq]. now rewrite Nat.add_0_r.
  - cbn [fetch_chunk]. unfold get_item.
    destruct (size <=? crt) eqn:C.
    + apply Nat.leb_le in C.
      replace (size - crt) with 0 by lia.
      rewrite Nat.min_0_r. cbn [seq]. now rewrite Nat.add_0_r.
    + apply Nat.leb_gt in C. rewrite IH.
      replace (size - crt) with (S (size - S crt)) by lia.
      rewrite <- Nat.succ_min_distr. cbn [seq]. f_equal. lia.
Qed.

Section HarnessOrder.
Variable St : Type.
Variable chunk_size : nat.
Variable size : nat.
Variable process_item : nat -> St * string -> result (St * string).
Variable s0 : St.
Variable os0 : string.

(** [fresh s i]: in the state [s], item [i] is as it was at the start.
    [text i]: what processing item [i] appends to a buffer. *)
Variable fresh : St -> nat -> Prop.
Variable text : nat -> string.
Hypothesis fresh_start : forall i, fresh s0 i.
Hypothesis item_local :
  forall i s oss s' oss',
    process_item i (s, oss) = Ok (s', oss') ->
    forall j, j <> i -> fresh s j -> fresh s' j.
Hypothesis item_text :
  forall i s oss s' oss',
    process_item i (s, oss) = Ok (s', oss') ->
    fresh s i -> oss' = (oss ++ text i)%string.

Local Abbreviation step := (pfor_step chunk_size size process_item).

Lemma texts_app (a b : list nat) :
  texts text (a ++ b) = (texts text a ++ texts text b)%string.
Proof.
  unfold texts. now rewrite map_app, glue_app.
Qed.

Lemma in_chunk_items (c i : nat) :
  In i (chunk_items chunk_size size c) ->
  c * chunk_size <= i < (c + 1) * chunk_size /\ i < size.
Proof.
  unfold chunk_items. rewrite in_seq. lia.
Qed.

Lemma chunk_items_disjoint (c c' i : nat) :
  In i (chunk_items chunk_size size c) -> In i (chunk_items chunk_size size c') -> c = c'.
Proof.
  intros H H'. apply in_chunk_items in H, H'.
  destruct (Nat.lt_trichotomy c c') as [L|[L|L]]; [|exact L|].
  - assert ((c + 1) * chunk_size <= c' * chunk_size)
      by (apply Nat.mul_le_mono_r; lia). lia.
  - assert ((c' + 1) * chunk_size <= c * chunk_size)
      by (apply Nat.mul_le_mono_r; lia). lia.
Qed.

Lemma inv_start (num_threads : nat) : Inv chunk_size size os0 fresh text (pfor_start num_threads s0 os0).
Proof.
  split; cbn [pfor_start h_crt_idx h_next_chunk h_written h_os h_workers
                h_state]; try lia; auto.
  - cbn. now rewrite append_nil_r.
  - intros w c todo oss H. apply nth_error_In, repeat_spec in H.
    discriminate.
  - intros w w' c todo oss todo' oss' H. apply nth_error_In, repeat_spec in H.
    discriminate.
  - intros _ H. apply repeat_spec in H. discriminate.
Qed.

Lemma inv_take (h : Harness St) (w : nat) (items : list nat) (crt' : nat) :
  Inv chunk_size size os0 fresh text h ->
  nth_error (h_workers h) w = Some Idle ->
  fetch_chunk chunk_size size (h_crt_idx h) = (items, crt') ->
  items <> [] ->
  Inv chunk_size size os0 fresh text {| h_crt_idx := crt';
         h_next_chunk := S (h_next_chunk h);
         h_written := h_written h;
         h_state := h_state h;
         h_os := h_os h;
         h_workers :=
           deque_set (h_workers h) w (Working (h_next_chunk h) items "") |}.
Proof.
  intros I Hw Hf Hne. rewrite fetch_chunk_spec in Hf.
  injection Hf as <- <-.
  assert (P : 0 < chunk_size /\ h_next_chunk h * chunk_size < size).
  { destruct (Nat.min chunk_size (size - h_crt_idx h)) eqn:M;
      [cbn in Hne; congruence|].
    pose proof (inv_crt I). lia. }
  destruct P as [P1 P2].
  assert (C : h_crt_idx h = h_next_chunk h * chunk_size)
    by (pose proof (inv_crt I); lia).
  split; cbn [h_crt_idx h_next_chunk h_written h_os h_workers h_state].
  - rewrite C. cbn [Nat.mul]. lia.
  - intros c Hc. split; [exact P1|].
    assert (c * chunk_size <= h_next_chunk h * chunk_size)
      by (apply Nat.mul_le_mono_r; lia). lia.
  - pose proof (inv_written I). lia.
  - apply (inv_os I).
  - intros w' c todo oss H.
    destruct (nth_error_deque_set _ _ _ _ H) as [[-> [= -> -> ->]]|[N H']].
    + split; [pose proof (inv_written I); lia|].
      exists []. cbn [app]. split; [unfold chunk_items; now rewrite C|].
      split; [reflexivity|].
      intros i Hi. apply (inv_fresh I). apply in_seq in Hi. lia.
    + destruct (inv_worker I _ H') as (B & D). split; [lia|exact D].
  - intros w1 w2 c todo oss todo' oss' H1 H2.
    destruct (nth_error_deque_set _ _ _ _ H1) as [[-> Q1]|[N1 H1']];
      destruct (nth_error_deque_set _ _ _ _ H2) as [[-> Q2]|[N2 H2']];
      try reflexivity.
    + injection Q1 as -> _ _.
      destruct (inv_worker I _ H2') as (B & _). lia.
    + injection Q2 as -> _ _.
      destruct (inv_worker I _ H1') as (B & _). lia.
    + eapply (inv_unique I); eassumption.
  - intros c Hc.
    destruct (Nat.eq_dec c (h_next_chunk h)) as [->|N].
    + eexists w, _, _. eapply nth_error_deque_set_same. exact Hw.
    + destruct (@inv_held _ _ _ _ _ _ h I c) as (w' & todo & oss & H); [lia|].
      exists w', todo, oss. rewrite nth_error_deque_set_other; [exact H|].
      intros ->. congruence.
  - intros i Hi. apply (inv_fresh I). lia.
  - intros _ F. apply in_deque_set in F. destruct F as [F|F]; [discriminate|].
    pose proof (inv_finished I P1 F). lia.
Qed.

Lemma inv_retire (h : Harness St) (w : nat) (crt' : nat) :
  Inv chunk_size size os0 fresh text h ->
  nth_error (h_workers h) w = Some Idle ->
  fetch_chunk chunk_size size (h_crt_idx h) = ([], crt') ->
  Inv chunk_size size os0 fresh text {| h_crt_idx := h_crt_idx h;
         h_next_chunk := h_next_chunk h;
         h_written := h_written h;
         h_state := h_state h;
         h_os := h_os h;
         h_workers := deque_set (h_workers h) w Finished |}.
Proof.
  intros I Hw Hf. rewrite fetch_chunk_spec in Hf. injection Hf as Hs _.
  split; cbn [h_crt_idx h_next_chunk h_written h_os h_workers h_state].
  - apply (inv_crt I).
  - apply (inv_nonempty I).
  - apply (inv_written I).
  - apply (inv_os I).
  - intros w' c todo oss H.
    destruct (nth_error_deque_set _ _ _ _ H) as [[_ Q]|[N H']];
      [discriminate|].
    apply (@inv_worker _ _ _ _ _ _ h I w' c todo oss H').
  - intros w1 w2 c todo oss todo' oss' H1 H2.
    destruct (nth_error_deque_set _ _ _ _ H1) as [[_ Q]|[N1 H1']];
      [discriminate|].
    destruct (nth_error_deque_set _ _ _ _ H2) as [[_ Q]|[N2 H2']];
      [discriminate|].
    eapply (inv_unique I); eassumption.
  - intros c Hc.
    destruct (@inv_held _ _ _ _ _ _ h I c Hc) as (w' & todo & oss & H).
    exists w', todo, oss. rewrite nth_error_deque_set_other; [exact H|].
    intros ->. congruence.
  - apply (inv_fresh I).
  - intros P _.
    destruct (Nat.min chunk_size (size - h_crt_idx h)) eqn:M;
      [|discriminate].
    pose proof (inv_crt I). lia.
Qed.

Lemma inv_work (h : Harness St) (w c i : nat) (todo : list nat)
  (oss oss' : string) (s' : St) :
  Inv chunk_size size os0 fresh text h ->
  nth_error (h_workers h) w = Some (Working c (i :: todo) oss) ->
  process_item i (h_state h, oss) = Ok (s', oss') ->
  Inv chunk_size size os0 fresh text {| h_crt_idx := h_crt_idx h;
         h_next_chunk := h_next_chunk h;
         h_written := h_written h;
         h_state := s';
         h_os := h_os h;
         h_workers := deque_set (h_workers h) w (Working c todo oss') |}.
Proof.
  intros I Hw Hp.
  destruct (@inv_worker _ _ _ _ _ _ h I w c (i :: todo) oss Hw)
    as (B & done & Ci & Eo & Fr).
  assert (Ii : In i (chunk_items chunk_size size c))
    by (rewrite Ci; apply in_or_app; right; now left).
  assert (Nd : NoDup (done ++ i :: todo))
    by (rewrite <- Ci; apply seq_NoDup).
  assert (Li : i < h_crt_idx h).
  { apply in_chunk_items in Ii. rewrite (inv_crt I).
    assert ((c + 1) * chunk_size <= h_next_chunk h * chunk_size)
      by (apply Nat.mul_le_mono_r; lia). lia. }
  split; cbn [h_crt_idx h_next_chunk h_written h_os h_workers h_state].
  - apply (inv_crt I).
  - apply (inv_nonempty I).
  - apply (inv_written I).
  - apply (inv_os I).
  - intros w' c' todo' o' H.
    destruct (nth_error_deque_set _ _ _ _ H) as [[-> Q]|[N H']].
    + injection Q as -> -> ->. split; [exact B|].
      exists (done ++ [i]). rewrite <- app_assoc. split; [exact Ci|]. split.
      * rewrite texts_app. unfold texts at 2. cbn [map glue].
        rewrite append_nil_r, <- Eo.
        eapply item_text; [exact Hp|]. apply Fr. now left.
      * intros j Hj. eapply item_local; [exact Hp| |].
        -- intros ->. apply NoDup_remove_2 in Nd. apply Nd.
           apply in_or_app. now right.
        -- apply Fr. now right.
    + destruct (@inv_worker _ _ _ _ _ _ h I w' c' todo' o' H')
        as (B' & done' & Ci' & Eo' & Fr').
      split; [exact B'|]. exists done'. split; [exact Ci'|].
      split; [exact Eo'|].
      intros j Hj. eapply item_local; [exact Hp| |now apply Fr'].
      intros ->. apply N.
      assert (c' = c).
      { eapply chunk_items_disjoint; [|exact Ii].
        rewrite Ci'. apply in_or_app. now right. }
      subst c'. eapply (inv_unique I); eassumption.
  - intros w1 w2 c' t1 o1 t2 o2 H1 H2.
    destruct (nth_error_deque_set _ _ _ _ H1) as [[-> Q1]|[N1 H1']];
      destruct (nth_error_deque_set _ _ _ _ H2) as [[-> Q2]|[N2 H2']];
      try reflexivity.
    + injection Q1 as -> _ _. eapply (inv_unique I); eassumption.
    + injection Q2 as -> _ _. eapply (inv_unique I); eassumption.
    + eapply (inv_unique I); eassumption.
  - intros c' Hc.
    destruct (@inv_held _ _ _ _ _ _ h I c' Hc) as (w' & todo' & o' & H).
    destruct (Nat.eq_dec w' w) as [->|N].
    + rewrite Hw in H. injection H as <- _ _.
      eexists w, _, _. eapply nth_error_deque_set_same. exact Hw.
    + exists w', todo', o'. now rewrite nth_error_deque_set_other.
  - intros j Hj. eapply item_local; [exact Hp|lia|].
    now apply (inv_fresh I).
  - intros P F. apply in_deque_set in F. destruct F as [F|F]; [discriminate|].
    apply (inv_finished I P F).
Qed.

Lemma inv_drain (h : Harness St) (w : nat) (oss : string) :
  Inv chunk_size size os0 fresh text h ->
  nth_error (h_workers h) w = Some (Working (h_written h) [] oss) ->
  Inv chunk_size size os0 fresh text {| h_crt_idx := h_crt_idx h;
         h_next_chunk := h_next_chunk h;
         h_written := S (h_written h);
         h_state := h_state h;
         h_os := (h_os h ++ oss)%string;
         h_workers := deque_set (h_workers h) w Idle |}.
Proof.
  intros I Hw.
  destruct (@inv_worker _ _ _ _ _ _ h I w (h_written h) [] oss Hw)
    as (B & done & Ci & Eo & _).
  rewrite app_nil_r in Ci. subst done.
  destruct (inv_nonempty I (proj2 B)) as [P1 P2].
  split; cbn [h_crt_idx h_next_chunk h_written h_os h_workers h_state].
  - apply (inv_crt I).
  - apply (inv_nonempty I).
  - lia.
  - rewrite (inv_os I), Eo, append_assoc, <- texts_app. do 2 f_equal.
    unfold chunk_items.
    replace (Nat.min (h_written h * chunk_size) size)
      with (h_written h * chunk_size) by lia.
    rewrite <- seq_app. f_equal. cbn [Nat.mul]. lia.
  - intros w' c todo o' H.
    destruct (nth_error_deque_set _ _ _ _ H) as [[_ Q]|[N H']];
      [discriminate|].
    destruct (@inv_worker _ _ _ _ _ _ h I w' c todo o' H') as (B' & D).
    split; [|exact D]. split; [|lia].
    destruct (Nat.eq_dec c (h_written h)) as [->|Nc]; [|lia].
    exfalso. apply N. eapply (inv_unique I); eassumption.
  - intros w1 w2 c t1 o1 t2 o2 H1 H2.
    destruct (nth_error_deque_set _ _ _ _ H1) as [[_ Q]|[N1 H1']];
      [discriminate|].
    destruct (nth_error_deque_set _ _ _ _ H2) as [[_ Q]|[N2 H2']];
      [discriminate|].
    eapply (inv_unique I); eassumption.
  - intros c Hc.
    destruct (@inv_held _ _ _ _ _ _ h I c) as (w' & todo & o' & H); [lia|].
    exists w', todo, o'. rewrite nth_error_deque_set_other; [exact H|].
    intros ->. rewrite Hw in H. injection H as ? _ _. lia.
  - apply (inv_fresh I).
  - intros P F. apply in_deque_set in F. destruct F as [F|F]; [discriminate|].
    apply (inv_finished I P F).
Qed.

Lemma inv_step (h h' : Harness St) : Inv chunk_size size os0 fresh text h -> step h h' -> Inv chunk_size size os0 fresh text h'.
Proof.
  intros I S. destruct S.
  - eapply inv_take; eassumption.
  - eapply inv_retire; eassumption.
  - eapply inv_work; eassumption.
  - eapply inv_drain; eassumption.
Qed.

Lemma inv_reaches (num_threads : nat) (h : Harness St) :
  pfor_reaches chunk_size size process_item
    (pfor_start num_threads s0 os0) h ->
  Inv chunk_size size os0 fresh text h.
Proof.
  unfold pfor_reaches. induction 1 as [|h h' S _ IH].
  - apply inv_start.
  - eapply inv_step; eassumption.
Qed.

(** Whatever the number of workers and the order of their steps, the
    output stream holds the texts text of the items [0 .. k-1] in this order,
    for some [k]; once all workers have left, [k] is the number of items. *)
Lemma harness_output_in_order (num_threads : nat) (h : Harness St) :
  pfor_reaches chunk_size size process_item
    (pfor_start num_threads s0 os0) h ->
  exists k,
    k <= size
    /\ h_os h = (os0 ++ texts text (seq 0 k))%string
    /\ (0 < chunk_size -> 0 < num_threads -> pfor_done h -> k = size).
Proof.
  intros Hr. pose proof (inv_reaches Hr) as I.
  exists (Nat.min (h_written h * chunk_size) size).
  split; [lia|]. split; [apply (inv_os I)|].
  intros P Pn D.
  assert (Len : forall h1 h2, step h1 h2 ->
                  List.length (h_workers h2) = List.length (h_workers h1)).
  { assert (Ls : forall (l : list Worker) w x,
               List.length (deque_set l w x) = List.length l).
    { induction l as [|a l IHl]; intros [|w] x; cbn; auto. }
    intros h1 h2 S. destruct S; cbn [h_workers]; apply Ls. }
  assert (Lw : List.length (h_workers h) = num_threads).
  { clear I D. unfold pfor_reaches in Hr.
    induction Hr as [|h1 h2 S _ IH].
    - cbn. apply repeat_length.
    - rewrite (Len _ _ S). exact IH. }
  assert (W : h_written h = h_next_chunk h).
  { destruct (Nat.eq_dec (h_written h) (h_next_chunk h)) as [e|N]; [exact e|].
    destruct (@inv_held _ _ _ _ _ _ h I (h_written h)) as (w & todo & oss & H).
    - pose proof (inv_written I). lia.
    - apply nth_error_In in H. unfold pfor_done in D.
      rewrite Forall_forall in D. specialize (D _ H). discriminate. }
  assert (F : In Finished (h_workers h)).
  { unfold pfor_done in D. destruct (h_workers h) as [|a l]; [cbn in Lw; lia|].
    inversion D; subst. now left. }
  pose proof (inv_finished I P F). pose proof (inv_crt I). rewrite W. lia.
Qed.

End HarnessOrder.

(** *** The item processor of [basecall_reads] only appends *)

Section AppendOnly.
Context {T : Types}.
Variable E : Kernel T.
Variable R : Reader T.
Variable opts : Options T.
Variable models : Pore_Model_Dict_Type T.
Variable transitions : State_Transitions_Type T.

Lemma write_fasta_line_prefix (seq o os : string) (pos : N) :
  write_fasta_line opts seq ((o ++ os)%string, pos)
  = with_prefix o (write_fasta_line opts seq (os, pos)).
Proof.
  unfold write_fasta_line, with_prefix.
  destruct (pos <? N.of_nat (String.length seq))%N; [|reflexivity].
  now rewrite append_assoc.
Qed.

Lemma iterate_nat_prefix (seq o : string) (n : nat) :
  forall (os : string) (pos : N),
  iterate_nat n (write_fasta_line opts seq) ((o ++ os)%string, pos)
  = with_prefix o (iterate_nat n (write_fasta_line opts seq) (os, pos)).
Proof.
  induction n as [|n IH]; intros os pos; [reflexivity|].
  rewrite !iterate_nat_step, write_fasta_line_prefix.
  destruct (write_fasta_line opts seq (os, pos)) as [[os' pos']|os'];
    cbn [with_prefix]; [apply IH|reflexivity].
Qed.

Lemma write_fasta_prefix (os name seq : string) :
  write_fasta opts os name seq
  = (text <- write_fasta opts "" name seq ;; Ok (os ++ text)%string).
Proof.
  unfold write_fasta. rewrite !iterate_unary.
  change ("" ++ ">" ++ name ++ endl)%string with (">" ++ name ++ endl)%string.
  rewrite iterate_nat_prefix.
  destruct (iterate_nat (Pos.to_nat (2 ^ 32)) (write_fasta_line opts seq)
              ((">" ++ name ++ endl)%string, 0%N)) as [[os' pos']|os'];
    reflexivity.
Qed.

Lemma basecall_strand_prefix (rs : Fast5_Summary_Type T) (oss : string)
  (st : nat) :
  basecall_strand E opts models transitions (rs, oss) st
  = ('(rs', text) <-
       basecall_strand E opts models transitions (rs, ""%string) st ;;
     Ok (rs', (oss ++ text)%string)).
Proof.
  unfold basecall_strand.
  destruct (too_short opts rs st).
  - cbn [bind]. now rewrite append_nil_r.
  - destruct (for_each (call_with_model E models transitions st)
                (model_sublist models rs st) (rs, []))
      as [[rs1 results]|]; cbn [bind]; [|reflexivity].
    destruct (back (std_sort E results)) as [best|]; cbn [bind];
      [|reflexivity].
    rewrite write_fasta_prefix.
    destruct (write_fasta opts ""
                (record_name (with_preferred_model rs1 st (model_name best))
                   st) (base_seq best)); reflexivity.
Qed.

Lemma basecall_item_prefix (read_summary : Fast5_Summary_Type T)
  (oss : string) :
  basecall_item E R opts models transitions read_summary oss
  = ('(rs', text) <-
       basecall_item E R opts models transitions read_summary "" ;;
     Ok (rs', (oss ++ text)%string)).
Proof.
  unfold basecall_item, basecall_loaded. cbn [for_each].
  rewrite basecall_strand_prefix.
  destruct (basecall_strand E opts models transitions
              (load_events R (scale_strands_together opts) read_summary,
               ""%string) 0) as [[rs0 t0]|]; cbn [bind]; [|reflexivity].
  rewrite (basecall_strand_prefix rs0 (oss ++ t0)).
  rewrite (basecall_strand_prefix rs0 ("" ++ t0)).
  destruct (basecall_strand E opts models transitions (rs0, ""%string) 1)
    as [[rs1 t1]|]; cbn [bind]; [|reflexivity].
  now rewrite append_assoc.
Qed.

End AppendOnly.

Section ReadOrder.
Context {T : Types}.
Variable E : Kernel T.
Variable R : Reader T.
Variable opts : Options T.
Variable models : Pore_Model_Dict_Type T.
Variable transitions : State_Transitions_Type T.
Variable reads0 : list (Fast5_Summary_Type T).

Lemma basecall_process_item_local (i : nat)
  (s : list (Fast5_Summary_Type T)) (oss : string)
  (s' : list (Fast5_Summary_Type T)) (oss' : string) :
  basecall_process_item E R opts models transitions i (s, oss) = Ok (s', oss')
  -> forall j, j <> i ->
     nth_error s j = nth_error reads0 j ->
     nth_error s' j = nth_error reads0 j.
Proof.
  unfold basecall_process_item, deque_at.
  destruct (nth_error s i) as [r|]; cbn [bind]; [|discriminate].
  destruct (basecall_item E R opts models transitions r oss)
    as [[rs o]|]; cbn [bind]; [|discriminate].
  intros [= <- <-] j N F. now rewrite nth_error_deque_set_other.
Qed.

Lemma basecall_process_item_text (i : nat)
  (s : list (Fast5_Summary_Type T)) (oss : string)
  (s' : list (Fast5_Summary_Type T)) (oss' : string) :
  basecall_process_item E R opts models transitions i (s, oss) = Ok (s', oss')
  -> nth_error s i = nth_error reads0 i ->
     oss' = (oss ++ record_text E R opts models transitions reads0 i)%string.
Proof.
  unfold basecall_process_item, deque_at, record_text. intros H F.
  rewrite <- F. destruct (nth_error s i) as [r|]; cbn [bind] in *;
    [|discriminate].
  rewrite basecall_item_prefix in H.
  destruct (basecall_item E R opts models transitions r "")
    as [[rs t]|]; cbn [bind] in H; [|discriminate].
  now injection H as _ <-.
Qed.

Lemma basecall_harness_order (num_threads : nat)
  (h : Harness (list (Fast5_Summary_Type T))) :
  pfor_reaches 10 (List.length reads0)
    (basecall_process_item E R opts models transitions)
    (pfor_start num_threads reads0 "") h ->
  exists k,
    k <= List.length reads0
    /\ h_os h
       = glue (map (record_text E R opts models transitions reads0) (seq 0 k))
    /\ (0 < num_threads -> pfor_done h -> k = List.length reads0).
Proof.
  intros Hr.
  destruct (@harness_output_in_order (list (Fast5_Summary_Type T)) 10
              (List.length reads0)
              (basecall_process_item E R opts models transitions)
              reads0 ""%string
              (fun s i => nth_error s i = nth_error reads0 i)
              (record_text E R opts models transitions reads0)
              (fun i => eq_refl)
              basecall_process_item_local
              basecall_process_item_text
              num_threads h Hr) as (k & Hk & Ho & Hd).
  exists k. split; [exact Hk|]. split; [exact Ho|].
  intros Pn D. apply Hd; [lia|exact Pn|exact D].
Qed.

(** C8.  In the harness with any number of workers and any order of their
    steps, driven by the closures of [basecall_reads]: the producer hands
    out the read indices in increasing order, batch by batch, and at every
    moment the output stream holds the records of the reads [0 .. k-1] in
    this order, for some [k]; once all workers have left, [k] is the number
    of reads. *)
Theorem records_in_read_order (num_threads : nat)
  (h : Harness (list (Fast5_Summary_Type T))) :
  pfor_reaches 10 (List.length reads0)
    (basecall_process_item E R opts models transitions)
    (pfor_start num_threads reads0 "") h ->
  (forall crt_idx,
      fetch_chunk 10 (List.length reads0) crt_idx
      = (seq crt_idx (Nat.min 10 (List.length reads0 - crt_idx)),
         crt_idx + Nat.min 10 (List.length reads0 - crt_idx)))
  /\ exists k,
      k <= List.length reads0
      /\ h_os h
         = glue (map (record_text E R opts models transitions reads0)
                   (seq 0 k))
      /\ (0 < num_threads -> pfor_done h -> k = List.length reads0).
Proof.
  intros Hr. split; [intros crt; apply fetch_chunk_spec|].
  now apply basecall_harness_order.
Qed.

End ReadOrder.

(** Two reads and two workers: the second worker takes the one batch, the
    first leaves, the second processes both reads, writes and leaves. *)
Lemma records_in_read_order_witness :
  let E := Sample.kernel Sample.train_rising Sample.decode in
  let R := Sample.reader Sample.read in
  let opts := Sample.options false false 10 4 in
  let reads0 := [Sample.read; Sample.read] in
  exists h : Harness (list (Fast5_Summary_Type Sample.types)),
    pfor_done h
    /\ (forall crt_idx,
           fetch_chunk 10 (List.length reads0) crt_idx
           = (seq crt_idx (Nat.min 10 (List.length reads0 - crt_idx)),
              crt_idx + Nat.min 10 (List.length reads0 - crt_idx)))
    /\ exists k,
        k <= List.length reads0
        /\ h_os h
           = glue (map (record_text E R opts Sample.models tt reads0)
                     (seq 0 k))
        /\ (0 < 2 -> pfor_done h -> k = List.length reads0).
Proof.
  intros E R opts reads0.
  assert (Hr : exists h : Harness (list (Fast5_Summary_Type Sample.types)),
             pfor_done h
             /\ pfor_reaches 10 (List.length reads0)
                  (basecall_process_item E R opts Sample.models tt)
                  (pfor_start 2 reads0 "") h).
  { eexists. split; [|apply clos_rt_rtn1, clos_rt1n_rt].
    2:{ eapply Relation_Operators.rt1n_trans;
          [eapply step_take with (w := 1); [reflexivity|reflexivity|discriminate]|].
        eapply Relation_Operators.rt1n_trans;
          [eapply step_retire with (w := 0); reflexivity|].
        eapply Relation_Operators.rt1n_trans;
          [eapply step_work with (w := 1); [reflexivity|vm_compute; reflexivity]|].
        eapply Relation_Operators.rt1n_trans;
          [eapply step_work with (w := 1); [reflexivity|vm_compute; reflexivity]|].
        eapply Relation_Operators.rt1n_trans;
          [eapply step_drain with (w := 1); reflexivity|].
        eapply Relation_Operators.rt1n_trans;
          [eapply step_retire with (w := 1); reflexivity|].
        apply Relation_Operators.rt1n_refl. }
    repeat constructor. }
  destruct Hr as (h & D & Hr). exists h. split; [exact D|].
  exact (@records_in_read_order Sample.types E R opts Sample.models tt reads0
           2 h Hr).
Defined.

(** *** The run with one worker is one of the schedules *)

Section SerialSchedule.
Variable St : Type.
Variable chunk_size : nat.
Variable size : nat.
Variable process_item : nat -> St * string -> result (St * string).

Local Abbreviation reaches_ := (pfor_reaches chunk_size size process_item).

Lemma pfor_reaches_trans (a b c : Harness St) :
  reaches_ a b -> reaches_ b c -> reaches_ a c.
Proof.
  unfold pfor_reaches. intros H1 H2.
  apply clos_rt_rtn1. apply rt_trans with b; now apply clos_rtn1_rt.
Qed.

Lemma pfor_reaches_step (a b : Harness St) :
  pfor_step chunk_size size process_item a b -> reaches_ a b.
Proof.
  intros H. unfold pfor_reaches.
  eapply Relation_Operators.rtn1_trans; [exact H|constructor].
Qed.

(** One worker processes the items of its batch one after the other. *)
Lemma serial_work (items : list nat) :
  forall (crt nc wr c : nat) (s s' : St) (os oss oss' : string),
  for_each (fun acc i => process_item i acc) items (s, oss) = Ok (s', oss') ->
  reaches_
    {| h_crt_idx := crt; h_next_chunk := nc; h_written := wr; h_state := s;
       h_os := os; h_workers := [Working c items oss] |}
    {| h_crt_idx := crt; h_next_chunk := nc; h_written := wr; h_state := s';
       h_os := os; h_workers := [Working c [] oss'] |}.
Proof.
  induction items as [|i items IH]; intros crt nc wr c s s' os oss oss';
    cbn [for_each].
  - intros [= <- <-]. constructor.
  - destruct (process_item i (s, oss)) as [[s1 oss1]|] eqn:P; cbn [bind];
      [|discriminate].
    intros H. eapply pfor_reaches_trans; [|apply (IH crt nc wr c s1 s' os oss1 oss' H)].
    apply pfor_reaches_step.
    exact (@step_work St chunk_size size process_item
             {| h_crt_idx := crt; h_next_chunk := nc; h_written := wr;
                h_state := s; h_os := os;
                h_workers := [Working c (i :: items) oss] |}
             0 c i items oss oss1 s1 eq_refl P).
Qed.

(** A successful run of [pfor_serial] is a run of the harness with one
    worker, up to the point where that worker has left. *)
Lemma serial_run_is_a_schedule (fuel : nat) :
  forall (crt nc : nat) (s s' : St) (os os' : string),
  pfor_serial fuel chunk_size size process_item crt s os = Ok (s', os') ->
  exists crt' nc',
    reaches_
      {| h_crt_idx := crt; h_next_chunk := nc; h_written := nc; h_state := s;
         h_os := os; h_workers := [Idle] |}
      {| h_crt_idx := crt'; h_next_chunk := nc'; h_written := nc';
         h_state := s'; h_os := os'; h_workers := [Finished] |}.
Proof.
  induction fuel as [|fuel IH]; intros crt nc s s' os os';
    cbn [pfor_serial];
    destruct (fetch_chunk chunk_size size crt) as [items crt1] eqn:F;
    destruct items as [|i items].
  - intros [= <- <-]. exists crt, nc. apply pfor_reaches_step.
    exact (@step_retire St chunk_size size process_item
             {| h_crt_idx := crt; h_next_chunk := nc; h_written := nc;
                h_state := s; h_os := os; h_workers := [Idle] |}
             0 crt1 eq_refl F).
  - discriminate.
  - intros [= <- <-]. exists crt, nc. apply pfor_reaches_step.
    exact (@step_retire St chunk_size size process_item
             {| h_crt_idx := crt; h_next_chunk := nc; h_written := nc;
                h_state := s; h_os := os; h_workers := [Idle] |}
             0 crt1 eq_refl F).
  - destruct (for_each (fun acc j => process_item j acc) (i :: items)
                (s, ""%string)) as [[s1 oss]|] eqn:W; cbn [bind];
      [|discriminate].
    intros H. destruct (IH crt1 (S nc) s1 s' (os ++ oss)%string os' H)
      as (crt' & nc' & Hr).
    exists crt', nc'.
    eapply pfor_reaches_trans; [|exact Hr].
    assert (Ne : i :: items <> []) by discriminate.
    eapply pfor_reaches_trans;
      [apply pfor_reaches_step;
       exact (@step_take St chunk_size size process_item
                {| h_crt_idx := crt; h_next_chunk := nc; h_written := nc;
                   h_state := s; h_os := os; h_workers := [Idle] |}
                0 (i :: items) crt1 eq_refl F Ne)|].
    cbn [h_workers h_next_chunk h_written h_state h_os h_crt_idx deque_set].
    eapply pfor_reaches_trans;
      [apply (@serial_work (i :: items) crt1 (S nc) nc nc s s1 os ""%string
                oss W)|].
    apply pfor_reaches_step.
    exact (@step_drain St chunk_size size process_item
             {| h_crt_idx := crt1; h_next_chunk := S nc; h_written := nc;
                h_state := s1; h_os := os; h_workers := [Working nc [] oss] |}
             0 oss eq_refl).
Qed.

End SerialSchedule.

(** What [basecall_reads] writes is the records of the reads in the order
    of their indices. *)
Lemma basecall_reads_output {T : Types} (E : Kernel T) (R : Reader T)
  (opts : Options T) (models : Pore_Model_Dict_Type T)
  (transitions : State_Transitions_Type T)
  (reads reads' : list (Fast5_Summary_Type T)) (os : string) :
  basecall_reads E R opts models transitions reads = Ok (reads', os) ->
  os = glue (map (record_text E R opts models transitions reads)
               (seq 0 (List.length reads))).
Proof.
  unfold basecall_reads. intros H.
  apply serial_run_is_a_schedule with (nc := 0) in H.
  destruct H as (crt' & nc' & Hr).
  destruct (@basecall_harness_order T E R opts models transitions reads 1 _ Hr)
    as (k & _ & Ho & Hd).
  cbn [h_os] in Ho. rewrite Ho, Hd; [reflexivity|lia|].
  repeat constructor.
Qed.
(** * Further properties of the pipeline *)

(** ** More facts about [StdMap] *)

Section StdMapInsert.
Variables K V : Type.
Variable lt : K -> K -> bool.
Hypothesis lt_irrefl : forall k, lt k k = false.
Hypothesis lt_trans :
  forall a b c, lt a b = true -> lt b c = true -> lt a c = true.
Hypothesis lt_total : forall a b, lt a b = false -> lt b a = false -> a = b.

(** [m[k] = v] leaves what is stored under the other keys. *)
Lemma find_subscript_assign_other (k k' : K) (v : V) (m : StdMap.t K V) :
  k' <> k ->
  StdMap.find lt k' (StdMap.subscript_assign lt k v m) = StdMap.find lt k' m.
Proof.
  intros N. induction m as [|[k1 v1] m IH]; simpl.
  - destruct (lt k k') eqn:A; [reflexivity|].
    destruct (lt k' k) eqn:B; [reflexivity|].
    exfalso. apply N. now apply lt_total.
  - destruct (lt k1 k) eqn:E1; simpl.
    + now rewrite IH.
    + destruct (lt k k1) eqn:E2; simpl.
      * destruct (lt k k') eqn:A; [reflexivity|].
        destruct (lt k' k) eqn:B.
        -- assert (H : lt k' k1 = true) by eauto.
           destruct (lt k1 k') eqn:C.
           ++ pose proof (lt_trans H C) as X.
              rewrite lt_irrefl in X. discriminate.
           ++ now rewrite H.
        -- exfalso. apply N. now apply lt_total.
      * assert (Q : k1 = k) by now apply lt_total. subst k1.
        destruct (lt k k') eqn:A; [reflexivity|].
        destruct (lt k' k) eqn:B; [reflexivity|].
        exfalso. apply N. now apply lt_total.
Qed.

(** [m[k] = v] keeps the keys strictly ascending. *)
Lemma subscript_assign_well_formed (k : K) (v : V) (m : StdMap.t K V) :
  StdMap.well_formed lt m ->
  StdMap.well_formed lt (StdMap.subscript_assign lt k v m).
Proof.
  unfold StdMap.well_formed.
  induction m as [|[k1 v1] m IH]; simpl; intros W.
  - repeat constructor.
  - inversion W as [|? ? W' F]; subst.
    destruct (lt k1 k) eqn:E1; simpl.
    + constructor; [now apply IH|].
      apply Forall_forall. intros x Hx.
      apply keys_subscript_assign_in in Hx. destruct Hx as [->|Hx]; [exact E1|].
      rewrite Forall_forall in F. now apply F.
    + destruct (lt k k1) eqn:E2; simpl.
      * constructor; [exact W|].
        constructor; [exact E2|].
        apply Forall_forall. intros x Hx.
        rewrite Forall_forall in F. eapply lt_trans; [exact E2|now apply F].
      * exact W.
Qed.

End StdMapInsert.

Lemma name_assign_well_formed {V : Type} (k : string) (v : V)
  (m : name_map V) :
  StdMap.well_formed string_lt m ->
  StdMap.well_formed string_lt (name_assign k v m).
Proof.
  apply subscript_assign_well_formed;
    first [exact string_lt_irrefl | exact string_lt_trans
          | exact string_lt_total].
Qed.

Lemma find_name_assign {V : Type} (k k' : string) (v : V) (m : name_map V) :
  StdMap.find string_lt k' (name_assign k v m)
  = if (k' =? k)%string then Some v else StdMap.find string_lt k' m.
Proof.
  unfold name_assign. destruct (String.eqb_spec k' k) as [->|N].
  - apply StdMapFacts.find_subscript_assign, string_lt_irrefl.
  - apply find_subscript_assign_other;
      first [exact string_lt_irrefl | exact string_lt_trans
            | exact string_lt_total | exact N].
Qed.

Lemma nat_ltb_trans (a b c : nat) :
  (a <? b) = true -> (b <? c) = true -> (a <? c) = true.
Proof. rewrite !Nat.ltb_lt. lia. Qed.

Lemma nat_ltb_total (a b : nat) :
  (a <? b) = false -> (b <? a) = false -> a = b.
Proof. rewrite !Nat.ltb_ge. lia. Qed.

(** A loop over two lists put end to end is the loop over the first
    followed by the loop over the second. *)
Lemma for_each_app {A S : Type} (body : S -> A -> result S) (l1 l2 : list A)
  (s : S) :
  for_each body (l1 ++ l2) s
  = (s' <- for_each body l1 s ;; for_each body l2 s').
Proof.
  revert s. induction l1 as [|x l1 IH]; intros s; cbn [for_each app bind].
  - reflexivity.
  - destruct (body s x) as [s1|e]; cbn [bind]; [apply IH|reflexivity].
Qed.

(** ** [parse_model_name] *)

Lemma parse_model_name_accepts (st : nat) (f : string) :
  st <= 2 -> f <> ""%string ->
  parse_model_name (decimal st ++ ":" ++ f) = Ok (st, f).
Proof.
  intros L N. destruct f as [|c f]; [congruence|].
  destruct st as [|[|[|st]]]; try lia; reflexivity.
Qed.

Lemma parse_model_name_inv (s : string) (st : nat) (f : string) :
  parse_model_name s = Ok (st, f) ->
  st <= 2 /\ f <> ""%string /\ s = (decimal st ++ ":" ++ f)%string.
Proof.
  destruct s as [|c0 [|c1 [|c2 rest]]]; try discriminate.
  unfold parse_model_name.
  destruct (Ascii.eqb_spec c1 ":") as [->|N1];
    [|rewrite orb_true_r; discriminate].
  destruct (Ascii.eqb_spec c0 "0") as [->|N0].
  { intros [= <- <-]. repeat split; [cbn; lia|discriminate]. }
  destruct (Ascii.eqb_spec c0 "1") as [->|N1].
  { intros [= <- <-]. repeat split; [cbn; lia|discriminate]. }
  destruct (Ascii.eqb_spec c0 "2") as [->|N2].
  { intros [= <- <-]. repeat split; [cbn; lia|discriminate]. }
  discriminate.
Qed.

Lemma parse_model_name_raises (s : string) (e : Failure) :
  parse_model_name s = Raise e -> e = could_not_parse s.
Proof.
  unfold parse_model_name, could_not_parse.
  destruct s as [|c0 [|c1 [|c2 rest]]]; try (intros [= <-]; reflexivity).
  destruct (negb _ || negb _); [intros [= <-]; reflexivity|discriminate].
Qed.

Lemma decimal_colon_inj (st st' : nat) (f f' : string) :
  st <= 2 -> st' <= 2 ->
  (decimal st ++ ":" ++ f)%string = (decimal st' ++ ":" ++ f')%string ->
  st = st' /\ f = f'.
Proof.
  intros L L'.
  destruct st as [|[|[|st]]]; try lia;
    destruct st' as [|[|[|st']]]; try lia; cbn;
    intros [= E]; try discriminate; auto.
Qed.

(** ** [init_models] *)

Section InitModels.
Context {T : Types}.
Variable R : Reader T.
Variable opts : Options T.

Lemma read_model_names_args :
  read_model_names R opts = for_each add_model_name (model_args R opts) [].
Proof.
  unfold read_model_names, model_args. rewrite for_each_app.
  destruct (for_each add_model_name (model_fn opts) []) as [ml|e];
    cbn [bind]; [|reflexivity].
  now destruct (model_fofn opts =? "")%string.
Qed.

Lemma add_model_name_spec (ml ml' : Strand_Lists) (s : string) :
  add_model_name ml s = Ok ml' ->
  exists st f,
    parse_model_name s = Ok (st, f)
    /\ forall st',
        strand_list ml' st'
        = strand_list ml st' ++ (if st' =? st then [f] else []).
Proof.
  unfold add_model_name.
  destruct (parse_model_name s) as [[st f]|e]; cbn [bind fst snd];
    [|discriminate].
  intros [= <-]. exists st, f. split; [reflexivity|]. intros st'.
  unfold strand_list, StdMap.subscript.
  destruct (Nat.eqb_spec st' st) as [->|N].
  - now rewrite (StdMapFacts.find_subscript_assign Nat.ltb Nat.ltb_irrefl).
  - rewrite find_subscript_assign_other
      by first [exact Nat.ltb_irrefl | exact nat_ltb_trans
               | exact nat_ltb_total | exact N].
    now rewrite app_nil_r.
Qed.

Lemma strand_list_for_each (l : list string) :
  forall ml0 ml : Strand_Lists,
  for_each add_model_name l ml0 = Ok ml ->
  (forall s, In s l -> exists st f, parse_model_name s = Ok (st, f))
  /\ forall st f,
      In f (strand_list ml st) <->
      In f (strand_list ml0 st)
      \/ exists s, In s l /\ parse_model_name s = Ok (st, f).
Proof.
  induction l as [|s l IH]; intros ml0 ml; cbn [for_each].
  - intros [= <-]. split; [intros s []|].
    intros st f. split; [auto|]. intros [H|(s & [] & _)]. exact H.
  - destruct (add_model_name ml0 s) as [ml1|e] eqn:A; cbn [bind];
      [|discriminate].
    intros H. destruct (IH _ _ H) as (P & I).
    destruct (add_model_name_spec _ _ A) as (st0 & f0 & P0 & S0).
    split.
    + intros x [<-|Hx]; [eauto|now apply P].
    + intros st f. rewrite I, S0, in_app_iff. split.
      * intros [[H1|H1]|(x & Hx & Px)]; [now left| |right; exists x; simpl; auto].
        destruct (Nat.eqb_spec st st0) as [->|N]; [|destruct H1].
        destruct H1 as [<-|[]]. right. exists s. simpl. auto.
      * intros [H1|(x & [<-|Hx] & Px)]; [left; now left| |right; eauto].
        rewrite P0 in Px. injection Px as <- <-.
        left. right. rewrite Nat.eqb_refl. now left.
Qed.

Lemma for_each_add_model_name_ok (l : list string) :
  forall ml0 : Strand_Lists,
  (forall s, In s l -> exists st f, parse_model_name s = Ok (st, f)) ->
  exists ml, for_each add_model_name l ml0 = Ok ml.
Proof.
  induction l as [|s l IH]; intros ml0 P; cbn [for_each]; [eauto|].
  destruct (P s (or_introl eq_refl)) as (st & f & Ps).
  unfold add_model_name at 1. rewrite Ps. cbn [bind].
  apply IH. intros x Hx. apply P. now right.
Qed.

(** The list that [init_models] holds for a strand lists the file [f]
    when the strand is 0, 1 or 2 and "<strand>:<f>" was given. *)
Lemma in_strand_list_args (ml : Strand_Lists) (st : nat) (f : string) :
  for_each add_model_name (model_args R opts) [] = Ok ml ->
  In f (strand_list ml st) <->
  st <= 2 /\ f <> ""%string
  /\ In (decimal st ++ ":" ++ f)%string (model_args R opts).
Proof.
  intros H. destruct (strand_list_for_each _ _ H) as (_ & I).
  rewrite I. split.
  - intros [[]|(s & Hs & P)].
    apply parse_model_name_inv in P. destruct P as (L & N & ->). auto.
  - intros (L & N & Hs). right. eexists. split; [exact Hs|].
    now apply parse_model_name_accepts.
Qed.

Local Abbreviation loaded st :=
  (fun (models : Pore_Model_Dict_Type T) (e : string) =>
     name_assign e {| table := read_pore_model R e; strand := st |} models).

Lemma find_loaded (st : nat) (f : string) (l : list string) :
  forall models : Pore_Model_Dict_Type T,
  StdMap.find string_lt f (fold_left (loaded st) l models)
  = if existsb (String.eqb f) l
    then Some {| table := read_pore_model R f; strand := st |}
    else StdMap.find string_lt f models.
Proof.
  induction l as [|e l IH]; intros models; cbn [fold_left existsb];
    [reflexivity|].
  rewrite IH. destruct (existsb (String.eqb f) l).
  - now rewrite orb_true_r.
  - rewrite orb_false_r, find_name_assign.
    destruct (String.eqb_spec f e) as [->|N]; reflexivity.
Qed.

Lemma existsb_eqb_in (f : string) (l : list string) :
  existsb (String.eqb f) l = true <-> In f l.
Proof.
  rewrite existsb_exists. split.
  - intros (x & I & Q). apply String.eqb_eq in Q. now subst.
  - intros I. exists f. split; [exact I|apply String.eqb_refl].
Qed.

Lemma existsb_eqb_not_in (f : string) (l : list string) :
  existsb (String.eqb f) l = false <-> ~ In f l.
Proof.
  rewrite <- existsb_eqb_in. now destruct (existsb (String.eqb f) l).
Qed.

(** The entry that [load_custom_models] leaves under a name: the file
    read, tagged with the highest strand whose list names it. *)
Lemma find_load_custom_models (ml : Strand_Lists) (f : string) :
  match StdMap.find string_lt f (load_custom_models R ml) with
  | Some pm =>
      table pm = read_pore_model R f
      /\ strand pm <= 2
      /\ In f (strand_list ml (strand pm))
      /\ forall st, strand pm < st <= 2 -> ~ In f (strand_list ml st)
  | None => forall st, st <= 2 -> ~ In f (strand_list ml st)
  end.
Proof.
  unfold load_custom_models. cbn [fold_left]. rewrite !find_loaded.
  destruct (existsb (String.eqb f) (strand_list ml 2)) eqn:E2.
  { apply existsb_eqb_in in E2. cbn [table strand].
    repeat split; auto. intros st L. lia. }
  apply existsb_eqb_not_in in E2.
  destruct (existsb (String.eqb f) (strand_list ml 1)) eqn:E1.
  { apply existsb_eqb_in in E1. cbn [table strand].
    repeat split; auto. intros st L. assert (st = 2) as -> by lia. exact E2. }
  apply existsb_eqb_not_in in E1.
  destruct (existsb (String.eqb f) (strand_list ml 0)) eqn:E0.
  { apply existsb_eqb_in in E0. cbn [table strand].
    repeat split; auto; try lia. intros st L.
    assert (C : st = 1 \/ st = 2) by lia. now destruct C as [-> | ->]. }
  apply existsb_eqb_not_in in E0.
  cbn [StdMap.find]. intros st L.
  assert (C : st = 0 \/ st = 1 \/ st = 2) by lia.
  now destruct C as [-> | [-> | ->]].
Qed.

Lemma fold_loaded_well_formed (st : nat) (l : list string) :
  forall models : Pore_Model_Dict_Type T,
  StdMap.well_formed string_lt models ->
  StdMap.well_formed string_lt (fold_left (loaded st) l models).
Proof.
  induction l as [|e l IH]; intros models W; cbn [fold_left]; [exact W|].
  apply IH. now apply name_assign_well_formed.
Qed.

Lemma nil_well_formed {V : Type} : StdMap.well_formed string_lt (@nil (string * V)).
Proof. constructor. Qed.

Lemma load_custom_models_well_formed (ml : Strand_Lists) :
  StdMap.well_formed string_lt (load_custom_models R ml).
Proof.
  unfold load_custom_models. cbn [fold_left].
  repeat apply fold_loaded_well_formed. apply nil_well_formed.
Qed.

Lemma load_builtin_models_well_formed :
  StdMap.well_formed string_lt (load_builtin_models R).
Proof.
  unfold load_builtin_models.
  generalize (@nil_well_formed (Pore_Model_Type T)).
  generalize (@nil (string * Pore_Model_Type T)).
  induction (builtin_models R) as [|[[name tbl] st] l IH]; intros m W;
    cbn [fold_left]; [exact W|].
  apply IH. now apply name_assign_well_formed.
Qed.

(** What [init_models] does with the names once they are parsed. *)
Lemma init_models_parsed (ml : Strand_Lists) :
  for_each add_model_name (model_args R opts) [] = Ok ml ->
  init_models R opts
  = (let empty st := is_empty (strand_list ml st) in
     if empty 2 && negb (Bool.eqb (empty 0) (empty 1)) then
       Raise (exit_called EXIT_FAILURE
                ("models were specified only for strand "
                 ++ decimal (if empty 0 then 1 else 0)
                 ++ "! give models for both strands, or for neither."))
     else if negb (empty 0 && empty 1 && empty 2) then
       Ok (load_custom_models R ml)
     else Ok (load_builtin_models R)).
Proof.
  intros H. unfold init_models. rewrite read_model_names_args, H.
  reflexivity.
Qed.

Lemma is_empty_true {A : Type} (l : list A) : is_empty l = true <-> l = [].
Proof. destruct l; simpl; split; congruence. Qed.

Lemma no_element_nil {A : Type} (l : list A) :
  (forall x, ~ In x l) -> l = [].
Proof.
  destruct l as [|a l]; [reflexivity|]. intros H. destruct (H a). now left.
Qed.

End InitModels.

Lemma find_load_builtin {T : Types} (name : string)
  (l : list (string * Kmer_Table T * nat)) :
  forall m : Pore_Model_Dict_Type T,
  match
    StdMap.find string_lt name
      (fold_left
         (fun models b =>
            let '(name, init_list, st) := b in
            name_assign name {| table := init_list; strand := st |} models)
         l m)
  with
  | Some pm =>
      In (name, table pm, strand pm) l
      \/ StdMap.find string_lt name m = Some pm
  | None =>
      (forall tbl st, ~ In (name, tbl, st) l)
      /\ StdMap.find string_lt name m = None
  end.
Proof.
  induction l as [|[[n tbl] st] l IH]; intros m; cbn [fold_left].
  - destruct (StdMap.find string_lt name m); [now right|].
    split; [intros ? ? []|reflexivity].
  - specialize (IH (name_assign n {| table := tbl; strand := st |} m)).
    revert IH.
    match goal with
    | |- match ?x with _ => _ end -> _ => destruct x as [pm|]
    end; intros IH.
    + destruct IH as [I|F]; [left; now right|].
      rewrite find_name_assign in F.
      destruct (String.eqb_spec name n) as [->|N]; [|now right].
      injection F as <-. left. now left.
    + destruct IH as (NI & F). rewrite find_name_assign in F.
      destruct (String.eqb_spec name n) as [->|N]; [discriminate|].
      split; [|exact F]. intros tbl' st' [[= -> _ _]|I]; [congruence|].
      exact (NI _ _ I).
Qed.

(** X1.  [parse_model_name] accepts exactly the strings "<strand>:<file>"
    with a strand of 0, 1 or 2 and a file name that is not empty, and
    returns the strand and the file name. *)
Theorem parse_model_name_round_trip (s : string) (st : nat) (f : string) :
  parse_model_name s = Ok (st, f)
  <-> st <= 2 /\ f <> ""%string /\ s = (decimal st ++ ":" ++ f)%string.
Proof.
  split; [apply parse_model_name_inv|].
  intros (L & N & ->). now apply parse_model_name_accepts.
Qed.

Section InitModelsTheorems.
Context {T : Types}.
Variable R : Reader T.
Variable opts : Options T.

(** X2.  [init_models] parses the names in the order given, the
    [--model] arguments before the lines of the [--model-fofn] file, and
    stops at the first that does not parse: the process exits with
    [EXIT_FAILURE] and the diagnostic that quotes that name, whatever
    follows it. *)
Theorem init_models_reports_first_bad_name (good rest : list string)
  (bad : string) :
  model_args R opts = good ++ bad :: rest ->
  Forall (fun s => is_ok (parse_model_name s) = true) good ->
  is_ok (parse_model_name bad) = false ->
  init_models R opts = Raise (could_not_parse bad).
Proof.
  intros A G B. unfold init_models.
  rewrite read_model_names_args, A, for_each_app.
  destruct (@for_each_add_model_name_ok good []) as (ml & F).
  { intros s Hs. rewrite Forall_forall in G. specialize (G s Hs).
    destruct (parse_model_name s) as [[st f]|]; [eauto|discriminate]. }
  rewrite F. cbn [bind for_each]. unfold add_model_name.
  destruct (parse_model_name bad) as [p|e] eqn:P; [discriminate|].
  cbn [bind]. f_equal. now apply parse_model_name_raises.
Qed.

(** X3.  When every name given is for the same strand [st], 0 or 1,
    [init_models] loads nothing: the process exits with [EXIT_FAILURE]
    and a diagnostic that names [st], the strand that does have models. *)
Theorem init_models_rejects_one_strand_only (st : nat) :
  st < 2 ->
  model_args R opts <> [] ->
  (forall s, In s (model_args R opts) ->
     exists f, f <> ""%string /\ s = (decimal st ++ ":" ++ f)%string) ->
  init_models R opts
  = Raise (exit_called EXIT_FAILURE
             ("models were specified only for strand " ++ decimal st
              ++ "! give models for both strands, or for neither.")).
Proof.
  intros L N A.
  destruct (@for_each_add_model_name_ok (model_args R opts) []) as (ml & F).
  { intros s Hs. destruct (A s Hs) as (f & Nf & ->). exists st, f.
    apply parse_model_name_accepts; [lia|exact Nf]. }
  rewrite (init_models_parsed R opts F). cbv zeta.
  assert (Other : forall st', st' <> st -> strand_list ml st' = []).
  { intros st' D. apply no_element_nil. intros f I.
    apply (in_strand_list_args R opts _ _ F) in I. destruct I as (L' & Nf & I).
    destruct (A _ I) as (g & Ng & Q).
    apply decimal_colon_inj in Q; [|lia|lia]. now destruct Q. }
  assert (Own : strand_list ml st <> []).
  { assert (Ex : exists s, In s (model_args R opts)).
    { destruct (model_args R opts) as [|s l]; [congruence|].
      exists s. now left. }
    destruct Ex as (s & Hs). destruct (A s Hs) as (f & Nf & ->).
    assert (I : In f (strand_list ml st)).
    { apply (in_strand_list_args R opts _ _ F).
      repeat split; [lia|exact Nf|exact Hs]. }
    intros Z. now rewrite Z in I. }
  assert (C : st = 0 \/ st = 1) by lia.
  destruct C as [-> | ->].
  - rewrite (Other 2), (Other 1) by lia.
    destruct (strand_list ml 0); [congruence|reflexivity].
  - rewrite (Other 2), (Other 0) by lia.
    destruct (strand_list ml 1); [congruence|reflexivity].
Qed.

(** X4.  The dictionary that [init_models] returns has its names in
    strictly ascending order, hence no name twice: the loops over it visit
    each model once, in the order of the names. *)
Theorem init_models_well_formed (models : Pore_Model_Dict_Type T) :
  init_models R opts = Ok models ->
  StdMap.well_formed string_lt models.
Proof.
  unfold init_models.
  destruct (read_model_names R opts) as [ml|e]; cbn [bind]; [|discriminate].
  destruct (_ && _); [discriminate|].
  destruct (negb _); intros [= <-].
  - apply load_custom_models_well_formed.
  - apply load_builtin_models_well_formed.
Qed.

(** X5.  When names are given and [init_models] returns, the dictionary
    holds, for a file name [f]: nothing, if "<strand>:<f>" was given for
    no strand; otherwise one model, read from [f] and tagged with the
    highest strand for which "<strand>:<f>" was given (a file given for
    two strands is kept for the higher one only). *)
Theorem custom_model_carries_highest_strand
  (models : Pore_Model_Dict_Type T) (f : string) :
  model_args R opts <> [] ->
  init_models R opts = Ok models ->
  match StdMap.find string_lt f models with
  | Some pm =>
      table pm = read_pore_model R f
      /\ strand pm <= 2
      /\ In (decimal (strand pm) ++ ":" ++ f)%string (model_args R opts)
      /\ forall st, strand pm < st <= 2 ->
           ~ In (decimal st ++ ":" ++ f)%string (model_args R opts)
  | None =>
      forall st, st <= 2 ->
        ~ In (decimal st ++ ":" ++ f)%string (model_args R opts)
  end.
Proof.
  intros N H.
  assert (F : exists ml,
             for_each add_model_name (model_args R opts) [] = Ok ml).
  { unfold init_models in H. rewrite read_model_names_args in H.
    destruct (for_each add_model_name (model_args R opts) []) as [ml|e];
      [eauto|discriminate]. }
  destruct F as (ml & F).
  assert (Some_list : exists st g, In g (strand_list ml st) /\ st <= 2).
  { destruct (strand_list_for_each _ _ F) as (P & I).
    assert (Ex : exists s, In s (model_args R opts)).
    { destruct (model_args R opts) as [|s l]; [congruence|].
      exists s. now left. }
    destruct Ex as (s & Hs).
    destruct (P s Hs) as (st & g & Ps).
    exists st, g. split.
    - apply I. right. exists s. split; [exact Hs|exact Ps].
    - now apply parse_model_name_inv in Ps. }
  rewrite (init_models_parsed R opts F) in H. cbv zeta in H.
  destruct (_ && _); [discriminate|].
  destruct (negb _) eqn:C; injection H as <-.
  - pose proof (find_load_custom_models R ml f) as Q.
    destruct (StdMap.find string_lt f (load_custom_models R ml)) as [pm|].
    + destruct Q as (Tb & L & I & Hi).
      apply (in_strand_list_args R opts _ _ F) in I.
      repeat split; [exact Tb|exact L|tauto|].
      intros st Hst I'. apply (Hi st Hst).
      apply (in_strand_list_args R opts _ _ F). split; [lia|]. split; [|exact I'].
      tauto.
    + intros st Hst I'.
      assert (Nf : f <> ""%string).
      { destruct (strand_list_for_each _ _ F) as (P & _).
        destruct (P _ I') as (st' & g & Ps).
        apply parse_model_name_inv in Ps. destruct Ps as (L' & Ng & Q').
        apply decimal_colon_inj in Q'; [|lia|lia]. destruct Q' as [_ ->].
        exact Ng. }
      apply (Q st Hst). apply (in_strand_list_args R opts _ _ F). auto.
  - exfalso. apply negb_false_iff in C. rewrite !andb_true_iff in C.
    destruct C as ((C0 & C1) & C2). rewrite !is_empty_true in *.
    destruct Some_list as (st & g & I & L).
    assert (D : st = 0 \/ st = 1 \/ st = 2) by lia.
    destruct D as [-> | [-> | ->]].
    + now rewrite C0 in I.
    + now rewrite C1 in I.
    + now rewrite C2 in I.
Qed.

(** X6.  When no name is given (no [--model], and no [--model-fofn] or an
    empty one), [init_models] returns the built-in models: under a name the
    dictionary holds a model of the built-in table of that name with its
    strand, and nothing when the table has no such name. *)
Theorem builtin_models_by_default (name : string) :
  model_args R opts = [] ->
  exists models,
    init_models R opts = Ok models
    /\ match StdMap.find string_lt name models with
       | Some pm => In (name, table pm, strand pm) (builtin_models R)
       | None => forall tbl st, ~ In (name, tbl, st) (builtin_models R)
       end.
Proof.
  intros A. exists (load_builtin_models R). split.
  - unfold init_models. rewrite read_model_names_args, A. reflexivity.
  - unfold load_builtin_models.
    pose proof (find_load_builtin name (builtin_models R) []) as Q.
    revert Q.
    match goal with
    | |- match ?x with _ => _ end -> _ => destruct x as [pm|]
    end; intros Q.
    + destruct Q as [I|F]; [exact I|discriminate].
    + tauto.
Qed.

End InitModelsTheorems.

Lemma init_models_reports_first_bad_name_witness :
  let R := Sample.reader Sample.read in
  let opts :=
    Sample.options_with ["0:a.model"; "3:b.model"; "1:"]%string
      ["reads"%string] in
  init_models R opts = Raise (could_not_parse "3:b.model").
Proof.
  intros R opts.
  apply (@init_models_reports_first_bad_name Sample.types R opts
           ["0:a.model"%string] ["1:"%string] "3:b.model"%string).
  - reflexivity.
  - repeat constructor.
  - reflexivity.
Defined.

Lemma init_models_rejects_one_strand_only_witness :
  let R := Sample.reader Sample.read in
  let opts :=
    Sample.options_with ["1:a.model"; "1:b.model"]%string ["reads"%string] in
  init_models R opts
  = Raise (exit_called EXIT_FAILURE
             "models were specified only for strand 1! give models for both strands, or for neither.").
Proof.
  intros R opts.
  apply (@init_models_rejects_one_strand_only Sample.types R opts 1).
  - lia.
  - discriminate.
  - intros s [<-|[<-|[]]]; eexists; (split; [|reflexivity]); discriminate.
Defined.

Lemma init_models_well_formed_witness :
  let R := Sample.reader Sample.read in
  let opts :=
    Sample.options_with ["1:b.model"; "0:a.model"; "2:b.model"]%string
      ["reads"%string] in
  let models :=
    [("a.model"%string, Sample.model 0); ("b.model"%string, Sample.model 2)] in
  init_models R opts = Ok models
  /\ StdMap.well_formed string_lt models.
Proof.
  intros R opts models. split; [reflexivity|].
  apply (@init_models_well_formed Sample.types R opts). reflexivity.
Defined.

Lemma custom_model_carries_highest_strand_witness :
  let R := Sample.reader Sample.read in
  let opts :=
    Sample.options_with ["1:b.model"; "0:a.model"; "2:b.model"]%string
      ["reads"%string] in
  let models :=
    [("a.model"%string, Sample.model 0); ("b.model"%string, Sample.model 2)] in
  init_models R opts = Ok models
  /\ match StdMap.find string_lt "b.model"%string models with
     | Some pm =>
         table pm = read_pore_model R "b.model"%string
         /\ strand pm <= 2
         /\ In (decimal (strand pm) ++ ":" ++ "b.model")%string
              (model_args R opts)
         /\ forall st, strand pm < st <= 2 ->
              ~ In (decimal st ++ ":" ++ "b.model")%string (model_args R opts)
     | None =>
         forall st, st <= 2 ->
           ~ In (decimal st ++ ":" ++ "b.model")%string (model_args R opts)
     end.
Proof.
  intros R opts models. split; [reflexivity|].
  apply (@custom_model_carries_highest_strand Sample.types R opts models
           "b.model"%string).
  - discriminate.
  - reflexivity.
Defined.

Lemma builtin_models_by_default_witness :
  let R := Sample.reader Sample.read in
  let opts := Sample.options_with [] ["reads"%string] in
  exists models,
    init_models R opts = Ok models
    /\ match StdMap.find string_lt "t"%string models with
       | Some pm => In ("t"%string, table pm, strand pm) (builtin_models R)
       | None => forall tbl st, ~ In ("t"%string, tbl, st) (builtin_models R)
       end.
Proof.
  intros R opts.
  apply (@builtin_models_by_default Sample.types R opts "t"%string).
  reflexivity.
Defined.

(** ** [init_files] and [init_reads] *)


Section InitFiles.
Context {T : Types}.
Variable R : Reader T.




Local Abbreviation valid := (fun f : string => is_valid_file R f = true).

Lemma add_directory_entries_valid (f : string) (l : list string) :
  forall files, Forall valid files ->
  Forall valid (fold_left (add_directory_entry R f) l files).
Proof.
  induction l as [|g l IH]; intros files F; cbn [fold_left]; [exact F|].
  apply IH. unfold add_directory_entry.
  destruct (is_directory R _); [exact F|].
  destruct (is_valid_file R _) eqn:V; [|exact F].
  apply Forall_app. split; [exact F|]. now constructor.
Qed.

Lemma add_lines_valid (l : list string) :
  forall files, Forall valid files ->
  Forall valid
    (fold_left (fun files g => if is_valid_file R g then files ++ [g] else files)
       l files).
Proof.
  induction l as [|g l IH]; intros files F; cbn [fold_left]; [exact F|].
  apply IH. destruct (is_valid_file R g) eqn:V; [|exact F].
  apply Forall_app. split; [exact F|]. now constructor.
Qed.

Lemma add_input_valid (files : list string) (f : string) :
  Forall valid files -> Forall valid (add_input R files f).
Proof.
  intros F. unfold add_input. destruct (is_directory R f).
  - now apply add_directory_entries_valid.
  - destruct (negb (f =? "-")%string && is_valid_file R f) eqn:C.
    + apply andb_true_iff in C. destruct C as [_ V].
      apply Forall_app. split; [exact F|]. now constructor.
    + now apply add_lines_valid.
Qed.

Lemma add_inputs_valid (l : list string) :
  forall files, Forall valid files ->
  Forall valid (fold_left (add_input R) l files).
Proof.
  induction l as [|f l IH]; intros files F; cbn [fold_left]; [exact F|].
  apply IH. now apply add_input_valid.
Qed.

Lemma init_files_failure (opts : Options T) :
  match init_files R opts with
  | Ok files => files <> []
  | Raise e => e = exit_called EXIT_FAILURE "no fast5 files to process"
  end.
Proof.
  unfold init_files.
  destruct (fold_left (add_input R) (input_fn opts) []) as [|f files];
    cbn [is_empty]; [reflexivity|discriminate].
Qed.

(** X7.  [init_files] either returns a list of files that is not empty
    and holds only paths that [fast5::File::is_valid_file] accepts, or ends
    the process with [EXIT_FAILURE] and the diagnostic "no fast5 files to
    process"; it fails in no other way. *)
Theorem init_files_returns_valid_files (opts : Options T) :
  match init_files R opts with
  | Ok files =>
      files <> [] /\ Forall (fun f => is_valid_file R f = true) files
  | Raise e => e = exit_called EXIT_FAILURE "no fast5 files to process"
  end.
Proof.
  unfold init_files.
  pose proof (add_inputs_valid (input_fn opts) (Forall_nil _)) as V.
  destruct (fold_left (add_input R) (input_fn opts) []) as [|f files];
    cbn [is_empty]; [reflexivity|].
  split; [discriminate|exact V].
Qed.



End InitFiles.


(** ** [rescale_reads]: the training windows *)

Section TrainingWindows.
Context {T : Types}.
Variable opts : Options T.

Lemma train_event_seqs_get (rs : Fast5_Summary_Type T) (st : nat) :
  st < 2 -> too_short opts rs st = false ->
  get2 (train_event_seqs opts rs) st
  = (let ev := get2 (events rs) st in
     let n_events := Nat.min (scale_num_events opts) (List.length ev) in
     [firstn (n_events / 2) ev; skipn (List.length ev - n_events / 2) ev]).
Proof.
  intros L H. unfold train_event_seqs. cbn [fold_left].
  assert (C : st = 0 \/ st = 1) by lia.
  destruct C as [-> | ->]; rewrite H.
  - now destruct (too_short opts rs 1).
  - now destruct (too_short opts rs 0).
Qed.

(** X10.  For a strand with at least [min_read_len] events,
    [rescale_reads] trains on two windows of the events: the first and the
    last [n / 2] of them, where [n] is the smaller of [scale_num_events]
    and the number of events.  The two windows have the same length and
    never overlap: the events are the first window, then what lies
    between, then the second window. *)
Theorem training_windows_do_not_overlap (rs : Fast5_Summary_Type T)
  (st : nat) :
  st < 2 ->
  too_short opts rs st = false ->
  exists head middle tail,
    get2 (train_event_seqs opts rs) st = [head; tail]
    /\ get2 (events rs) st = head ++ middle ++ tail
    /\ List.length head
       = Nat.min (scale_num_events opts) (List.length (get2 (events rs) st)) / 2
    /\ List.length tail = List.length head.
Proof.
  intros L H. rewrite (train_event_seqs_get rs L H). cbv zeta.
  set (ev := get2 (events rs) st).
  set (k := Nat.min (scale_num_events opts) (List.length ev) / 2).
  assert (K : 2 * k <= List.length ev).
  { unfold k.
    pose proof (Nat.Div0.mul_div_le
                  (Nat.min (scale_num_events opts) (List.length ev)) 2).
    lia. }
  exists (firstn k ev), (firstn (List.length ev - 2 * k) (skipn k ev)),
    (skipn (List.length ev - k) ev).
  split; [reflexivity|]. split; [|split].
  - replace (skipn (List.length ev - k) ev)
      with (skipn (List.length ev - 2 * k) (skipn k ev)).
    + now rewrite firstn_skipn, firstn_skipn.
    + rewrite skipn_skipn. f_equal. lia.
  - apply firstn_length_le. lia.
  - rewrite length_skipn, firstn_length_le; lia.
Qed.

End TrainingWindows.

Lemma training_windows_do_not_overlap_witness :
  exists head middle tail : list nat,
    get2 (train_event_seqs (Sample.options false false 10 80) Sample.read) 0
    = [head; tail]
    /\ get2 (events Sample.read) 0 = head ++ middle ++ tail
    /\ List.length head
       = Nat.min 200 (List.length (get2 (events Sample.read) 0)) / 2
    /\ List.length tail = List.length head.
Proof.
  apply (@training_windows_do_not_overlap Sample.types
           (Sample.options false false 10 80) Sample.read 0).
  - lia.
  - reflexivity.
Defined.

(** ** [rescale_reads]: the fit over the rounds *)

Section FitOverRounds.
Context {T : Types}.
Variable E : Kernel T.
Variable opts : Options T.
Variable train :
  Pore_Model_Parameters_Type T ->
  Pore_Model_Parameters_Type T * Float_Type T * bool.
Variable rid : string.
Variable label : nat.
Variable m_name : string.
Hypothesis float_order : strict_weak_order (float_lt E).
Hypothesis never_done : forall p, snd (train p) = false.
Variable fit0 : Float_Type T.

Lemma rounds_keep_fit (fuel : nat) :
  forall s s' : @Scaling_State T,
  float_lt E (crt_fit s) fit0 = false ->
  scaling_rounds E opts fuel train rid label m_name s = Ok s' ->
  float_lt E (crt_fit s') fit0 = false.
Proof.
  destruct float_order as [Irr Tr Neg].
  induction fuel as [|fuel IH]; intros s s' H0; [discriminate|].
  destruct (train (crt_pm_params s)) as [[p f] done] eqn:Ht.
  assert (D : done = false).
  { pose proof (never_done (crt_pm_params s)) as N. now rewrite Ht in N. }
  subst done.
  destruct (float_lt E f (crt_fit s)) eqn:Hr.
  { rewrite (@rounds_regress T E opts train rid label m_name fuel s p f Ht Hr). now intros [= <-]. }
  assert (F : float_lt E f fit0 = false) by (eapply Neg; eassumption).
  destruct (stop_condition E opts s f) eqn:C.
  { rewrite (@rounds_stop T E opts train rid label m_name fuel s p f Ht Hr C). now intros [= <-]. }
  assert (N : next_round E opts train rid label m_name s
                (advanced rid label m_name s p f))
    by (exists p, f; repeat split; assumption).
  rewrite (@rounds_next T E opts train rid label m_name fuel s _ N). apply IH. exact F.
Qed.

End FitOverRounds.

(** X11.  The loop of the rounds after round 0 always leaves, and unless
    the trainer signals a singularity, it leaves with a fit that is not
    below the fit it was entered with. *)
Theorem scaling_loop_never_lowers_fit {T : Types} (E : Kernel T)
  (opts : Options T)
  (train : Pore_Model_Parameters_Type T ->
           Pore_Model_Parameters_Type T * Float_Type T * bool)
  (rid : string) (label : nat) (m_name : string)
  (params0 : Pore_Model_Parameters_Type T) (fit0 : Float_Type T)
  (log0 : list (Log_Line T)) :
  strict_weak_order (float_lt E) ->
  (forall p, snd (train p) = false) ->
  exists s,
    scaling_loop E opts train rid label m_name params0 fit0 log0 = Ok s
    /\ float_lt E (crt_fit s) fit0 = false.
Proof.
  intros FO ND.
  destruct (scaling_loop_total E opts train rid label m_name params0 fit0 log0)
    as (s & R & _).
  exists s. split; [exact R|].
  unfold scaling_loop in R.
  eapply rounds_keep_fit; [exact FO|exact ND| |exact R].
  cbn [crt_fit]. now destruct FO.
Qed.

Lemma scaling_loop_never_lowers_fit_witness :
  let E := Sample.kernel Sample.train_regressing Sample.decode in
  let opts := Sample.options false false 10 80 in
  exists s,
    scaling_loop E opts (Sample.train_regressing [Sample.model 0]) "r1" 0 "a"
      0%Z 10%Z []
    = Ok s
    /\ float_lt E (crt_fit s) 10%Z = false.
Proof.
  intros E opts.
  apply (@scaling_loop_never_lowers_fit Sample.types E opts
           (Sample.train_regressing [Sample.model 0]) "r1"%string 0
           "a"%string 0%Z 10%Z []).
  - exact Z_ltb_strict_weak_order.
  - reflexivity.
Defined.

(** ** [rescale_reads]: one strand at a time *)

Lemma scaled_in_refl {T : Types} (st : nat) (rs : Fast5_Summary_Type T) :
  scaled_in st rs rs.
Proof. unfold scaled_in. auto. Qed.

Lemma scaled_in_trans {T : Types} (st : nat)
  (rs1 rs2 rs3 : Fast5_Summary_Type T) :
  scaled_in st rs1 rs2 -> scaled_in st rs2 rs3 -> scaled_in st rs1 rs3.
Proof.
  unfold scaled_in. intros (a1 & b1 & c1 & d1 & e1) (a2 & b2 & c2 & d2 & e2).
  repeat split; try congruence.
  intros j L N. rewrite e2, e1; auto.
Qed.

Lemma scaled_in_with_params {T : Types} (st : nat) (rs : Fast5_Summary_Type T)
  (m : string) (v : Pore_Model_Parameters_Type T)
  (pst : name_map (Pore_Model_Parameters_Type T)) :
  st <= 2 ->
  name_at_assign m v (get3 (params rs) st) = Ok pst ->
  scaled_in st rs (with_params rs st pst).
Proof.
  intros L A. unfold scaled_in.
  cbn [with_params read_id base_file_name events params].
  repeat split.
  - rewrite get3_set3. eapply keys_name_at_assign; exact A.
  - intros j Lj N. apply get3_set3_other; auto.
Qed.

Lemma scaled_in_find {T : Types} (st : nat) (rs rs' : Fast5_Summary_Type T)
  (m : string) :
  scaled_in st rs rs' ->
  StdMap.find string_lt m (get3 (params rs) st) <> None ->
  StdMap.find string_lt m (get3 (params rs') st) <> None.
Proof.
  intros (_ & _ & _ & K & _). now apply find_same_keys.
Qed.

Lemma scaled_in_find_none {T : Types} (st : nat)
  (rs rs' : Fast5_Summary_Type T) (m : string) :
  scaled_in st rs rs' ->
  StdMap.find string_lt m (get3 (params rs) st) = None ->
  StdMap.find string_lt m (get3 (params rs') st) = None.
Proof.
  intros (_ & _ & _ & K & _). apply StdMapFacts.find_keys. now symmetry.
Qed.

Lemma name_at_missing {V : Type} (k : string) (m : name_map V) :
  StdMap.find string_lt k m = None -> name_at k m = Raise (out_of_range k).
Proof.
  intros H. unfold name_at, StdMap.at_. now rewrite H.
Qed.

Lemma max_of_from_in {T : Types} (E : Kernel T) {K : Type}
  (rest : list (K * Float_Type T)) :
  forall best, In (max_of_from E best rest) (best :: rest).
Proof.
  induction rest as [|e rest IH]; intros best; cbn [max_of_from].
  - now left.
  - destruct (float_lt E (snd best) (snd e)).
    + right. apply IH.
    + destruct (IH best) as [I|I]; [now left|right; now right].
Qed.

Section RescaleStrand.
Context {T : Types}.
Variable E : Kernel T.
Variable opts : Options T.
Variable models : Pore_Model_Dict_Type T.
Variable transitions : State_Transitions_Type T.
Variable seqs : list (Event_Sequence_Type T).
Variable st : nat.
Hypothesis st_ok : st <= 2.

Local Abbreviation Summary := (Fast5_Summary_Type T).
Local Abbreviation has_params rs m :=
  (StdMap.find string_lt m (get3 (params rs) st) <> None).
Local Abbreviation loaded_model m :=
  (StdMap.find string_lt m models <> None).

Lemma first_round_single_ok (rs : Summary) (mf : name_map (Float_Type T))
  (lg : list (Log_Line T)) (m : string) :
  loaded_model m -> has_params rs m ->
  exists rs' fit lg',
    first_round_single E models transitions seqs st (rs, mf, lg) m
    = Ok (rs', name_assign m fit mf, lg')
    /\ scaled_in st rs rs'
    /\ preferred_model rs' = preferred_model rs.
Proof.
  intros M P. unfold first_round_single.
  apply name_at_found in P. destruct P as (old & A). rewrite A. cbn [bind].
  apply name_at_found in M. destruct M as (pm & M). rewrite M. cbn [bind].
  destruct (train_one_round E seqs [pm] transitions old) as [[p' f'] done].
  erewrite name_at_assign_ok by exact A. cbn [bind].
  eexists. exists f'. eexists. split; [reflexivity|]. split; [|reflexivity].
  eapply scaled_in_with_params; [exact st_ok|].
  eapply name_at_assign_ok. exact A.
Qed.

Lemma first_round_single_missing (rs : Summary) (mf : name_map (Float_Type T))
  (lg : list (Log_Line T)) (m : string) :
  StdMap.find string_lt m (get3 (params rs) st) = None ->
  first_round_single E models transitions seqs st (rs, mf, lg) m
  = Raise (out_of_range m).
Proof.
  intros P. unfold first_round_single.
  now rewrite (name_at_missing _ _ P).
Qed.

Lemma first_rounds_single_ok (l : list string) :
  forall (rs : Summary) (mf : name_map (Float_Type T))
         (lg : list (Log_Line T)),
  (forall m, In m l -> loaded_model m /\ has_params rs m) ->
  exists rs' mf' lg',
    for_each (first_round_single E models transitions seqs st) l (rs, mf, lg)
    = Ok (rs', mf', lg')
    /\ scaled_in st rs rs'
    /\ preferred_model rs' = preferred_model rs
    /\ (forall k, In k (StdMap.keys mf') -> In k (StdMap.keys mf) \/ In k l)
    /\ (l <> [] -> mf' <> []).
Proof.
  induction l as [|m l IH]; intros rs mf lg H.
  - exists rs, mf, lg. cbn [for_each].
    repeat split; auto using scaled_in_refl; congruence.
  - destruct (H m (or_introl eq_refl)) as (M & P).
    destruct (@first_round_single_ok rs mf lg m M P)
      as (rs1 & fit & lg1 & S1 & F1 & P1).
    destruct (IH rs1 (name_assign m fit mf) lg1)
      as (rs' & mf' & lg' & S2 & F2 & P2 & K2 & N2).
    { intros x Hx. destruct (H x (or_intror Hx)) as (Mx & Px).
      split; [exact Mx|]. eapply scaled_in_find; eassumption. }
    exists rs', mf', lg'. cbn [for_each]. rewrite S1. cbn [bind].
    split; [exact S2|]. split; [eapply scaled_in_trans; eassumption|].
    split; [congruence|]. split.
    + intros k Hk. destruct (K2 k Hk) as [I|I]; [|right; now right].
      apply keys_subscript_assign_in in I. destruct I as [->|I]; auto.
      right; now left.
    + intros _. destruct l as [|x l].
      * cbn [for_each] in S2. injection S2 as <- <- <-.
        apply subscript_assign_not_nil.
      * apply N2. discriminate.
Qed.

Lemma more_rounds_single_ok (mf : name_map (Float_Type T)) (rs : Summary)
  (lg : list (Log_Line T)) (m : string) :
  loaded_model m -> has_params rs m ->
  exists rs' lg',
    more_rounds_single E opts models transitions seqs st mf (rs, lg) m
    = Ok (rs', lg')
    /\ scaled_in st rs rs'
    /\ preferred_model rs' = preferred_model rs.
Proof.
  intros M P. unfold more_rounds_single.
  apply name_at_found in P. destruct P as (p0 & A). rewrite A. cbn [bind].
  apply name_at_found in M. destruct M as (pm & M). rewrite M. cbn [bind].
  destruct (scaling_loop_total E opts (train_one_round E seqs [pm] transitions)
              (read_id rs) st m p0
              (StdMap.subscript string_lt (float_zero E) m mf) lg)
    as (s & L & _).
  rewrite L. cbn [bind].
  erewrite name_at_assign_ok by exact A. cbn [bind].
  eexists. eexists. split; [reflexivity|]. split; [|reflexivity].
  eapply scaled_in_with_params; [exact st_ok|].
  eapply name_at_assign_ok. exact A.
Qed.

Lemma more_rounds_single_missing (mf : name_map (Float_Type T)) (rs : Summary)
  (lg : list (Log_Line T)) (m : string) :
  StdMap.find string_lt m (get3 (params rs) st) = None ->
  more_rounds_single E opts models transitions seqs st mf (rs, lg) m
  = Raise (out_of_range m).
Proof.
  intros P. unfold more_rounds_single. now rewrite (name_at_missing _ _ P).
Qed.

Lemma more_rounds_singles_ok (mf : name_map (Float_Type T))
  (l : list string) :
  forall (rs : Summary) (lg : list (Log_Line T)),
  (forall m, In m l -> loaded_model m /\ has_params rs m) ->
  exists rs' lg',
    for_each (more_rounds_single E opts models transitions seqs st mf) l
      (rs, lg)
    = Ok (rs', lg')
    /\ scaled_in st rs rs'
    /\ preferred_model rs' = preferred_model rs.
Proof.
  induction l as [|m l IH]; intros rs lg H.
  - exists rs, lg. cbn [for_each]. auto using scaled_in_refl.
  - destruct (H m (or_introl eq_refl)) as (M & P).
    destruct (@more_rounds_single_ok mf rs lg m M P) as (rs1 & lg1 & S1 & F1 & P1).
    destruct (IH rs1 lg1) as (rs' & lg' & S2 & F2 & P2).
    { intros x Hx. destruct (H x (or_intror Hx)) as (Mx & Px).
      split; [exact Mx|]. eapply scaled_in_find; eassumption. }
    exists rs', lg'. cbn [for_each]. rewrite S1. cbn [bind].
    split; [exact S2|]. split; [eapply scaled_in_trans; eassumption|].
    congruence.
Qed.

End RescaleStrand.

Section RescaleSeparately.
Context {T : Types}.
Variable E : Kernel T.
Variable opts : Options T.
Variable models : Pore_Model_Dict_Type T.
Variable transitions : State_Transitions_Type T.

Local Abbreviation Summary := (Fast5_Summary_Type T).

Lemma scaled_in_with_preferred_model (st j : nat) (rs : Summary)
  (m : string) :
  scaled_in st rs (with_preferred_model rs j m).
Proof. unfold scaled_in. cbn. auto. Qed.

(** One strand: the body of the loop over the strands returns when each
    model of the strand's list is loaded and has parameters in the read,
    and, where a model is to be selected, the list is not empty. *)
Lemma rescale_strand_ok (model_list : array2 (list string))
  (train_seqs : array2 (list (Event_Sequence_Type T)))
  (rs : Summary) (lg : list (Log_Line T)) (st : nat) :
  st <= 2 ->
  (too_short opts rs st = false ->
   forall m, In m (get2 model_list st) ->
     StdMap.find string_lt m models <> None
     /\ StdMap.find string_lt m (get3 (params rs) st) <> None) ->
  (too_short opts rs st = false ->
   scale_select_model_single_round opts = true ->
   get2 model_list st <> []) ->
  exists rs' lg',
    rescale_strand E opts models transitions model_list train_seqs (rs, lg) st
    = Ok (rs', lg')
    /\ scaled_in st rs rs'
    /\ (scale_select_model_single_round opts = false ->
        preferred_model rs' = preferred_model rs)
    /\ (forall j, j < 2 -> st < 2 -> j <> st ->
          get2 (preferred_model rs') j = get2 (preferred_model rs) j).
Proof.
  intros L H N.
  destruct (too_short opts rs st) eqn:Sh.
  { exists rs, lg. unfold rescale_strand. rewrite Sh.
    repeat split; auto using scaled_in_refl. }
  specialize (H eq_refl). specialize (N eq_refl).
  destruct (@first_rounds_single_ok T E models transitions
              (get2 train_seqs st) st L (get2 model_list st) rs [] lg H)
    as (rs1 & mf & lg1 & S1 & F1 & P1 & K1 & N1).
  assert (H1 : forall m, In m (get2 model_list st) ->
                 StdMap.find string_lt m models <> None
                 /\ StdMap.find string_lt m (get3 (params rs1) st) <> None).
  { intros m I. destruct (H m I) as (Mm & Pm). split; [exact Mm|].
    eapply scaled_in_find; eassumption. }
  destruct (scale_select_model_single_round opts) eqn:Sel.
  - specialize (N eq_refl). specialize (N1 N).
    destruct mf as [|e mf]; [congruence|].
    pose proof (max_of_from_in E mf e) as I.
    destruct (max_of_from E e mf) as [m fit] eqn:Mx.
    assert (Im : In m (get2 model_list st)).
    { destruct (K1 m) as [[]|Im]; [|exact Im].
      unfold StdMap.keys. change m with (fst (m, fit)). now apply in_map. }
    destruct (@more_rounds_singles_ok T E opts models transitions
                (get2 train_seqs st) st L (e :: mf) [m]
                (with_preferred_model rs1 st m)
                (lg1 ++ [selected_model (read_id rs1) st m]))
      as (rs' & lg' & S2 & F2 & P2).
    { intros x [<-|[]]. cbn [with_preferred_model params]. now apply H1. }
    exists rs', lg'. split; [|split; [|split]].
    + unfold rescale_strand. rewrite Sh. cbv zeta.
      match goal with
      | |- bind ?a _ = _ =>
          replace a with (Ok (rs1, e :: mf, lg1)) by (symmetry; exact S1)
      end.
      cbn [bind]. unfold select_single. rewrite Sel. cbn [max_of].
      rewrite Mx. cbn [bind]. exact S2.
    + eapply scaled_in_trans; [exact F1|].
      eapply scaled_in_trans; [|exact F2].
      apply scaled_in_with_preferred_model.
    + discriminate.
    + intros j Lj Ls Nj. rewrite P2.
      cbn [with_preferred_model preferred_model]. rewrite P1.
      destruct st as [|[|st']], j as [|[|j']]; cbn; try lia; reflexivity.
  - destruct (@more_rounds_singles_ok T E opts models transitions
                (get2 train_seqs st) st L mf (get2 model_list st) rs1 lg1 H1)
      as (rs' & lg' & S2 & F2 & P2).
    exists rs', lg'. split; [|split; [|split]].
    + unfold rescale_strand. rewrite Sh. cbv zeta.
      match goal with
      | |- bind ?a _ = _ =>
          replace a with (Ok (rs1, mf, lg1)) by (symmetry; exact S1)
      end.
      cbn [bind]. unfold select_single. rewrite Sel. cbn [bind]. exact S2.
    + eapply scaled_in_trans; eassumption.
    + intros _; congruence.
    + intros j _ _ _. congruence.
Qed.

End RescaleSeparately.

Section RescaleTheorems.
Context {T : Types}.
Variable E : Kernel T.
Variable opts : Options T.
Variable models : Pore_Model_Dict_Type T.
Variable transitions : State_Transitions_Type T.

Local Abbreviation Summary := (Fast5_Summary_Type T).

(** X12.  When the strands of a read are scaled one at a time,
    [rescale_reads] throws nothing and meets no undefined behaviour,
    provided that the read holds parameters for every model on the list of
    each strand with enough events and, where a model is to be selected,
    that list is not empty.  It then leaves the events as they were, adds
    and removes no parameter entry (it only overwrites values), leaves
    [params[2]] alone, and changes the preferred models only when
    [scale_select_model_single_round] is set. *)
Theorem rescale_separately_returns (rs : Summary) :
  StdMap.well_formed string_lt models ->
  scales_together opts rs = false ->
  (forall st m, st < 2 -> too_short opts rs st = false ->
     In m (model_shortlist models rs st) ->
     StdMap.find string_lt m (get3 (params rs) st) <> None) ->
  (scale_select_model_single_round opts = true ->
   forall st, st < 2 -> too_short opts rs st = false ->
     model_shortlist models rs st <> []) ->
  exists rs' lg,
    rescale_loaded E opts models transitions rs = Ok (rs', lg)
    /\ events rs' = events rs
    /\ (forall st, st <= 2 ->
          StdMap.keys (get3 (params rs') st) = StdMap.keys (get3 (params rs) st))
    /\ get3 (params rs') 2 = get3 (params rs) 2
    /\ (scale_select_model_single_round opts = false ->
        preferred_model rs' = preferred_model rs).
Proof.
  intros W Sep P N.
  destruct (@rescale_strand_ok T E opts models transitions
              (rescale_model_list opts models rs) (train_event_seqs opts rs)
              rs [] 0)
    as (rs0 & lg0 & S0 & F0 & P0 & _).
  { lia. }
  { intros Sh m. rewrite rescale_model_list_get by (lia || exact Sh).
    intros I. split; [eapply shortlist_in_models; eassumption|].
    apply P; (lia || assumption). }
  { intros Sh Sel. rewrite rescale_model_list_get by (lia || exact Sh).
    apply N; (lia || assumption). }
  destruct F0 as (Id0 & Bf0 & Ev0 & K0 & O0).
  assert (Sh1 : too_short opts rs0 1 = too_short opts rs 1)
    by (unfold too_short; now rewrite Ev0).
  destruct (@rescale_strand_ok T E opts models transitions
              (rescale_model_list opts models rs) (train_event_seqs opts rs)
              rs0 lg0 1)
    as (rs1 & lg1 & S1 & F1 & P1 & _).
  { lia. }
  { rewrite Sh1. intros Sh m.
    rewrite rescale_model_list_get by (lia || exact Sh).
    intros I. split; [eapply shortlist_in_models; eassumption|].
    rewrite O0 by lia. apply P; (lia || assumption). }
  { rewrite Sh1. intros Sh Sel.
    rewrite rescale_model_list_get by (lia || exact Sh).
    apply N; (lia || assumption). }
  destruct F1 as (Id1 & Bf1 & Ev1 & K1 & O1).
  exists rs1, lg1. split; [|split; [|split; [|split]]].
  - unfold rescale_loaded. rewrite Sep. cbn [for_each].
    rewrite S0. cbn [bind]. rewrite S1. reflexivity.
  - congruence.
  - intros st L. assert (C : st = 0 \/ st = 1 \/ st = 2) by lia.
    destruct C as [-> | [-> | ->]].
    + rewrite O1 by lia. exact K0.
    + rewrite K1. now rewrite O0 by lia.
    + rewrite O1 by lia. now rewrite O0 by lia.
  - rewrite O1 by lia. now rewrite O0 by lia.
  - intros Sel. rewrite (P1 Sel). exact (P0 Sel).
Qed.

(** X13.  A model on the list of a strand for which the read holds no
    parameters makes [rescale_reads] throw [std::out_of_range] in round 0,
    at the first such model of the list; nothing catches it. *)
Theorem rescale_strand_missing_parameters
  (model_list : array2 (list string))
  (train_seqs : array2 (list (Event_Sequence_Type T)))
  (rs : Summary) (lg : list (Log_Line T)) (st : nat)
  (before after : list string) (m : string) :
  st <= 2 ->
  too_short opts rs st = false ->
  get2 model_list st = before ++ m :: after ->
  (forall x, In x before ->
     StdMap.find string_lt x models <> None
     /\ StdMap.find string_lt x (get3 (params rs) st) <> None) ->
  StdMap.find string_lt m (get3 (params rs) st) = None ->
  rescale_strand E opts models transitions model_list train_seqs (rs, lg) st
  = Raise (out_of_range m).
Proof.
  intros L Sh Q B M. unfold rescale_strand. rewrite Sh. cbv zeta.
  rewrite Q, for_each_app.
  destruct (@first_rounds_single_ok T E models transitions
              (get2 train_seqs st) st L before rs [] lg B)
    as (rs1 & mf & lg1 & S1 & F1 & _).
  match goal with
  | |- bind (bind ?a _) _ = _ =>
      replace a with (Ok (rs1, mf, lg1)) by (symmetry; exact S1)
  end.
  cbn [bind for_each].
  rewrite first_round_single_missing; [reflexivity|].
  eapply scaled_in_find_none; eassumption.
Qed.

End RescaleTheorems.

Lemma rescale_separately_returns_witness :
  let E := Sample.kernel Sample.train_rising Sample.decode in
  let opts := Sample.options false true 10 80 in
  exists rs' lg,
    rescale_loaded E opts Sample.models tt Sample.read = Ok (rs', lg)
    /\ events rs' = events Sample.read
    /\ (forall st, st <= 2 ->
          StdMap.keys (get3 (params rs') st)
          = StdMap.keys (get3 (params Sample.read) st))
    /\ get3 (params rs') 2 = get3 (params Sample.read) 2
    /\ (scale_select_model_single_round opts = false ->
        preferred_model rs' = preferred_model Sample.read).
Proof.
  intros E opts.
  apply (@rescale_separately_returns Sample.types E opts Sample.models tt
           Sample.read).
  - exact sample_models_well_formed.
  - reflexivity.
  - intros st m L _ I.
    destruct st as [|[|st]]; [| |lia]; cbn in I;
      destruct I as [<-|[<-|[]]]; discriminate.
  - intros _ st L _. destruct st as [|[|st]]; [| |lia]; discriminate.
Defined.

Lemma rescale_strand_missing_parameters_witness :
  let E := Sample.kernel Sample.train_rising Sample.decode in
  let opts := Sample.options false false 10 80 in
  rescale_strand E opts Sample.models tt
    (rescale_model_list opts Sample.models Sample.read_foo)
    (train_event_seqs opts Sample.read_foo) (Sample.read_foo, []) 0
  = Raise (out_of_range "a").
Proof.
  intros E opts.
  apply (@rescale_strand_missing_parameters Sample.types E opts Sample.models
           tt (rescale_model_list opts Sample.models Sample.read_foo)
           (train_event_seqs opts Sample.read_foo) Sample.read_foo [] 0
           [] ["c"%string] "a"%string).
  - lia.
  - reflexivity.
  - reflexivity.
  - intros x [].
  - reflexivity.
Defined.

(** ** [basecall_reads]: when a strand is basecalled *)

Lemma back_in {T : Types} (l : list (@Result_Tuple T))
  (best : @Result_Tuple T) :
  back l = Ok best -> In best l.
Proof.
  unfold back. destruct (rev l) as [|r rest] eqn:Rv; [discriminate|].
  intros [= <-]. apply in_rev. rewrite Rv. now left.
Qed.

Section BasecallReturns.
Context {T : Types}.
Variable E : Kernel T.
Variable opts : Options T.
Variable models : Pore_Model_Dict_Type T.
Variable transitions : State_Transitions_Type T.

Local Abbreviation Summary := (Fast5_Summary_Type T).
Local Abbreviation Tuple := (@Result_Tuple T).

Lemma evaluate_model_ok (rs : Summary) (st : nat) (m : string) :
  StdMap.find string_lt m models <> None ->
  StdMap.find string_lt m (get3 (params rs) st) <> None ->
  exists r, evaluate_model E models transitions rs st m = Ok r
            /\ model_name r = m.
Proof.
  intros M P. unfold evaluate_model.
  apply name_at_found in M. destruct M as (pm & M). rewrite M. cbn [bind].
  apply name_at_found in P. destruct P as (pp & P). rewrite P. cbn [bind].
  destruct (viterbi E (scale E pm pp) transitions
              (apply_drift_correction E (get2 (events rs) st) (drift E pp)))
    as [prob seq].
  eexists. split; reflexivity.
Qed.

Lemma evaluate_model_name (rs : Summary) (st : nat) (m : string) (r : Tuple) :
  evaluate_model E models transitions rs st m = Ok r -> model_name r = m.
Proof.
  unfold evaluate_model.
  destruct (name_at m models) as [pm|]; cbn [bind]; [|discriminate].
  destruct (name_at m (get3 (params rs) st)) as [pp|]; cbn [bind];
    [|discriminate].
  destruct (viterbi E (scale E pm pp) transitions
              (apply_drift_correction E (get2 (events rs) st) (drift E pp)))
    as [prob seq].
  now intros [= <-].
Qed.

Lemma call_with_model_evaluates (rs : Summary) (st : nat)
  (acc : list Tuple) (m : string) :
  call_with_model E models transitions st (rs, acc) m
  = (r <- evaluate_model E models transitions rs st m ;; Ok (rs, acc ++ [r])).
Proof.
  unfold call_with_model, evaluate_model.
  destruct (name_at m models) as [pm|]; cbn [bind]; [|reflexivity].
  destruct (name_at m (get3 (params rs) st)) as [pp|]; cbn [bind];
    [|reflexivity].
  now destruct (viterbi E (scale E pm pp) transitions
                  (apply_drift_correction E (get2 (events rs) st)
                     (drift E pp))).
Qed.

Lemma call_with_models_ok (rs : Summary) (st : nat) (l : list string) :
  forall acc : list Tuple,
  (forall m, In m l ->
     StdMap.find string_lt m models <> None
     /\ StdMap.find string_lt m (get3 (params rs) st) <> None) ->
  exists news,
    for_each (call_with_model E models transitions st) l (rs, acc)
    = Ok (rs, acc ++ news)
    /\ Forall2 (fun m r => evaluate_model E models transitions rs st m = Ok r)
         l news.
Proof.
  induction l as [|m l IH]; intros acc H; cbn [for_each].
  - exists []. rewrite app_nil_r. split; [reflexivity|constructor].
  - destruct (H m (or_introl eq_refl)) as (M & P).
    destruct (@evaluate_model_ok rs st m M P) as (r & Ev & _).
    rewrite call_with_model_evaluates, Ev. cbn [bind].
    destruct (IH (acc ++ [r])) as (news & F & A).
    { intros x Hx. apply H. now right. }
    exists (r :: news). rewrite F, <- app_assoc. split; [reflexivity|].
    now constructor.
Qed.

(** X14.  For a strand with at least [min_read_len] events whose model
    list is not empty, [basecall_reads] throws nothing and meets no
    undefined behaviour, provided that the read holds parameters for every
    model of the list (and the base sequences fit the 32-bit column
    counter of [write_fasta]).  The model that it then leaves as the
    preferred model of the strand is a model of the list, hence a key of
    the dictionary. *)
Theorem basecall_strand_returns (rs : Summary) (oss : string) (st : nat) :
  StdMap.well_formed string_lt models ->
  (0 < fasta_line_width opts)%N ->
  too_short opts rs st = false ->
  model_sublist models rs st <> [] ->
  (forall m, In m (model_sublist models rs st) ->
     StdMap.find string_lt m (get3 (params rs) st) <> None) ->
  (forall m r, In m (model_sublist models rs st) ->
     evaluate_model E models transitions rs st m = Ok r ->
     (N.of_nat (String.length (base_seq r)) + fasta_line_width opts
      <= 2 ^ 32)%N) ->
  exists rs' oss',
    basecall_strand E opts models transitions (rs, oss) st = Ok (rs', oss')
    /\ In (get2 (preferred_model rs') st) (model_sublist models rs st)
    /\ StdMap.find string_lt (get2 (preferred_model rs') st) models <> None.
Proof.
  intros W Wp Sh Ne P Len.
  destruct (@call_with_models_ok rs st (model_sublist models rs st) [])
    as (results & F & A).
  { intros m I. split; [|now apply P].
    eapply shortlist_in_models; [exact W|exact I]. }
  cbn [app] in F.
  assert (Nr : std_sort E results <> []).
  { intros Z. pose proof (std_sort_perm E results) as Pm. rewrite Z in Pm.
    apply Permutation_sym, Permutation_nil in Pm. subst results.
    inversion A as [Q|]. now rewrite <- Q in Ne. }
  destruct (back_nonempty Nr) as (best & B).
  assert (Ib : In best results).
  { eapply Permutation_in; [apply Permutation_sym, std_sort_perm|].
    apply back_in. exact B. }
  assert (Im : exists m, In m (model_sublist models rs st)
                         /\ evaluate_model E models transitions rs st m
                            = Ok best).
  { clear - A Ib. induction A as [|m r l rs' Hm _ IH]; [destruct Ib|].
    destruct Ib as [<-|I].
    - exists m. split; [now left|exact Hm].
    - destruct (IH I) as (x & Hx & Ex). exists x. split; [now right|exact Ex]. }
  destruct Im as (m & Hm & Em).
  destruct (write_fasta_format opts (base_seq best) Wp (Len m best Hm Em) oss
              (record_name rs st)) as (lines & Wf & _).
  eexists. eexists. split; [|split].
  - rewrite (basecall_strand_steps E opts models transitions rs oss st Sh F B).
    rewrite Wf. reflexivity.
  - cbn [with_preferred_model preferred_model]. rewrite get2_set2.
    now rewrite (@evaluate_model_name rs st m best Em).
  - cbn [with_preferred_model preferred_model]. rewrite get2_set2.
    rewrite (@evaluate_model_name rs st m best Em).
    eapply shortlist_in_models; [exact W|exact Hm].
Qed.

(** X15.  A model on the list of a strand for which the read holds no
    parameters makes [basecall_reads] throw [std::out_of_range] at the
    first such model of the list. *)
Theorem basecall_strand_missing_parameters (rs : Summary) (oss : string)
  (st : nat) (before after : list string) (m : string) :
  StdMap.well_formed string_lt models ->
  too_short opts rs st = false ->
  model_sublist models rs st = before ++ m :: after ->
  (forall x, In x before ->
     StdMap.find string_lt x (get3 (params rs) st) <> None) ->
  StdMap.find string_lt m (get3 (params rs) st) = None ->
  basecall_strand E opts models transitions (rs, oss) st
  = Raise (out_of_range m).
Proof.
  intros W Sh Q B M. unfold basecall_strand. rewrite Sh, Q, for_each_app.
  destruct (@call_with_models_ok rs st before []) as (results & F & _).
  { intros x I. split; [|now apply B].
    apply (@shortlist_in_models T models rs st x W).
    change (In x (model_sublist models rs st)).
    rewrite Q. apply in_or_app. left. exact I. }
  rewrite F. cbn [bind for_each app].
  rewrite call_with_model_evaluates. unfold evaluate_model.
  assert (Mm : StdMap.find string_lt m models <> None).
  { apply (@shortlist_in_models T models rs st m W).
    change (In m (model_sublist models rs st)).
    rewrite Q. apply in_or_app. right. now left. }
  apply name_at_found in Mm. destruct Mm as (pm & Mm). rewrite Mm.
  cbn [bind]. now rewrite (name_at_missing _ _ M).
Qed.

End BasecallReturns.

Lemma basecall_strand_returns_witness :
  let E := Sample.kernel Sample.train_rising Sample.decode in
  let opts := Sample.options false false 10 4 in
  exists rs' oss',
    basecall_strand E opts Sample.models tt (Sample.read, ""%string) 0
    = Ok (rs', oss')
    /\ In (get2 (preferred_model rs') 0)
         (model_sublist Sample.models Sample.read 0)
    /\ StdMap.find string_lt (get2 (preferred_model rs') 0) Sample.models
       <> None.
Proof.
  intros E opts.
  apply (@basecall_strand_returns Sample.types E opts Sample.models tt
           Sample.read ""%string 0).
  - exact sample_models_well_formed.
  - reflexivity.
  - reflexivity.
  - discriminate.
  - intros m I. cbn in I. destruct I as [<-|[<-|[]]]; discriminate.
  - intros m r I. cbn in I.
    destruct I as [<-|[<-|[]]]; intros [= <-]; vm_compute; discriminate.
Defined.

Lemma basecall_strand_missing_parameters_witness :
  let E := Sample.kernel Sample.train_rising Sample.decode in
  let opts := Sample.options false false 10 4 in
  basecall_strand E opts Sample.models tt (Sample.read_foo, ""%string) 1
  = Raise (out_of_range "b").
Proof.
  intros E opts.
  apply (@basecall_strand_missing_parameters Sample.types E opts Sample.models
           tt Sample.read_foo ""%string 1 [] ["c"%string] "b"%string).
  - exact sample_models_well_formed.
  - reflexivity.
  - reflexivity.
  - intros x [].
  - reflexivity.
Defined.

(** ** [write_fasta]: the lines *)

Lemma length_substring (s : string) :
  forall n m, String.length (substring n m s) = Nat.min m (String.length s - n).
Proof.
  induction s as [|c s IH]; intros n m.
  - destruct n, m; reflexivity.
  - destruct n as [|n].
    + destruct m as [|m]; [reflexivity|]. cbn [substring String.length].
      rewrite IH. rewrite Nat.sub_0_r. reflexivity.
    + cbn [substring String.length]. rewrite IH. reflexivity.
Qed.

Lemma iterate_leaves {St A : Type} (body : St -> St + A) (p : positive)
  (s : St) (a : A) :
  body s = inr a -> iterate p body s = inr a.
Proof.
  intros H. rewrite iterate_unary.
  destruct (Pos2Nat.is_succ p) as (n & ->).
  now rewrite iterate_nat_step, H.
Qed.

Section WriteFastaLines.
Context {T : Types}.
Variable opts : Options T.
Variable seq : string.

Local Abbreviation width := (N.to_nat (fasta_line_width opts)).
Local Abbreviation line i := (substring (i * width) width seq).
Local Abbreviation line_count :=
  ((String.length seq + width - 1) / width).

Lemma line_count_spec (i : nat) :
  0 < width -> (i < line_count <-> i * width < String.length seq).
Proof.
  intros W. split.
  - intros H.
    destruct (Nat.lt_ge_cases (i * width) (String.length seq)) as [L|G];
      [exact L|exfalso].
    assert (X : line_count < S i).
    { apply Nat.Div0.div_lt_upper_bound. rewrite Nat.mul_succ_r. lia. }
    lia.
  - intros H. change (S i <= line_count).
    apply Nat.div_le_lower_bound; [lia|]. rewrite Nat.mul_succ_r. lia.
Qed.

Lemma write_fasta_exact_lines (n : nat) :
  (0 < fasta_line_width opts)%N ->
  (N.of_nat (String.length seq) + fasta_line_width opts <= 2 ^ 32)%N ->
  forall (os : string) (i : nat),
  line_count - i <= n ->
  iterate_nat (S n) (write_fasta_line opts seq) (os, N.of_nat (i * width))
  = inr (os ++ lines_text (map (fun i => line i)
                             (List.seq i (line_count - i))))%string.
Proof.
  intros Wp NW.
  assert (W : 0 < width) by lia.
  induction n as [|n IH]; intros os i L;
    rewrite iterate_nat_step; cbn [write_fasta_line];
    destruct (N.of_nat (i * width) <? N.of_nat (String.length seq))%N eqn:C.
  - apply N.ltb_lt in C.
    assert (C' : i * width < String.length seq) by lia.
    apply line_count_spec in C'; lia.
  - apply N.ltb_ge in C.
    assert (G : ~ i < line_count).
    { rewrite line_count_spec by exact W. lia. }
    replace (line_count - i) with 0 by lia.
    cbn [List.seq map lines_text]. now rewrite append_nil_r.
  - apply N.ltb_lt in C.
    assert (Li : i < line_count) by (apply line_count_spec; lia).
    assert (Wr : wrap32 (N.of_nat (i * width) + fasta_line_width opts)
                 = N.of_nat (S i * width)).
    { unfold wrap32. rewrite N.mod_small by lia. lia. }
    rewrite Wr, Nat2N.id, IH by lia.
    replace (line_count - i) with (S (line_count - S i)) by lia.
    cbn [List.seq map lines_text]. now rewrite !append_assoc.
  - apply N.ltb_ge in C.
    assert (G : ~ i < line_count).
    { rewrite line_count_spec by exact W. lia. }
    replace (line_count - i) with 0 by lia.
    cbn [List.seq map lines_text]. now rewrite append_nil_r.
Qed.

(** X16.  [write_fasta] writes the header line and then the sequence in
    [ceil(size / width)] lines, line [i] being the [width] characters from
    position [i * width]: every line but the last has exactly
    [fasta_line_width] characters, no line is empty, and an empty sequence
    gives the header line alone. *)
Theorem write_fasta_fills_lines (os name : string) :
  (0 < fasta_line_width opts)%N ->
  (N.of_nat (String.length seq) + fasta_line_width opts <= 2 ^ 32)%N ->
  write_fasta opts os name seq
  = Ok (os ++ ">" ++ name ++ endl
           ++ lines_text (map (fun i => line i) (List.seq 0 line_count)))%string
  /\ (forall i, S i < line_count -> String.length (line i) = width)
  /\ (forall i, i < line_count -> 0 < String.length (line i))
  /\ (seq = ""%string -> line_count = 0).
Proof.
  intros Wp NW. assert (W : 0 < width) by lia.
  split; [|split; [|split]].
  - unfold write_fasta. rewrite iterate_unary.
    assert (Lc : line_count - 0 <= String.length seq).
    { rewrite Nat.sub_0_r.
      destruct (Nat.le_gt_cases line_count (String.length seq)) as [Le|Gt];
        [exact Le|].
      apply line_count_spec in Gt; [nia|exact W]. }
    pose proof (@write_fasta_exact_lines (String.length seq) Wp NW
                  (os ++ ">" ++ name ++ endl)%string 0 Lc) as R.
    rewrite Nat.sub_0_r in R. cbn [Nat.mul N.of_nat] in R.
    erewrite iterate_nat_more; [|exact R|].
    + now rewrite !append_assoc.
    + assert (P : N.pos (2 ^ 32) = (2 ^ 32)%N) by reflexivity. lia.
  - intros i H. apply line_count_spec in H; [|exact W].
    rewrite length_substring. cbn [Nat.mul] in H. lia.
  - intros i H. apply line_count_spec in H; [|exact W].
    rewrite length_substring. lia.
  - intros ->. cbn [String.length]. apply Nat.div_small. lia.
Qed.

(** X17.  With a line width of 0 and a sequence that is not empty, the
    loop of [write_fasta] never leaves: [pos] stays 0, and after any number
    of passes the stream holds the header line followed by that many empty
    lines. *)
Theorem write_fasta_zero_width_never_returns (os name : string) (n : nat) :
  fasta_line_width opts = 0%N ->
  seq <> ""%string ->
  iterate_nat n (write_fasta_line opts seq)
    ((os ++ ">" ++ name ++ endl)%string, 0%N)
  = inl ((os ++ ">" ++ name ++ endl)%string ++ lines_text (repeat ""%string n),
         0%N)%string
  /\ write_fasta opts os name seq = Raise fuel_exhausted.
Proof.
  intros Z Ne.
  assert (Step : forall k o,
             iterate_nat k (write_fasta_line opts seq) (o, 0%N)
             = inl ((o ++ lines_text (repeat ""%string k))%string, 0%N)).
  { induction k as [|k IH]; intros o.
    - cbn [iterate_nat repeat lines_text]. now rewrite append_nil_r.
    - rewrite iterate_nat_step. cbn [write_fasta_line].
      assert (C : (0 <? N.of_nat (String.length seq))%N = true).
      { apply N.ltb_lt. destruct seq; [congruence|cbn [String.length]; lia]. }
      rewrite C, Z. cbn [N.to_nat N.add]. unfold wrap32.
      rewrite N.Div0.mod_0_l.
      assert (S0 : substring 0 0 seq = ""%string) by now destruct seq.
      rewrite S0, IH. cbn [repeat lines_text]. now rewrite !append_assoc. }
  split; [apply Step|].
  unfold write_fasta. now rewrite iterate_unary, Step.
Qed.

End WriteFastaLines.

Lemma write_fasta_fills_lines_witness :
  let opts := Sample.options false false 10 4 in
  write_fasta opts "" "r" "ACGTACGTAC"
  = Ok (">r" ++ endl ++ "ACGT" ++ endl ++ "ACGT" ++ endl ++ "AC" ++ endl)%string
  /\ (forall i, S i < 3 ->
        String.length (substring (i * 4) 4 "ACGTACGTAC") = 4)
  /\ (forall i, i < 3 -> 0 < String.length (substring (i * 4) 4 "ACGTACGTAC"))
  /\ ("ACGTACGTAC"%string = ""%string -> 3 = 0).
Proof.
  intros opts.
  apply (@write_fasta_fills_lines Sample.types opts "ACGTACGTAC"%string
           ""%string "r"%string).
  - reflexivity.
  - vm_compute. discriminate.
Defined.

Lemma write_fasta_zero_width_never_returns_witness :
  let opts := Sample.options false false 10 0 in
  iterate_nat 2 (write_fasta_line opts "ACGT") ((">r" ++ endl)%string, 0%N)
  = inl ((">r" ++ endl ++ endl ++ endl)%string, 0%N)
  /\ write_fasta opts "" "r" "ACGT" = Raise fuel_exhausted.
Proof.
  intros opts.
  apply (@write_fasta_zero_width_never_returns Sample.types opts "ACGT"%string
           ""%string "r"%string 2).
  - reflexivity.
  - discriminate.
Defined.

(** ** [real_main]: where the process can exit *)

Lemma no_exit_bind {A B : Type} (a : result A) (k : A -> result B) :
  no_exit a -> (forall v, no_exit (k v)) -> no_exit (bind a k).
Proof.
  destruct a as [v|e]; cbn [bind]; [auto|]. intros H _. exact H.
Qed.

Lemma no_exit_for_each {A S : Type} (body : S -> A -> result S)
  (l : list A) :
  (forall s x, no_exit (body s x)) -> forall s, no_exit (for_each body l s).
Proof.
  intros H. induction l as [|x l IH]; intros s; cbn [for_each]; [exact I|].
  apply no_exit_bind; [apply H|apply IH].
Qed.

Lemma no_exit_name_at {V : Type} (k : string) (m : name_map V) :
  no_exit (name_at k m).
Proof.
  unfold name_at, StdMap.at_. destruct (StdMap.find string_lt k m); exact I.
Qed.

Lemma no_exit_name_at_assign {V : Type} (k : string) (v : V)
  (m : name_map V) :
  no_exit (name_at_assign k v m).
Proof.
  unfold name_at_assign, StdMap.at_assign.
  destruct (StdMap.find string_lt k m); exact I.
Qed.

Ltac no_exit_step :=
  first
    [ exact I
    | apply no_exit_name_at
    | apply no_exit_name_at_assign
    | apply no_exit_bind; [|intros]
    | apply no_exit_for_each; intros
    | match goal with
      | |- no_exit (match ?x with _ => _ end) => destruct x
      end ].

Section NoExit.
Context {T : Types}.
Variable E : Kernel T.
Variable R : Reader T.
Variable opts : Options T.
Variable models : Pore_Model_Dict_Type T.
Variable transitions : State_Transitions_Type T.

Lemma no_exit_scaling_rounds train rid label m_name (fuel : nat) :
  forall s, no_exit (scaling_rounds E opts fuel train rid label m_name s).
Proof.
  induction fuel as [|fuel IH]; intros s; cbn [scaling_rounds]; [exact I|].
  destruct (train (crt_pm_params s)) as [[p f] done].
  destruct done; [exact I|].
  destruct (float_lt E f (crt_fit s)); [exact I|]. cbv zeta.
  destruct (_ || _); [exact I|apply IH].
Qed.

Lemma no_exit_scaling_loop train rid label m_name params0 fit0 log0 :
  no_exit (scaling_loop E opts train rid label m_name params0 fit0 log0).
Proof. apply no_exit_scaling_rounds. Qed.

Lemma no_exit_model_ptrs train_seqs m_name :
  no_exit (model_ptrs models train_seqs m_name).
Proof. unfold model_ptrs. repeat no_exit_step. Qed.

Ltac no_exit_rounds :=
  repeat first
    [ apply no_exit_scaling_loop | apply no_exit_model_ptrs | no_exit_step ].

Lemma no_exit_rescale_strand model_list train_seqs acc st :
  no_exit (rescale_strand E opts models transitions model_list train_seqs
             acc st).
Proof.
  unfold rescale_strand. destruct acc as [rs lg].
  destruct (too_short opts rs st); [exact I|]. cbv zeta.
  apply no_exit_bind.
  { apply no_exit_for_each. intros [[rs1 mf] lg1] m.
    unfold first_round_single. repeat no_exit_step. }
  intros [[rs1 mf] lg1]. apply no_exit_bind.
  { unfold select_single. repeat no_exit_step. }
  intros [[rs2 l2] lg2]. apply no_exit_for_each. intros [rs3 lg3] m.
  unfold more_rounds_single. no_exit_rounds.
Qed.

Lemma no_exit_rescale_together model_list train_seqs rs :
  no_exit (rescale_together E opts models transitions model_list train_seqs rs).
Proof.
  unfold rescale_together. apply no_exit_bind.
  { apply no_exit_for_each. intros [[rs1 mf] lg1] m.
    unfold first_round_pair. no_exit_rounds. }
  intros [[rs1 mf] lg1]. apply no_exit_bind.
  { unfold select_pair. cbn [orb]. repeat no_exit_step. }
  intros [[rs2 l2] lg2]. apply no_exit_for_each. intros [rs3 lg3] m.
  unfold more_rounds_pair. no_exit_rounds.
Qed.

Lemma no_exit_rescale_item read_summary :
  no_exit (rescale_item E R opts models transitions read_summary).
Proof.
  unfold rescale_item. cbv zeta. apply no_exit_bind.
  - unfold rescale_loaded. cbv zeta. destruct (scales_together opts _).
    + apply no_exit_rescale_together.
    + apply no_exit_for_each. intros. apply no_exit_rescale_strand.
  - intros [rs lg]. exact I.
Qed.

Lemma no_exit_write_fasta os name seq : no_exit (write_fasta opts os name seq).
Proof. unfold write_fasta. destruct (iterate _ _ _); exact I. Qed.

Lemma no_exit_basecall_item read_summary oss :
  no_exit (basecall_item E R opts models transitions read_summary oss).
Proof.
  unfold basecall_item. cbv zeta. apply no_exit_bind.
  - unfold basecall_loaded. apply no_exit_for_each. intros [rs o] st.
    unfold basecall_strand. destruct (too_short opts rs st); [exact I|].
    apply no_exit_bind.
    { apply no_exit_for_each. intros [rs1 res] m. unfold call_with_model.
      repeat no_exit_step. }
    intros [rs1 res]. apply no_exit_bind.
    { unfold back. destruct (rev _); exact I. }
    intros best. cbv zeta.
    apply no_exit_bind; [apply no_exit_write_fasta|intros; exact I].
  - intros [rs o]. exact I.
Qed.

Lemma no_exit_pfor_serial {St : Type} (chunk_size size : nat)
  (process_item : nat -> St * string -> result (St * string)) (fuel : nat) :
  (forall i acc, no_exit (process_item i acc)) ->
  forall crt_idx s os,
  no_exit (pfor_serial fuel chunk_size size process_item crt_idx s os).
Proof.
  intros H. induction fuel as [|fuel IH]; intros crt_idx s os;
    cbn [pfor_serial];
    destruct (fetch_chunk chunk_size size crt_idx) as [[|i items] crt'];
    try exact I.
  apply no_exit_bind.
  - apply no_exit_for_each. intros acc x. apply H.
  - intros [s' oss]. apply IH.
Qed.

Lemma no_exit_rescale_reads reads :
  no_exit (rescale_reads E R opts models transitions reads).
Proof.
  unfold rescale_reads. apply no_exit_bind.
  - apply no_exit_pfor_serial. intros i [[rds lg] oss].
    unfold rescale_process_item, deque_at.
    destruct (nth_error rds i); cbn [bind]; [|exact I].
    apply no_exit_bind; [apply no_exit_rescale_item|].
    intros [rs lg']. exact I.
  - intros [s o]. exact I.
Qed.

Lemma no_exit_basecall_reads reads :
  no_exit (basecall_reads E R opts models transitions reads).
Proof.
  unfold basecall_reads. apply no_exit_pfor_serial. intros i [rds oss].
  unfold basecall_process_item, deque_at.
  destruct (nth_error rds i); cbn [bind]; [|exact I].
  apply no_exit_bind; [apply no_exit_basecall_item|].
  intros [rs o]. exact I.
Qed.

Lemma init_models_raises (e : Failure) :
  init_models R opts = Raise e -> exists d, e = exit_called EXIT_FAILURE d.
Proof.
  unfold init_models. rewrite read_model_names_args.
  destruct (for_each add_model_name (model_args R opts) []) as [ml|e'] eqn:F;
    cbn [bind].
  - destruct (_ && _); [intros [= <-]; eauto|].
    destruct (negb _); discriminate.
  - intros [= <-]. clear - F. revert F. generalize (@nil (nat * list string)).
    induction (model_args R opts) as [|s l IH]; intros ml; cbn [for_each];
      [discriminate|].
    unfold add_model_name at 1.
    destruct (parse_model_name s) as [p|e0] eqn:P; cbn [bind].
    + apply IH.
    + intros [= <-]. apply parse_model_name_raises in P. subst e0.
      unfold could_not_parse. eauto.
Qed.

End NoExit.

(** X18.  [real_main] returns [EXIT_SUCCESS] when it returns.  The process
    exits through [exit] only with [EXIT_FAILURE], and only from
    [init_models] or, the models being loaded, from [init_files] with "no
    fast5 files to process": once the files are known, no read makes the
    program call [exit]; what can still end it is an uncaught exception or
    undefined behaviour. *)
Theorem real_main_exits_only_at_start {T : Types} (E : Kernel T)
  (R : Reader T) (opts : Options T) :
  match real_main E R opts with
  | Ok (code, _) => code = EXIT_SUCCESS
  | Raise (exit_called code d) =>
      code = EXIT_FAILURE
      /\ (init_models R opts = Raise (exit_called code d)
          \/ (is_ok (init_models R opts) = true
              /\ init_files R opts = Raise (exit_called code d)
              /\ d = "no fast5 files to process"%string))
  | Raise _ => True
  end.
Proof.
  unfold real_main.
  destruct (init_models R opts) as [models|e] eqn:Im; cbn [bind].
  2:{ destruct (init_models_raises _ _ Im) as (d & ->). auto. }
  pose proof (init_files_failure R opts) as Fv.
  destruct (init_files R opts) as [files|e] eqn:If; cbn [bind].
  2:{ subst e. auto. }
  cbv zeta.
  set (reads := init_reads R opts models files).
  pose proof (no_exit_rescale_reads E R opts models (init_transitions E R opts)
                reads) as Nr.
  destruct (if accurate_scaling opts || scale_strands_together opts
               || scale_select_model_single_round opts
            then rescale_reads E R opts models (init_transitions E R opts) reads
            else Ok (reads, []))
    as [[reads1 lg]|e] eqn:Rs; cbn [bind].
  2:{ destruct (_ || _) in Rs; [|discriminate]. rewrite Rs in Nr.
      destruct e; try exact I. destruct Nr. }
  destruct (negb (scale_only opts)); cbn [bind]; [|reflexivity].
  pose proof (no_exit_basecall_reads E R opts models
                (init_transitions E R opts) reads1) as Nb.
  destruct (basecall_reads E R opts models (init_transitions E R opts) reads1)
    as [[reads2 os]|e]; cbn [bind]; [reflexivity|].
  destruct e; try exact I. destruct Nb.
Qed.

(** ** [basecall_reads]: a second pass over a read *)


Section BasecallAgain.
Context {T : Types}.
Variable E : Kernel T.
Variable opts : Options T.
Variable models : Pore_Model_Dict_Type T.
Variable transitions : State_Transitions_Type T.

Local Abbreviation Summary := (Fast5_Summary_Type T).


Lemma std_sort_one (r : @Result_Tuple T) : std_sort E [r] = [r].
Proof. reflexivity. Qed.




End BasecallAgain.


(** ** The first revision: input files *)

Section LegacyFiles.
Context {T : Types}.
Variable R : Reader T.

Local Abbreviation valid := (fun f : string => is_valid_file R f = true).
Local Abbreviation error_opening f :=
  (exit_called EXIT_FAILURE ("error opening fast5 file [" ++ f ++ "]")).

Lemma legacy_directory_entries_valid (f : string) (l : list string) :
  forall files, Forall valid files ->
  Forall valid (fold_left (Legacy.add_directory_entry R f) l files).
Proof.
  induction l as [|g l IH]; intros files F; cbn [fold_left]; [exact F|].
  apply IH. unfold Legacy.add_directory_entry.
  destruct (is_valid_file R _) eqn:V; [|exact F].
  apply Forall_app. split; [exact F|]. now constructor.
Qed.

Lemma legacy_add_input_cases (files : list string) (f : string) :
  match Legacy.add_input R files f with
  | Ok files' =>
      (is_directory R f = true \/ is_valid_file R f = true)
      /\ (Forall valid files -> Forall valid files')
  | Raise e =>
      is_directory R f = false /\ is_valid_file R f = false
      /\ e = error_opening f
  end.
Proof.
  unfold Legacy.add_input. destruct (is_directory R f).
  - split; [now left|]. apply legacy_directory_entries_valid.
  - destruct (is_valid_file R f) eqn:V.
    + split; [now right|]. intros F. apply Forall_app. split; [exact F|].
      now constructor.
    + auto.
Qed.

Lemma legacy_add_inputs_ok (l : list string) :
  forall files,
  (forall f, In f l -> is_directory R f = true \/ is_valid_file R f = true) ->
  exists files', for_each (Legacy.add_input R) l files = Ok files'.
Proof.
  induction l as [|f l IH]; intros files H; cbn [for_each]; [eauto|].
  pose proof (legacy_add_input_cases files f) as C.
  destruct (Legacy.add_input R files f) as [files1|e]; cbn [bind].
  - apply IH. intros x Hx. apply H. now right.
  - destruct C as (D & V & _).
    destruct (H f (or_introl eq_refl)); congruence.
Qed.

(** X20.  In the first revision, [init_files] returns only paths that
    [fast5::File::is_valid_file] accepts (the list may be empty), or ends
    the process with [EXIT_FAILURE] and "error opening fast5 file [f]" for
    an input [f] that is neither a directory nor a valid file. *)
Theorem legacy_init_files_returns_valid_files (opts : Options T) :
  match Legacy.init_files R opts with
  | Ok files => Forall (fun f => is_valid_file R f = true) files
  | Raise e =>
      exists f,
        In f (input_fn opts)
        /\ is_directory R f = false /\ is_valid_file R f = false
        /\ e = exit_called EXIT_FAILURE
                 ("error opening fast5 file [" ++ f ++ "]")
  end.
Proof.
  unfold Legacy.init_files.
  generalize (Forall_nil (fun f => is_valid_file R f = true)).
  generalize (@nil string).
  induction (input_fn opts) as [|f l IH]; intros files F; cbn [for_each];
    [exact F|].
  pose proof (legacy_add_input_cases files f) as C.
  destruct (Legacy.add_input R files f) as [files1|e]; cbn [bind].
  - destruct C as (_ & V). specialize (IH files1 (V F)).
    destruct (for_each (Legacy.add_input R) l files1) as [files2|e2];
      [exact IH|].
    destruct IH as (x & I & H). exists x. split; [now right|exact H].
  - exists f. split; [now left|exact C].
Qed.

(** X21.  In the first revision, [init_files] stops at the first input
    that is neither a directory nor a valid file, whatever the other
    inputs are, and names it in the diagnostic. *)
Theorem legacy_init_files_stops_at_first_bad_input (opts : Options T)
  (good rest : list string) (bad : string) :
  input_fn opts = good ++ bad :: rest ->
  (forall f, In f good ->
     is_directory R f = true \/ is_valid_file R f = true) ->
  is_directory R bad = false ->
  is_valid_file R bad = false ->
  Legacy.init_files R opts
  = Raise (exit_called EXIT_FAILURE
             ("error opening fast5 file [" ++ bad ++ "]")).
Proof.
  intros A G D V. unfold Legacy.init_files. rewrite A, for_each_app.
  destruct (legacy_add_inputs_ok good [] G) as (files & F).
  rewrite F. cbn [bind for_each]. unfold Legacy.add_input at 1.
  now rewrite D, V.
Qed.

End LegacyFiles.

Lemma legacy_init_files_stops_at_first_bad_input_witness :
  let R := Sample.reader Sample.read in
  Legacy.init_files R
    (Sample.options_with [] ["reads"; "none"; "reads"]%string)
  = Raise (exit_called EXIT_FAILURE "error opening fast5 file [none]").
Proof.
  intros R.
  apply (@legacy_init_files_stops_at_first_bad_input Sample.types R
           (Sample.options_with [] ["reads"; "none"; "reads"]%string)
           ["reads"%string] ["reads"%string] "none"%string).
  - reflexivity.
  - intros f [<-|[]]. now right.
  - reflexivity.
  - reflexivity.
Defined.

(** ** The first revision: basecalling a strand *)

Section LegacyBasecall.
Context {T : Types}.
Variable E : Kernel T.
Variable default_params : Pore_Model_Parameters_Type T.
Variable models : Pore_Model_Dict_Type T.
Variable transitions : State_Transitions_Type T.
Variable st : nat.
Hypothesis st_ok : st <= 2.

Local Abbreviation Summary := (Fast5_Summary_Type T).
Local Abbreviation Tuple := (@Result_Tuple T).
Local Abbreviation params_of rs := (get3 (params rs) st).





End LegacyBasecall.

